(** * steg: hiding an encrypted file in the low bits of an RGBA image

    A shallow embedding of [src/index.ts] (classes [RawFile] and
    [StegImage], and the helpers above them).

    Conventions of the embedding:
    - a [Uint8Array] / [Uint8ClampedArray] is a [list Z] whose elements are
      bytes ([is_u8]); a store converts the stored number the way the
      array kind does ([store]), an index outside the array reads
      [undefined] and a store there is ignored;
    - the JavaScript operators [>>], [<<], [|], [&] work on the ToInt32
      image of their operands; the wrap-around is written out;
    - JavaScript numbers that the code divides are rationals ([Q]);
    - a thrown [Error] is an [Err] result; state that outlives a call (the
      channel buffer, the random source, the calls of the AEAD provider)
      lives in a [World] threaded through the [M] monad. *)

From Stdlib Require Import ZArith QArith Qround Lia ZifyNat List Decimal DecimalNat.
From stdpp Require Import base tactics numbers list.

Local Open Scope Z_scope.

(** ** Errors and results *)

(** One constructor per [throw] of the source; the names follow the
    taxonomy of the specification, the message is the one of the source. *)
Inductive error : Type :=
| BitsOutOfRange          (* 'Bits taken must be >= 1 and <= 8' *)
| InvalidName             (* 'File name must be 1-255 chars' *)
| LengthTooSmall          (* 'requiredLength is lesser than result' *)
| CorruptHeader           (* 'file name must contain at least 1 character' *)
| RangeError              (* DataView read outside the view; negative array length *)
| EncryptionSizeMismatch  (* 'Encrypted blob must be equal to total data length' *)
| BlobTooLarge            (* 'StegImage#hideBlob: Can't hide ... bytes in ...' *)
| NeedMoreRandomBits      (* 'StegImage#hideBlob: Need more than 7 random bits' *)
| BufBitsMismatch         (* 'StegImage#hideBlob: bufBits !== bitsTaken' *)
| CursorMismatch          (* 'StegImage#hideBlob: Current pixel length ...' *)
| AeadFailure.            (* whatever the AEAD provider throws *)

Inductive result (A : Type) : Type :=
| Ok (a : A)
| Err (e : error).
Arguments Ok {A} a.
Arguments Err {A} e.

Global Instance result_ret : MRet result := λ A a, Ok a.
Global Instance result_bind : MBind result := λ A B k m,
  match m with
  | Ok a => k a
  | Err e => Err e
  end.

(** ** JavaScript numbers as the code uses them *)

Definition ToInt32 (x : Z) : Z := (x + 2 ^ 31) mod 2 ^ 32 - 2 ^ 31.

(** [a >> n], [a << n], [a | b], [a & b]. *)
Definition js_shr (a n : Z) : Z := Z.shiftr (ToInt32 a) (n mod 32).
Definition js_shl (a n : Z) : Z := ToInt32 (Z.shiftl (ToInt32 a) (n mod 32)).
Definition js_or (a b : Z) : Z := Z.lor (ToInt32 a) (ToInt32 b).
Definition js_and (a b : Z) : Z := Z.land (ToInt32 a) (ToInt32 b).

(** An array element that may be [undefined]; ToInt32(undefined) = 0. *)
Definition num_of (o : option Z) : Z :=
  match o with
  | Some v => v
  | None => 0
  end.

Definition is_u8 (v : Z) : Prop := 0 ≤ v < 256.

(** The two array kinds a channel buffer comes in: [ImageData.data] of a
    browser is a [Uint8ClampedArray], the buffers of [test/index.js] are
    [Uint8Array]s. *)
Inductive ArrayKind : Type := Uint8 | Uint8Clamped.

(** Conversion of an integer on a store. *)
Definition store (k : ArrayKind) (v : Z) : Z :=
  match k with
  | Uint8 => v mod 256
  | Uint8Clamped => Z.max 0 (Z.min 255 v)
  end.

(** ** Helpers of [src/index.ts] *)

Definition ENCRYPTED_METADATA_SIZE : Z := 28.

(** [Number.isSafeInteger(b) && b >= 1 && b <= 8]; the numbers of the
    embedding are integers ([validateBits_number] below takes a fraction,
    [NaN] and the infinities too). *)
Definition validateBits (bitsTaken : Z) : result unit :=
  let b := bitsTaken in
  if negb ((Z.abs b <=? 2 ^ 53 - 1) && (1 <=? b) && (b <=? 8))
  then Err BitsOutOfRange
  else Ok tt.

Definition clearBits (n bits : Z) : Z := js_shl (js_shr n bits) bits.

Definition readBit (byte pos : Z) : Z := js_and (js_shr byte (7 - pos)) 1.

(** [%] is the remainder that takes the sign of the dividend. *)
Definition isAlpha (pixel : Z) : bool := Z.rem pixel 4 =? 3.

(** ** CapacityModel *)

Record Capacity : Type := mkCapacity { bits : Q; bytes : Z }.

Definition calcCapacity (channels : list Z) (bitsTaken : Z) : result Capacity :=
  _ ← validateBits bitsTaken;
  let rgba := 4 in
  let channelsNoFirst := Z.of_nat (length channels) - rgba in
  let pixels := (inject_Z channelsNoFirst / inject_Z rgba)%Q in
  let rgb := 3 in
  let bits := (pixels * inject_Z rgb * inject_Z bitsTaken)%Q in
  let bytes := Qfloor (bits / 8) in
  Ok {| bits := bits; bytes := bytes |}.

(** ** [bitsTaken] as a JavaScript number

    The parameter [bitsTaken] is a [number]: besides the integers that the
    rest of the embedding works with, a caller can pass a fraction, [NaN]
    (the page of the demo passes [Number.parseInt] of a form field) or an
    infinity.  A finite number is a rational. *)
Inductive number : Type :=
| Finite (q : Q)
| NaN
| Infinity (negative : bool).

(** [Number.isSafeInteger(b)]: a finite number with no fraction, of
    absolute value at most 2^53 - 1. *)
Definition isSafeInteger (b : number) : bool :=
  match b with
  | Finite q => (Z.pos (Qden (Qred q)) =? 1) && (Z.abs (Qnum (Qred q)) <=? 2 ^ 53 - 1)
  | NaN => false
  | Infinity _ => false
  end.

(** [b >= n] and [b <= n] for an integer [n]; a comparison with [NaN] is
    false. *)
Definition number_ge (b : number) (n : Z) : bool :=
  match b with
  | Finite q => Qle_bool (inject_Z n) q
  | NaN => false
  | Infinity negative => negb negative
  end.

Definition number_le (b : number) (n : Z) : bool :=
  match b with
  | Finite q => Qle_bool q (inject_Z n)
  | NaN => false
  | Infinity negative => negative
  end.

(** [validateBits] on every number; [validateBits] above is its
    restriction to the integers. *)
Definition validateBits_number (bitsTaken : number) : result unit :=
  let b := bitsTaken in
  if negb (isSafeInteger b && number_ge b 1 && number_le b 8)
  then Err BitsOutOfRange
  else Ok tt.

(** [calcCapacity] on every number.  Behind [validateBits] the number is
    finite; the last branch is one that [validateBits] has left by its
    throw. *)
Definition calcCapacity_number (channels : list Z) (bitsTaken : number) : result Capacity :=
  _ ← validateBits_number bitsTaken;
  match bitsTaken with
  | Finite bitsTaken =>
      let rgba := 4 in
      let channelsNoFirst := Z.of_nat (length channels) - rgba in
      let pixels := (inject_Z channelsNoFirst / inject_Z rgba)%Q in
      let rgb := 3 in
      let bits := (pixels * inject_Z rgb * bitsTaken)%Q in
      let bytes := Qfloor (bits / 8) in
      Ok {| bits := bits; bytes := bytes |}
  | _ => Err BitsOutOfRange
  end.

(** The number [b] is the integer [z]. *)
Definition number_is (b : number) (z : Z) : Prop :=
  match b with
  | Finite q => (q == inject_Z z)%Q
  | _ => False
  end.

(** ** Text encoding of the platform

    [utils.utf8ToBytes] is [new TextEncoder().encode(str)] and
    [utils.bytesToUtf8] is [new TextDecoder().decode(bytes)]: the UTF-8
    encoder and decoder of the Encoding Standard with the options left at
    their defaults ([fatal] false: a malformed sequence decodes to U+FFFD;
    [ignoreBOM] false: a byte order mark at the start is dropped).  A
    JavaScript string is its sequence of UTF-16 code units. *)

Definition is_lead (c : Z) : bool := (0xD800 <=? c) && (c <=? 0xDBFF).
Definition is_trail (c : Z) : bool := (0xDC00 <=? c) && (c <=? 0xDFFF).

(** Code units to scalar values; a surrogate that is not part of a pair
    becomes U+FFFD. *)
Fixpoint scalars_of_units (s : list Z) : list Z :=
  match s with
  | [] => []
  | c :: s' =>
      if is_lead c then
        match s' with
        | d :: s'' =>
            if is_trail d
            then (0x10000 + (c - 0xD800) * 0x400 + (d - 0xDC00)) :: scalars_of_units s''
            else 0xFFFD :: scalars_of_units s'
        | [] => [0xFFFD]
        end
      else if is_trail c then 0xFFFD :: scalars_of_units s'
      else c :: scalars_of_units s'
  end.

Definition units_of_scalar (cp : Z) : list Z :=
  if cp <? 0x10000 then [cp]
  else [0xD800 + Z.shiftr (cp - 0x10000) 10; 0xDC00 + Z.land (cp - 0x10000) 0x3FF].

(** The UTF-8 encoder of the Encoding Standard. *)
Definition utf8_encode_scalar (cp : Z) : list Z :=
  if cp <? 0x80 then [cp]
  else if cp <? 0x800 then
    [Z.shiftr cp 6 + 0xC0; Z.lor 0x80 (Z.land cp 0x3F)]
  else if cp <? 0x10000 then
    [Z.shiftr cp 12 + 0xE0; Z.lor 0x80 (Z.land (Z.shiftr cp 6) 0x3F);
     Z.lor 0x80 (Z.land cp 0x3F)]
  else
    [Z.shiftr cp 18 + 0xF0; Z.lor 0x80 (Z.land (Z.shiftr cp 12) 0x3F);
     Z.lor 0x80 (Z.land (Z.shiftr cp 6) 0x3F); Z.lor 0x80 (Z.land cp 0x3F)].

(** The UTF-8 decoder of the Encoding Standard, error mode "replacement". *)
Record Utf8Decoder : Type := mkUtf8Decoder {
  code_point : Z;
  bytes_seen : Z;
  bytes_needed : Z;
  lower_boundary : Z;
  upper_boundary : Z;
}.

Definition utf8_initial : Utf8Decoder := mkUtf8Decoder 0 0 0 0x80 0xBF.

(** A byte met while no sequence is open. *)
Definition utf8_lead (byte : Z) : list Z * Utf8Decoder :=
  if (0 <=? byte) && (byte <=? 0x7F) then ([byte], utf8_initial)
  else if (0xC2 <=? byte) && (byte <=? 0xDF) then
    ([], mkUtf8Decoder (Z.land byte 0x1F) 0 1 0x80 0xBF)
  else if (0xE0 <=? byte) && (byte <=? 0xEF) then
    ([], mkUtf8Decoder (Z.land byte 0xF) 0 2
           (if byte =? 0xE0 then 0xA0 else 0x80)
           (if byte =? 0xED then 0x9F else 0xBF))
  else if (0xF0 <=? byte) && (byte <=? 0xF4) then
    ([], mkUtf8Decoder (Z.land byte 0x7) 0 3
           (if byte =? 0xF0 then 0x90 else 0x80)
           (if byte =? 0xF4 then 0x8F else 0xBF))
  else ([0xFFFD], utf8_initial).

(** One byte through the decoder: the scalar values it emits and the next
    state.  A byte that cannot continue the open sequence is put back and
    read again with no sequence open, after U+FFFD is emitted. *)
Definition utf8_handler (d : Utf8Decoder) (byte : Z) : list Z * Utf8Decoder :=
  if bytes_needed d =? 0 then utf8_lead byte
  else if negb ((lower_boundary d <=? byte) && (byte <=? upper_boundary d)) then
    let '(out, d') := utf8_lead byte in (0xFFFD :: out, d')
  else
    let cp := Z.lor (Z.shiftl (code_point d) 6) (Z.land byte 0x3F) in
    let seen := bytes_seen d + 1 in
    if seen =? bytes_needed d then ([cp], utf8_initial)
    else ([], mkUtf8Decoder cp seen (bytes_needed d) 0x80 0xBF).

Fixpoint utf8_decode (d : Utf8Decoder) (bs : list Z) : list Z :=
  match bs with
  | [] => if bytes_needed d =? 0 then [] else [0xFFFD]
  | b :: bs' => let '(out, d') := utf8_handler d b in out ++ utf8_decode d' bs'
  end.

(** [ignoreBOM] is false: a U+FEFF decoded first (bytes EF BB BF) is not
    part of the result. *)
Definition strip_bom (cps : list Z) : list Z :=
  match cps with
  | cp :: cps' => if cp =? 0xFEFF then cps' else cps
  | [] => []
  end.

Definition utf8ToBytes (str : list Z) : list Z :=
  concat (map utf8_encode_scalar (scalars_of_units str)).

Definition bytesToUtf8 (bs : list Z) : list Z :=
  concat (map units_of_scalar (strip_bom (utf8_decode utf8_initial bs))).

(** ** RawFile (FilePacker) *)

Record RawFile : Type := mkRawFile {
  data : list Z;   (* Uint8Array *)
  name : list Z;   (* string: UTF-16 code units *)
}.

Definition size (f : RawFile) : Z := Z.of_nat (length (data f)).

Fixpoint units_of_uint (d : Decimal.uint) : list Z :=
  match d with
  | Decimal.Nil => []
  | Decimal.D0 d => 48 :: units_of_uint d
  | Decimal.D1 d => 49 :: units_of_uint d
  | Decimal.D2 d => 50 :: units_of_uint d
  | Decimal.D3 d => 51 :: units_of_uint d
  | Decimal.D4 d => 52 :: units_of_uint d
  | Decimal.D5 d => 53 :: units_of_uint d
  | Decimal.D6 d => 54 :: units_of_uint d
  | Decimal.D7 d => 55 :: units_of_uint d
  | Decimal.D8 d => 56 :: units_of_uint d
  | Decimal.D9 d => 57 :: units_of_uint d
  end.

(** [`file-${this.size}.file`] *)
Definition default_name (size : nat) : list Z :=
  [102; 105; 108; 101; 45] ++ units_of_uint (Nat.to_uint size) ++ [46; 102; 105; 108; 101].

(** [new RawFile(data, name)]: an empty name is replaced. *)
Definition newRawFile (data : list Z) (name : list Z) : RawFile :=
  {| data := data;
     name := match name with [] => default_name (length data) | _ => name end |}.

(** [view.setUint32(offset, n)] writes ToUint32(n), big-endian. *)
Definition be32 (n : Z) : list Z :=
  let u := n mod 2 ^ 32 in
  [u / 2 ^ 24; (u / 2 ^ 16) mod 256; (u / 2 ^ 8) mod 256; u mod 256].

(** [view.getUint32(offset)] *)
Definition getUint32 (a : list Z) (offset : nat) : result Z :=
  if (length a <? offset + 4)%nat then Err RangeError
  else
    match take 4 (drop offset a) with
    | [b0; b1; b2; b3] => Ok (b0 * 2 ^ 24 + b1 * 2 ^ 16 + b2 * 2 ^ 8 + b3)
    | _ => Err RangeError
    end.

(** [view.getUint8(offset)] *)
Definition getUint8 (a : list Z) (offset : nat) : result Z :=
  match a !! offset with
  | Some v => Ok v
  | None => Err RangeError
  end.

(** [padded.subarray(begin, end)] with [0 <= begin]: both ends are clamped
    to the array. *)
Definition subarray (a : list Z) (begin_ end_ : nat) : list Z :=
  take (end_ - begin_)%nat (drop begin_ a).

Definition fromPacked (packed : list Z) : result RawFile :=
  let padded := packed in
  let offset := 0%nat in
  nsize ← getUint8 padded offset;
  let offset := (offset + 1)%nat in
  if nsize <? 1 then Err CorruptHeader
  else
    let name := bytesToUtf8 (subarray padded offset (offset + Z.to_nat nsize)) in
    let offset := (offset + Z.to_nat nsize)%nat in
    fsize ← getUint32 padded offset;
    let offset := (offset + 4)%nat in
    let unpadded := subarray padded offset (offset + Z.to_nat fsize) in
    Ok (newRawFile unpadded name).

Definition createHeader (f : RawFile) : result (list Z) :=
  let nbytes := utf8ToBytes (name f) in
  let nsize := Z.of_nat (length nbytes) in
  if (nsize <? 1) || (255 <? nsize) then Err InvalidName
  else Ok ([nsize] ++ nbytes ++ be32 (size f)).

Definition pack (f : RawFile) : result (list Z) :=
  header ← createHeader f;
  Ok (header ++ data f).

Definition packWithPadding (f : RawFile) (requiredLength : Z) : result (list Z) :=
  packed ← pack f;
  let difference := requiredLength - Z.of_nat (length packed) in
  if difference <? 0 then Err LengthTooSmall
  else Ok (packed ++ replicate (Z.to_nat difference) 0).

(** ** The world of a [StegImage] *)

Record World : Type := mkWorld {
  channels : list Z;   (* this.imageData.data *)
  kind : ArrayKind;    (* the array kind of [channels] *)
  entropy : nat → Z;   (* what the CSPRNG is going to deliver *)
  drawn : nat;         (* random bytes drawn so far *)
  sealed : nat;        (* calls of aes.encrypt so far *)
}.

Definition M (A : Type) : Type := World → result A * World.

Global Instance M_ret : MRet M := λ A a w, (Ok a, w).
Global Instance M_bind : MBind M := λ A B k m w,
  match m w with
  | (Ok a, w') => k a w'
  | (Err e, w') => (Err e, w')
  end.

Definition throw {A : Type} (e : error) : M A := λ w, (Err e, w).
Definition lift {A : Type} (r : result A) : M A := λ w, (r, w).
Definition gets {A : Type} (f : World → A) : M A := λ w, (Ok (f w), w).
(** A step that cannot throw. *)
Definition step {A : Type} (f : World → World * A) : M A :=
  λ w, let '(w', a) := f w in (Ok a, w').

(** [channels[i] = v] *)
Definition set_channel (w : World) (i : nat) (v : Z) : World :=
  mkWorld (<[i := store (kind w) v]> (channels w)) (kind w) (entropy w) (drawn w) (sealed w).

(** [aesUtils.randomBytes(1)[0]] *)
Definition getRandomByte (w : World) : World * Z :=
  (mkWorld (channels w) (kind w) (entropy w) (S (drawn w)) (sealed w),
   entropy w (drawn w) mod 256).

(** A [while] loop, given the number of iterations it may take. *)
Fixpoint while {S : Type} (fuel : nat) (cond : S → bool) (body : S → S) (s : S) : S :=
  match fuel with
  | O => s
  | Datatypes.S fuel' => if cond s then while fuel' cond body (body s) else s
  end.

(** ** The AEAD provider (micro-aes-gcm)

    [aes_encrypt n key plaintext] is the [n]-th call of [aes.encrypt], which
    draws a fresh nonce. *)
Class Aead : Type := {
  aes_encrypt : nat → list Z → list Z → result (list Z);
  aes_decrypt : list Z → list Z → result (list Z);
}.

(** ** StegImage (ChannelCursor and StegCodec) *)

(** The closure [writeChannel] of [hideBlob]; [channelId] is threaded. *)
Definition writeChannel (data bits : Z) (s : World * nat) : World * nat :=
  let '(w, channelId) := s in
  let curr := num_of (channels w !! channelId) in
  let w := set_channel w channelId (js_or (clearBits curr bits) data) in
  let channelId := S channelId in
  if isAlpha (Z.of_nat channelId)
  then (set_channel w channelId 256, S channelId)
  else (w, channelId).

(** [while (channelId < 3) writeChannel(readBit(bitsTaken - 1, 8 - 3 + channelId), 1)] *)
Definition writeHeader (bitsTaken : Z) (s : World * nat) : World * nat :=
  while 3 (λ s, (snd s <? 3)%nat)
    (λ s, writeChannel (readBit (bitsTaken - 1) (8 - 3 + Z.of_nat (snd s))) 1 s) s.

(** The locals of the payload loop. *)
Record Writer : Type := mkWriter {
  wr_world : World;
  channelId : nat;
  buf : Z;
  bufBits : Z;
}.

(** The body of [for (let bit = 0; bit < 8; bit++)]. *)
Definition hideBit (bitsTaken hiddenDataByte : Z) (s : Writer) (bit : Z) : Writer :=
  let buf := js_or (js_shl (buf s) 1) (readBit hiddenDataByte bit) in
  let bufBits := bufBits s + 1 in
  if bufBits =? bitsTaken then
    let '(w, c) := writeChannel buf bitsTaken (wr_world s, channelId s) in
    mkWriter w c 0 0
  else mkWriter (wr_world s) (channelId s) buf bufBits.

(** The body of [for (let byte = 0; byte < hData.length; byte++)]. *)
Definition hideByte (bitsTaken : Z) (s : Writer) (hiddenDataByte : Z) : Writer :=
  foldl (hideBit bitsTaken hiddenDataByte) s (seqZ 0 8).

Definition hideBytes (bitsTaken : Z) (hData : list Z) (s : Writer) : Writer :=
  foldl (hideByte bitsTaken) s hData.

(** [for (let i = 0; i < leftoverBits; i++)] on the pair [(buf, bufBits)]. *)
Fixpoint fillLeftover (randomByte : Z) (range : list Z) (b : Z * Z) : result (Z * Z) :=
  match range with
  | [] => Ok b
  | i :: range' =>
      if 7 <? i then Err NeedMoreRandomBits
      else
        let randomBit := readBit randomByte i in
        fillLeftover randomByte range' (js_or (js_shl (fst b) 1) randomBit, snd b + 1)
  end.

(** [if (bufBits) { ... }]: the partial channel. *)
Definition flushLeftover (bitsTaken : Z) (s : Writer) : M nat :=
  if bufBits s =? 0 then mret (channelId s)
  else
    randomByte ← step getRandomByte;
    let leftoverBits := bitsTaken - bufBits s in
    b ← lift (fillLeftover randomByte (seqZ 0 leftoverBits) (buf s, bufBits s));
    if negb (snd b =? bitsTaken) then throw BufBitsMismatch
    else step (λ w, writeChannel (fst b) bitsTaken (w, channelId s)).

(** The body of [while (channelId < channelsLen)]. *)
Definition fillChannel (bitsTaken : Z) (s : World * nat) : World * nat :=
  let '(w, randomByte) := getRandomByte (fst s) in
  let bitsTakenMask := 2 ^ bitsTaken - 1 in
  writeChannel (js_and randomByte bitsTakenMask) bitsTaken (w, snd s).

Definition fillTrailing (bitsTaken : Z) (channelsLen : nat) (s : World * nat) : World * nat :=
  while channelsLen (λ s, (snd s <? channelsLen)%nat) (fillChannel bitsTaken) s.

(** The write sequence of [hideBlob] (lines 255-335), up to the cursor it
    ends with. *)
Definition hideBlob_write (hData : list Z) (bitsTaken : Z) : M nat :=
  channelsLen ← gets (λ w, length (channels w));
  let hDataLen := Z.of_nat (length hData) in
  _ ← lift (validateBits bitsTaken);
  cap ← (λ w, (calcCapacity (channels w) bitsTaken, w));
  if bytes cap <? hDataLen then throw BlobTooLarge
  else
    channelId ← step (λ w, writeHeader bitsTaken (w, 0%nat));
    s ← step (λ w, let s := hideBytes bitsTaken hData (mkWriter w channelId 0 0) in
                   (wr_world s, s));
    channelId ← flushLeftover bitsTaken s;
    channelId ← step (λ w, fillTrailing bitsTaken channelsLen (w, channelId));
    mret channelId.

(** [hideBlob].  [hData] is a [Uint8Array] by its type.  The canvas is
    outside the codec: it takes the buffer as it is and hands the same
    bytes back, so the verification loop passes; the result stands for the
    exported image, the channel buffer that was written.  What follows
    the cursor check in the source (lines 343-366: the throws 'No
    context', 'Mismatch after verification' and 'No blob' of the export,
    all of them behind the last write, and [reset], which makes the
    object read its picture again) is the canvas's and is not part of
    [hideBlob] here. *)
Definition hideBlob (hData : list Z) (bitsTaken : Z) : M (list Z) :=
  channelsLen ← gets (λ w, length (channels w));
  channelId ← hideBlob_write hData bitsTaken;
  if negb (channelId =? channelsLen)%nat then throw CursorMismatch
  else gets channels.

Definition revealBitsTaken (channels : list Z) : result Z :=
  let bit0 := js_shl (readBit (num_of (channels !! 0%nat)) 7) 2 in
  let bit1 := js_shl (readBit (num_of (channels !! 1%nat)) 7) 1 in
  let bit2 := readBit (num_of (channels !! 2%nat)) 7 in
  let bitsTaken := 1 + js_or (js_or bit0 bit1) bit2 in
  _ ← validateBits bitsTaken;
  Ok bitsTaken.

(** The locals of the loop of [revealBlob]. *)
Record Reader : Type := mkReader {
  rd_channelId : nat;
  rd_buf : Z;
  rd_bufBits : Z;
  out : list Z;
  outPos : nat;
}.

(** One turn of [for (let channelId = 4; channelId < channels.length; channelId++)]. *)
Definition revealChannel (channels : list Z) (bitsTaken mask : Z) (s : Reader) : Reader :=
  let channelId := if isAlpha (Z.of_nat (rd_channelId s))
                   then S (rd_channelId s) else rd_channelId s in
  let buf := js_or (js_shl (rd_buf s) bitsTaken)
                   (js_and (num_of (channels !! channelId)) mask) in
  let bufBits := rd_bufBits s + bitsTaken in
  if 8 <=? bufBits then
    let leftBits := bufBits - 8 in
    mkReader (S channelId) (js_and buf (2 ^ leftBits - 1)) leftBits
             (<[outPos s := store Uint8 (js_shr buf leftBits)]> (out s)) (S (outPos s))
  else mkReader (S channelId) buf bufBits (out s) (outPos s).

Definition revealBlob (channels : list Z) : result (list Z) :=
  bitsTaken ← revealBitsTaken channels;
  cap ← calcCapacity channels bitsTaken;
  let mask := 2 ^ bitsTaken - 1 in
  if bytes cap <? 0 then Err RangeError
  else
    let s := while (length channels) (λ s, (rd_channelId s <? length channels)%nat)
               (revealChannel channels bitsTaken mask)
               (mkReader 4 0 0 (replicate (Z.to_nat (bytes cap)) 0) 0) in
    Ok (out s).

Section StegCodec.
Context `{Aead}.

(** [await aes.encrypt(key, packed)] *)
Definition encrypt (key packed : list Z) : M (list Z) := λ w,
  (aes_encrypt (sealed w) key packed,
   mkWorld (channels w) (kind w) (entropy w) (drawn w) (S (sealed w))).

Definition hide (rawFile : RawFile) (key : list Z) (bitsTaken : Z) : M (list Z) :=
  cap ← (λ w, (calcCapacity (channels w) bitsTaken, w));
  let capacity := bytes cap in
  packed ← lift (packWithPadding rawFile (capacity - ENCRYPTED_METADATA_SIZE));
  ciphertext ← encrypt key packed;
  if negb (Z.of_nat (length ciphertext) =? capacity) then throw EncryptionSizeMismatch
  else hideBlob ciphertext bitsTaken.

Definition reveal (key : list Z) : M RawFile :=
  ciphertext ← (λ w, (revealBlob (channels w), w));
  packed ← lift (aes_decrypt key ciphertext);
  lift (fromPacked packed).
End StegCodec.

(** ** The contract of the AEAD provider

    For a 32-byte key, [aes.encrypt] returns nonce (12 bytes), ciphertext
    (as long as the plaintext) and tag (16 bytes) in one byte array, and
    [aes.decrypt] with the same key gives the plaintext back. *)
Class AeadContract `{Aead} : Prop := {
  aead_seal : ∀ (n : nat) (key p : list Z),
    length key = 32%nat → Forall is_u8 key → Forall is_u8 p →
    ∃ c, aes_encrypt n key p = Ok c
         ∧ length c = (12 + length p + 16)%nat
         ∧ Forall is_u8 c
         ∧ aes_decrypt key c = Ok p;
}.

(** The least provider that meets the contract: it frames the plaintext
    with a nonce and a tag and leaves it in the clear. *)
Definition framing_aead : Aead := {|
  aes_encrypt n key p :=
    if (length key =? 32)%nat
    then Ok (replicate 12 (Z.of_nat n mod 256) ++ p ++ replicate 16 0)
    else Err AeadFailure;
  aes_decrypt key c :=
    if (length key =? 32)%nat && (28 <=? length c)%nat
    then Ok (take (length c - 28) (drop 12 c))
    else Err AeadFailure;
|}.

(** ** The page of [demo/index.js]

    What [reformat] reads is the [cache] of [setupEncryption] (the image,
    the file to hide, the key, [bitsTaken]); what it writes is the
    [disabled] flag of two elements of the page, which are taken to be
    there. *)

Record Page : Type := mkPage {
  submit_disabled : bool;      (* #steg-encrypt-submit-button *)
  data_file_disabled : bool;   (* #steg-encrypt-data-file *)
}.

Definition reformat (stegImg : option World) (hiddenFile : option RawFile)
    (key : option (list Z)) (bitsTaken : Z) (page : Page) : result Page :=
  let si := stegImg in
  let hf := hiddenFile in
  let page := match si with
              | Some _ => mkPage (submit_disabled page) false
              | None => page
              end in
  match si, hf, key with
  | Some si, Some hf, Some _ =>
      cap ← calcCapacity (channels si) bitsTaken;
      if bytes cap <? size hf then Ok (mkPage true (data_file_disabled page))
      else Ok (mkPage false (data_file_disabled page))
  | _, _, _ => Ok (mkPage true (data_file_disabled page))
  end.

(** ** Notions the statements use *)

Definition is_u16 (c : Z) : Prop := 0 ≤ c < 65536.

(** The cursor after a [writeChannel] at [c]. *)
Definition next (c : nat) : nat :=
  if isAlpha (Z.of_nat (S c)) then S (S c) else S c.

(** The index of the [n]-th colour channel behind the first pixel. *)
Fixpoint rgb_index (n : nat) : nat :=
  match n with
  | O => 4%nat
  | S k => next (rgb_index k)
  end.

(** The first [n] colour channels behind the first pixel. *)
Definition payload (ch : list Z) (n : nat) : list Z :=
  map (λ k, num_of (ch !! rgb_index k)) (seq 0 n).

(** The [n] low bits of [v], most significant first. *)
Fixpoint bits_of (n : nat) (v : Z) : list bool :=
  match n with
  | O => []
  | S k => Z.testbit v (Z.of_nat k) :: bits_of k v
  end.

(** The number a bit string spells, most significant bit first. *)
Definition val (l : list bool) : Z := foldl (λ a x, 2 * a + Z.b2z x) 0 l.

(** The bit string carried by channel values, [n] bits each. *)
Definition stream (n : nat) (vs : list Z) : list bool :=
  concat (map (bits_of n) vs).

(** A world whose channel buffer is a byte array. *)
Definition wf_world (w : World) : Prop := Forall is_u8 (channels w).

(** A string the text codec of the platform gives back unchanged. *)
Definition utf8_stable (s : list Z) : Prop := bytesToUtf8 (utf8ToBytes s) = s.

(** A scalar value: a code point that is not a surrogate. *)
Definition is_scalar (cp : Z) : Prop := 0 ≤ cp < 0xD800 ∨ 0xE000 ≤ cp < 0x110000.

(** A string in which every surrogate is half of a pair. *)
Fixpoint well_formed (s : list Z) : bool :=
  match s with
  | [] => true
  | c :: s' =>
      if is_lead c then
        match s' with
        | d :: s'' => is_trail d && well_formed s''
        | [] => false
        end
      else negb (is_trail c) && well_formed s'
  end.

(** A code unit of the ASCII range. *)
Definition is_ascii (c : Z) : Prop := 0 ≤ c < 128.

(** ** Invariants of the loops *)

(** What the write sequence keeps while the cursor moves: the array kind
    and length, byte-sized channels, and the blank in every alpha channel
    the cursor has passed. *)
Record Frame (k : ArrayKind) (L : nat) (w : World) (c : nat) : Prop := mkFrame {
  frame_kind : kind w = k;
  frame_length : length (channels w) = L;
  frame_u8 : Forall is_u8 (channels w);
  frame_alpha : ∀ i, (i < c)%nat → (i < L)%nat → (i mod 4 = 3)%nat →
                     channels w !! i = Some (store k 256);
}.

(** The payload loop between two bits: [n] colour channels are written,
    the accumulator holds the bits [acc] that followed, and together they
    spell [bs], the bits pushed so far. *)
Definition WInv (k : ArrayKind) (p : nat) (b : Z) (hdr : result Z) (w0 : World)
    (s : Writer) (bs : list bool) : Prop :=
  ∃ (n : nat) (acc : list bool),
    Frame k (4 * S p) (wr_world s) (rgb_index n)
    ∧ revealBitsTaken (channels (wr_world s)) = hdr
    ∧ channelId s = rgb_index n
    ∧ buf s = val acc
    ∧ bufBits s = Z.of_nat (length acc)
    ∧ Z.of_nat (length acc) < b
    ∧ stream (Z.to_nat b) (payload (channels (wr_world s)) n) ++ acc = bs
    ∧ entropy (wr_world s) = entropy w0
    ∧ drawn (wr_world s) = drawn w0
    ∧ sealed (wr_world s) = sealed w0.

(** The value of [channelId] when the loop of [revealBlob] is about to
    read the [n]-th colour channel. *)
Definition loop_head (n : nat) : nat :=
  match n with
  | O => 4%nat
  | S k => S (rgb_index k)
  end.

(** The loop of [revealBlob] after [n] colour channels: the bytes [ob] are
    in [out], the accumulator holds the bits [pend], and together they
    spell the low bits of the channels read. *)
Definition RInv (ch : list Z) (b : Z) (cap : nat) (s : Reader) (n : nat) : Prop :=
  ∃ (ob : list Z) (pend : list bool),
    rd_channelId s = loop_head n
    ∧ rd_buf s = val pend
    ∧ rd_bufBits s = Z.of_nat (length pend)
    ∧ (length pend < 8)%nat
    ∧ outPos s = length ob
    ∧ out s = ob ++ replicate (cap - length ob) 0
    ∧ (length ob ≤ cap)%nat
    ∧ Forall is_u8 ob
    ∧ stream 8 ob ++ pend = stream (Z.to_nat b) (payload ch n).

(** What every write of [hideBlob] keeps of the world it found: the array
    kind and length, byte-sized channels, the random source, the count of
    AEAD calls, and the bits above the [b] lowest of every colour channel. *)
Record Keeps (b : Z) (w0 w : World) : Prop := mkKeeps {
  keeps_kind : kind w = kind w0;
  keeps_length : length (channels w) = length (channels w0);
  keeps_u8 : Forall is_u8 (channels w);
  keeps_entropy : entropy w = entropy w0;
  keeps_sealed : sealed w = sealed w0;
  keeps_high : ∀ i, (i mod 4 ≠ 3)%nat →
                 num_of (channels w !! i) / 2 ^ b = num_of (channels w0 !! i) / 2 ^ b;
}.

(** The payload loop between two bits, on any buffer: the cursor is
    behind the header, the header is as the header phase left it, and the
    accumulator holds [bufBits] bits, fewer than [b]. *)
Definition WKeeps (b : Z) (w0 : World) (s : Writer) : Prop :=
  Keeps b w0 (wr_world s)
  ∧ (3 ≤ channelId s)%nat
  ∧ (∀ j, (j < 3)%nat → channels (wr_world s) !! j = channels w0 !! j)
  ∧ 0 ≤ bufBits s < b
  ∧ 0 ≤ buf s < 2 ^ bufBits s.

(** The same for the cursor alone. *)
Definition CKeeps (b : Z) (w0 : World) (s : World * nat) : Prop :=
  Keeps b w0 (fst s)
  ∧ (3 ≤ snd s)%nat
  ∧ (∀ j, (j < 3)%nat → channels (fst s) !! j = channels w0 !! j).

(** * Properties *)

Ltac dlia := zify; Z.to_euclidean_division_equations; lia.

(** ** The JavaScript operators on small numbers *)

Lemma ToInt32_small (x : Z) : - 2 ^ 31 ≤ x < 2 ^ 31 → ToInt32 x = x.
Proof. unfold ToInt32. intros Hx. rewrite Z.mod_small; lia. Qed.

Lemma ToInt32_parity (x : Z) : ToInt32 x mod 2 = x mod 2.
Proof. unfold ToInt32. dlia. Qed.

Lemma land_1 (x : Z) : Z.land x 1 = x mod 2.
Proof. change 1 with (Z.ones 1). rewrite Z.land_ones by lia. reflexivity. Qed.

Lemma land_low (x n : Z) : 0 ≤ n → Z.land x (2 ^ n - 1) = x mod 2 ^ n.
Proof.
  intros Hn. replace (2 ^ n - 1) with (Z.ones n) by (rewrite Z.ones_equiv; lia).
  apply Z.land_ones, Hn.
Qed.

Lemma readBit_7 (x : Z) : readBit x 7 = x mod 2.
Proof.
  unfold readBit, js_and, js_shr. change ((7 - 7) mod 32) with 0.
  rewrite Z.shiftr_0_r. change (ToInt32 1) with 1.
  rewrite land_1, !ToInt32_parity. reflexivity.
Qed.

Lemma parity_cases (x : Z) : x mod 2 = 0 ∨ x mod 2 = 1.
Proof. dlia. Qed.

Lemma js_shr_small (a n : Z) :
  0 ≤ a < 2 ^ 31 → 0 ≤ n < 32 → js_shr a n = a / 2 ^ n.
Proof.
  intros Ha Hn. unfold js_shr.
  rewrite ToInt32_small, Z.mod_small, Z.shiftr_div_pow2 by lia. reflexivity.
Qed.

Lemma js_shl_small (a n : Z) :
  0 ≤ a → 0 ≤ n < 32 → a * 2 ^ n < 2 ^ 31 → js_shl a n = a * 2 ^ n.
Proof.
  intros Ha Hn Hlt. unfold js_shl.
  assert (a < 2 ^ 31) by (pose proof (Z.pow_pos_nonneg 2 n); nia).
  rewrite (ToInt32_small a), Z.mod_small, Z.shiftl_mul_pow2 by lia.
  apply ToInt32_small. pose proof (Z.pow_pos_nonneg 2 n). nia.
Qed.

Lemma js_or_small (a b : Z) :
  0 ≤ a < 2 ^ 31 → 0 ≤ b < 2 ^ 31 → js_or a b = Z.lor a b.
Proof. intros Ha Hb. unfold js_or. rewrite !ToInt32_small by lia. reflexivity. Qed.

Lemma js_and_small (a b : Z) :
  0 ≤ a < 2 ^ 31 → 0 ≤ b < 2 ^ 31 → js_and a b = Z.land a b.
Proof. intros Ha Hb. unfold js_and. rewrite !ToInt32_small by lia. reflexivity. Qed.

Lemma lor_disjoint (a v n : Z) :
  0 ≤ n → 0 ≤ v < 2 ^ n → Z.lor (a * 2 ^ n) v = a * 2 ^ n + v.
Proof.
  intros Hn Hv. symmetry. apply Z.add_nocarry_lor.
  rewrite <- (Z.mod_small v (2 ^ n)) by lia.
  rewrite <- Z.land_ones by lia.
  rewrite Z.land_assoc, (Z.land_comm (a * 2 ^ n)), <- Z.land_assoc.
  rewrite (Z.land_ones (a * 2 ^ n)) by lia.
  rewrite Z.mod_mul by lia. apply Z.land_0_r.
Qed.

Lemma pow2_le_256 (b : Z) : 1 ≤ b ≤ 8 → 2 ≤ 2 ^ b ≤ 256.
Proof.
  intros Hb. split.
  - change 2 with (2 ^ 1) at 1. apply Z.pow_le_mono_r; lia.
  - change 256 with (2 ^ 8). apply Z.pow_le_mono_r; lia.
Qed.

Lemma readBit_testbit (byte pos : Z) :
  is_u8 byte → 0 ≤ pos ≤ 7 → readBit byte pos = Z.b2z (Z.testbit byte (7 - pos)).
Proof.
  unfold is_u8. intros Hb Hp. unfold readBit.
  rewrite js_shr_small by lia.
  assert (0 ≤ byte / 2 ^ (7 - pos) ≤ byte).
  { split; [apply Z.div_pos; lia|]. apply Z.div_le_upper_bound; [lia|].
    pose proof (Z.pow_pos_nonneg 2 (7 - pos)). nia. }
  rewrite js_and_small, land_1 by lia.
  symmetry. apply Z.testbit_spec'. lia.
Qed.

(** What [writeChannel] stores in a channel that held [curr]. *)
Lemma store_merge (k : ArrayKind) (curr v b : Z) :
  is_u8 curr → 1 ≤ b ≤ 8 → 0 ≤ v < 2 ^ b →
  store k (js_or (clearBits curr b) v) = curr / 2 ^ b * 2 ^ b + v
  ∧ is_u8 (curr / 2 ^ b * 2 ^ b + v)
  ∧ (curr / 2 ^ b * 2 ^ b + v) mod 2 ^ b = v.
Proof.
  unfold is_u8. intros Hc Hb Hv. pose proof (pow2_le_256 b Hb) as Hp.
  assert (Hq : 0 ≤ curr / 2 ^ b * 2 ^ b ≤ 256 - 2 ^ b).
  { assert (b = 1 ∨ b = 2 ∨ b = 3 ∨ b = 4 ∨ b = 5 ∨ b = 6 ∨ b = 7 ∨ b = 8) as Hcase by lia.
    destruct Hcase as [-> | [-> | [-> | [-> | [-> | [-> | [-> | ->]]]]]]]; dlia. }
  assert (Hclear : clearBits curr b = curr / 2 ^ b * 2 ^ b).
  { unfold clearBits. rewrite js_shr_small by lia.
    assert (0 ≤ curr / 2 ^ b) by (apply Z.div_pos; lia).
    apply js_shl_small; lia. }
  rewrite Hclear, js_or_small, lor_disjoint by lia.
  split; [|split; [lia|]].
  - destruct k; simpl; [apply Z.mod_small|]; lia.
  - rewrite Z.add_comm, Z.mod_add by lia. apply Z.mod_small; lia.
Qed.

Lemma store_256_u8 (k : ArrayKind) : is_u8 (store k 256).
Proof. destruct k; unfold is_u8; simpl; lia. Qed.

(** *** [clearBits] and [readBit] *)

Lemma js_shr_int32 (a n : Z) :
  - 2 ^ 31 ≤ a < 2 ^ 31 → 0 ≤ n < 32 → js_shr a n = a / 2 ^ n.
Proof.
  intros Ha Hn. unfold js_shr.
  rewrite ToInt32_small, Z.mod_small, Z.shiftr_div_pow2 by lia. reflexivity.
Qed.

Lemma int32_floor (a n : Z) :
  - 2 ^ 31 ≤ a < 2 ^ 31 → 0 ≤ n < 32 →
  - 2 ^ 31 ≤ a / 2 ^ n * 2 ^ n < 2 ^ 31 ∧ - 2 ^ 31 ≤ a / 2 ^ n < 2 ^ 31.
Proof.
  intros Ha Hn.
  assert (Hp : 0 < 2 ^ n) by (apply Z.pow_pos_nonneg; lia).
  assert (Hsplit : 2 ^ 31 = 2 ^ (31 - n) * 2 ^ n)
    by (rewrite <- Z.pow_add_r by lia; f_equal; lia).
  assert (Hq : 0 < 2 ^ (31 - n)) by (apply Z.pow_pos_nonneg; lia).
  assert (Hlow : - 2 ^ (31 - n) ≤ a / 2 ^ n).
  { apply Z.div_le_lower_bound; [exact Hp|]. nia. }
  pose proof (Z.mul_div_le a (2 ^ n) Hp) as Hle.
  split; [nia|]. split; [nia|].
  assert (a / 2 ^ n ≤ a ∨ a < 0) as [Hc|Hc].
  { destruct (Z.le_gt_cases 0 a) as [H0|H0]; [left|right; exact H0].
    apply Z.div_le_upper_bound; [exact Hp|]. nia. }
  - lia.
  - assert (a / 2 ^ n < 0) by (apply Z.div_lt_upper_bound; lia). lia.
Qed.

(** X1.  [clearBits(n, bits)] clears the [bits] low bits of an int32 [n]
    and keeps the others, for every shift count from 0 to 31: the result
    is [n - n mod 2^bits].  A shift count is taken modulo 32, so a count of
    32 clears nothing. *)
Theorem clearBits_spec (n bits : Z) :
  - 2 ^ 31 ≤ n < 2 ^ 31 → 0 ≤ bits < 32 →
  clearBits n bits = n - n mod 2 ^ bits
  ∧ clearBits n bits mod 2 ^ bits = 0
  ∧ clearBits n bits / 2 ^ bits = n / 2 ^ bits
  ∧ clearBits n (bits + 32) = clearBits n bits.
Proof.
  intros Hn Hb.
  assert (Hp : 0 < 2 ^ bits) by (apply Z.pow_pos_nonneg; lia).
  destruct (int32_floor n bits Hn Hb) as [Hm Hq].
  assert (Hc : clearBits n bits = n / 2 ^ bits * 2 ^ bits).
  { unfold clearBits. rewrite js_shr_int32 by lia. unfold js_shl.
    rewrite (ToInt32_small (n / 2 ^ bits)), Z.mod_small, Z.shiftl_mul_pow2 by lia.
    apply ToInt32_small. lia. }
  split; [rewrite Hc; pose proof (Z.div_mod n (2 ^ bits)); lia|].
  split; [rewrite Hc; apply Z.mod_mul; lia|].
  split; [rewrite Hc; apply Z.div_mul; lia|].
  unfold clearBits, js_shr, js_shl.
  replace ((bits + 32) mod 32) with (bits mod 32); [reflexivity|].
  rewrite <- (Z.mod_add bits 1 32) by lia. reflexivity.
Qed.

Lemma readBit_bit (byte pos : Z) : readBit byte pos = 0 ∨ readBit byte pos = 1.
Proof.
  unfold readBit, js_and. change (ToInt32 1) with 1. rewrite land_1. apply parity_cases.
Qed.

(** X2.  [readBit(byte, pos)] numbers the bits of a byte from the most
    significant one: position [pos] is the bit of weight [2^(7-pos)], and
    the eight bits read at positions 0 to 7, pushed into an accumulator
    the way the payload loop does, spell the byte. *)
Theorem readBit_msb_first (byte : Z) :
  is_u8 byte →
  (∀ pos, 0 ≤ pos ≤ 7 → readBit byte pos = (byte / 2 ^ (7 - pos)) mod 2)
  ∧ foldl (λ acc pos, 2 * acc + readBit byte pos) 0 (seqZ 0 8) = byte.
Proof.
  intros Hb.
  assert (Hbit : ∀ pos, 0 ≤ pos ≤ 7 → readBit byte pos = (byte / 2 ^ (7 - pos)) mod 2).
  { intros pos Hp. rewrite (readBit_testbit byte pos Hb Hp).
    apply Z.testbit_spec'. lia. }
  split; [exact Hbit|].
  change (seqZ 0 8) with [0; 1; 2; 3; 4; 5; 6; 7]. cbn [foldl].
  rewrite !Hbit by lia. unfold is_u8 in Hb.
  change (7 - 0) with 7. change (7 - 1) with 6. change (7 - 2) with 5.
  change (7 - 3) with 4. change (7 - 4) with 3. change (7 - 5) with 2.
  change (7 - 6) with 1. change (7 - 7) with 0.
  dlia.
Qed.

(** ** CapacityModel *)

Lemma validateBits_ok (b : Z) : 1 ≤ b ≤ 8 → validateBits b = Ok tt.
Proof.
  intros Hb. unfold validateBits.
  replace (Z.abs b <=? 2 ^ 53 - 1) with true by (symmetry; apply Z.leb_le; lia).
  replace (1 <=? b) with true by (symmetry; apply Z.leb_le; lia).
  replace (b <=? 8) with true by (symmetry; apply Z.leb_le; lia).
  reflexivity.
Qed.

(** The bytes of a capacity, for every buffer length: [floor] of a
    rational with denominator 32. *)
Lemma calcCapacity_bytes (ch : list Z) (b : Z) :
  1 ≤ b ≤ 8 →
  ∃ cap, calcCapacity ch b = Ok cap
         ∧ bytes cap = ((Z.of_nat (length ch) - 4) * 3 * b) / 32.
Proof.
  intros Hb. unfold calcCapacity. rewrite (validateBits_ok b Hb). simpl.
  eexists. split; [reflexivity|]. simpl.
  unfold Qfloor, Qdiv, Qmult, Qinv, inject_Z. simpl. f_equal; lia.
Qed.

(** The capacity of a buffer of [p + 1] pixels. *)
Lemma calcCapacity_pixels (ch : list Z) (b : Z) (p : nat) :
  length ch = (4 * S p)%nat → 1 ≤ b ≤ 8 →
  ∃ cap, calcCapacity ch b = Ok cap
         ∧ bytes cap = (Z.of_nat (3 * p) * b) / 8
         ∧ 0 ≤ bytes cap.
Proof.
  intros Hlen Hb. destruct (calcCapacity_bytes ch b Hb) as (cap & Hc & Hbytes).
  exists cap. split; [exact Hc|]. rewrite Hbytes, Hlen.
  replace ((Z.of_nat (4 * S p) - 4) * 3 * b) with ((Z.of_nat (3 * p) * b) * 4) by nia.
  change 32 with (8 * 4). rewrite Z.div_mul_cancel_r by lia.
  split; [reflexivity|]. apply Z.div_pos; nia.
Qed.

(** A multiple of 4 that holds a payload is the length of a buffer of at
    least one pixel. *)
Lemma pixels_of_length (ch : list Z) (b : Z) (cap : Capacity) :
  Z.of_nat (length ch) mod 4 = 0 → 1 ≤ b ≤ 8 →
  calcCapacity ch b = Ok cap → 0 ≤ bytes cap →
  ∃ p : nat, length ch = (4 * S p)%nat ∧ bytes cap = Z.of_nat (3 * p) * b / 8.
Proof.
  intros Hmod Hb Hcap Hpos.
  destruct (calcCapacity_bytes ch b Hb) as (cap' & Hcap' & Hbytes).
  rewrite Hcap in Hcap'. injection Hcap' as <-.
  assert (Hge : 4 ≤ Z.of_nat (length ch)).
  { destruct (Z.le_gt_cases 4 (Z.of_nat (length ch))) as [|Hlt]; [assumption|].
    assert (Z.of_nat (length ch) = 0) by dlia.
    rewrite Hbytes, H in Hpos. exfalso.
    assert (b = 1 ∨ b = 2 ∨ b = 3 ∨ b = 4 ∨ b = 5 ∨ b = 6 ∨ b = 7 ∨ b = 8) as Hcase by lia.
    destruct Hcase as [-> | [-> | [-> | [-> | [-> | [-> | [-> | ->]]]]]]]; vm_compute in Hpos;
      congruence. }
  exists (length ch / 4 - 1)%nat.
  assert (Hl : length ch = (4 * S (length ch / 4 - 1))%nat) by dlia.
  split; [exact Hl|].
  destruct (calcCapacity_pixels ch b _ Hl Hb) as (cap' & Hcap' & Hbytes' & _).
  rewrite Hcap in Hcap'. injection Hcap' as <-. exact Hbytes'.
Qed.

(** C2.  For a buffer of [L] channels, [L] a multiple of 4, and
    [bitsTaken] from 1 to 8, [calcCapacity] returns
    [bits = ((L-4)/4)*3*bitsTaken] and [bytes = floor(bits/8)]; 16 channels
    give [{bits: 9, bytes: 1}] at one bit and [{bits: 72, bytes: 9}] at
    eight. *)
Theorem calcCapacity_spec (ch : list Z) (b : Z) :
  Z.of_nat (length ch) mod 4 = 0 → 1 ≤ b ≤ 8 →
  let L := Z.of_nat (length ch) in
  (∃ cap, calcCapacity ch b = Ok cap
          ∧ (bits cap == inject_Z ((L - 4) / 4 * 3 * b))%Q
          ∧ bytes cap = Qfloor (bits cap / 8)
          ∧ bytes cap = ((L - 4) / 4 * 3 * b) / 8)
  ∧ (L = 16 → b = 1 →
     ∃ cap, calcCapacity ch b = Ok cap ∧ (bits cap == 9)%Q ∧ bytes cap = 1)
  ∧ (L = 16 → b = 8 →
     ∃ cap, calcCapacity ch b = Ok cap ∧ (bits cap == 72)%Q ∧ bytes cap = 9).
Proof.
  intros HL Hb L.
  assert (Hgen : ∃ cap, calcCapacity ch b = Ok cap
          ∧ (bits cap == inject_Z ((L - 4) / 4 * 3 * b))%Q
          ∧ bytes cap = Qfloor (bits cap / 8)
          ∧ bytes cap = ((L - 4) / 4 * 3 * b) / 8).
  { unfold calcCapacity. rewrite (validateBits_ok b Hb). simpl.
    eexists. split; [reflexivity|]. simpl. fold L.
    assert (HL4 : L - 4 = 4 * ((L - 4) / 4)) by (subst L; dlia).
    split; [|split; [reflexivity|]].
    - unfold Qeq, Qdiv, Qmult, Qinv, inject_Z. simpl. lia.
    - unfold Qfloor, Qdiv, Qmult, Qinv, inject_Z. simpl.
      change (Z.pos (1 * 4 * 1 * 1 * 8)) with (8 * 4).
      replace ((L - 4) * 1 * 3 * b * 1) with (((L - 4) / 4 * 3 * b) * 4) by lia.
      rewrite Z.div_mul_cancel_r by lia. reflexivity. }
  split; [exact Hgen|].
  destruct Hgen as (cap & Hc & Hbits & _ & Hbytes).
  split; intros HL16 ->; exists cap; rewrite Hbits, Hbytes, HL16; done.
Qed.

(** *** Every buffer length *)

Lemma validateBits_err (b : Z) : ¬ 1 ≤ b ≤ 8 → validateBits b = Err BitsOutOfRange.
Proof.
  intros Hb. unfold validateBits.
  destruct (Z.leb_spec 1 b), (Z.leb_spec b 8); try lia;
    rewrite ?andb_false_r; reflexivity.
Qed.

Lemma calcCapacity_bits (ch : list Z) (b : Z) (cap : Capacity) :
  calcCapacity ch b = Ok cap → 1 ≤ b ≤ 8.
Proof.
  intros Hc. destruct (decide (1 ≤ b ≤ 8)) as [|Hn]; [assumption|].
  unfold calcCapacity in Hc. rewrite (validateBits_err b Hn) in Hc. discriminate.
Qed.

Lemma calcCapacity_error (ch : list Z) (b : Z) (e : error) :
  calcCapacity ch b = Err e → e = BitsOutOfRange.
Proof.
  unfold calcCapacity, validateBits. destruct (negb _); simpl; congruence.
Qed.

(** *** Numbers that are not integers *)

Lemma Qred_inject_Z (z : Z) : Qred (inject_Z z) = inject_Z z.
Proof.
  unfold Qred, inject_Z.
  pose proof (Z.ggcd_gcd z 1) as Hg. pose proof (Z.ggcd_correct_divisors z 1) as Hd.
  destruct (Z.ggcd z 1) as [g [a b]]. cbn [fst snd] in *.
  rewrite Z.gcd_1_r in Hg. subst g. destruct Hd as [Ha Hb].
  rewrite Z.mul_1_l in Ha, Hb. subst a b. reflexivity.
Qed.

Lemma validateBits_number_Z (z : Z) :
  validateBits_number (Finite (inject_Z z)) = validateBits z.
Proof.
  unfold validateBits_number, validateBits, isSafeInteger, number_ge, number_le.
  rewrite Qred_inject_Z. unfold Qle_bool, inject_Z. cbn [Qnum Qden].
  rewrite !Z.mul_1_r. reflexivity.
Qed.

Lemma calcCapacity_number_Z (ch : list Z) (z : Z) :
  calcCapacity_number ch (Finite (inject_Z z)) = calcCapacity ch z.
Proof.
  unfold calcCapacity_number, calcCapacity. rewrite validateBits_number_Z. reflexivity.
Qed.

Lemma validateBits_number_integer (b : number) :
  validateBits_number b = Ok tt → ∃ z, 1 ≤ z ≤ 8 ∧ number_is b z.
Proof.
  unfold validateBits_number.
  destruct (isSafeInteger b && number_ge b 1 && number_le b 8) eqn:Hv; [|discriminate].
  intros _. apply andb_prop in Hv as [Hv Hle]. apply andb_prop in Hv as [Hint Hge].
  destruct b as [q| |neg]; cbn [isSafeInteger] in Hint; try discriminate.
  apply andb_prop in Hint as [Hden _]. apply Z.eqb_eq in Hden.
  assert (Hq : (q == inject_Z (Qnum (Qred q)))%Q).
  { rewrite <- (Qred_correct q) at 1. destruct (Qred q) as [n d]. cbn in *.
    injection Hden as ->. reflexivity. }
  exists (Qnum (Qred q)). split; [|exact Hq].
  cbn [number_ge number_le] in Hge, Hle. apply Qle_bool_iff in Hge, Hle.
  rewrite Hq in Hge, Hle. rewrite <- Zle_Qle in Hge, Hle. lia.
Qed.

Lemma validateBits_number_ok (b : number) (z : Z) :
  number_is b z → 1 ≤ z ≤ 8 → validateBits_number b = Ok tt.
Proof.
  destruct b as [q| |neg]; cbn [number_is]; [|contradiction..].
  intros Hq Hz. unfold validateBits_number, isSafeInteger, number_ge, number_le.
  rewrite (Qred_complete _ _ Hq), Qred_inject_Z. cbn [Qnum Qden inject_Z].
  replace (Qle_bool (inject_Z 1) q) with true
    by (symmetry; apply Qle_bool_iff; rewrite Hq, <- Zle_Qle; lia).
  replace (Qle_bool q (inject_Z 8)) with true
    by (symmetry; apply Qle_bool_iff; rewrite Hq, <- Zle_Qle; lia).
  replace (Z.abs z <=? 2 ^ 53 - 1) with true by (symmetry; apply Z.leb_le; lia).
  reflexivity.
Qed.

(** X3.  [calcCapacity] throws exactly when [bitsTaken] is not an integer
    from 1 to 8, whatever the buffer: a fraction inside the range, [NaN]
    and the infinities are refused like an integer outside it.
    Otherwise, for every buffer length [L] (a multiple of 4 or not),
    [bytes] is the floor of [(L - 4) * 3 * bitsTaken / 32]; it is negative
    exactly when the buffer has fewer than 4 channels. *)
Theorem calcCapacity_any_length (ch : list Z) (b : number) :
  let L := Z.of_nat (length ch) in
  (calcCapacity_number ch b = Err BitsOutOfRange ↔ ¬ ∃ z, 1 ≤ z ≤ 8 ∧ number_is b z)
  ∧ (∀ z, 1 ≤ z ≤ 8 → number_is b z →
       ∃ cap, calcCapacity_number ch b = Ok cap
              ∧ bytes cap = ((L - 4) * 3 * z) / 32
              ∧ (bytes cap < 0 ↔ L < 4)
              ∧ (bits cap == ((L - 4) * 3 * z) # 4)%Q)
  ∧ (∀ z, calcCapacity_number ch (Finite (inject_Z z)) = calcCapacity ch z)
  ∧ (∀ z, calcCapacity ch z = Err BitsOutOfRange ↔ ¬ 1 ≤ z ≤ 8).
Proof.
  intros L.
  assert (Hok : ∀ z, 1 ≤ z ≤ 8 → number_is b z →
       ∃ cap, calcCapacity_number ch b = Ok cap
              ∧ bytes cap = ((L - 4) * 3 * z) / 32
              ∧ (bytes cap < 0 ↔ L < 4)
              ∧ (bits cap == ((L - 4) * 3 * z) # 4)%Q).
  { intros z Hz Hb. unfold calcCapacity_number.
    rewrite (validateBits_number_ok b z Hb Hz). cbn [mbind result_bind].
    destruct b as [q| |neg]; cbn [number_is] in Hb; [|contradiction..].
    eexists. split; [reflexivity|]. cbn [bytes bits]. fold L.
    assert (Hfl : Qfloor (inject_Z (L - 4) / inject_Z 4 * inject_Z 3 * q / 8)
                  = (L - 4) * 3 * z / 32).
    { transitivity (Qfloor (inject_Z (L - 4) / inject_Z 4 * inject_Z 3 * inject_Z z / 8)).
      - apply Qfloor_comp. rewrite Hb. reflexivity.
      - unfold Qfloor, Qdiv, Qmult, Qinv, inject_Z. simpl. f_equal; lia. }
    split; [exact Hfl|]. split.
    - rewrite Hfl. split; intros Hl.
      + destruct (Z.lt_ge_cases L 4) as [|Hge]; [assumption|].
        assert (0 ≤ (L - 4) * 3 * z / 32) by (apply Z.div_pos; nia). lia.
      + apply Z.div_lt_upper_bound; nia.
    - rewrite Hb. unfold Qeq, Qdiv, Qmult, Qinv, inject_Z. simpl. lia. }
  split; [|split; [exact Hok|split]].
  - split.
    + intros He (z & Hz & Hb). destruct (Hok z Hz Hb) as (cap & Hc & _). congruence.
    + intros Hn. unfold calcCapacity_number.
      destruct (validateBits_number b) as [[]|e] eqn:Hv.
      * exfalso. apply Hn. exact (validateBits_number_integer b Hv).
      * unfold validateBits_number in Hv. destruct (negb _); [|discriminate].
        injection Hv as <-. reflexivity.
  - intros z. apply calcCapacity_number_Z.
  - intros z. split.
    + intros He Hz. destruct (calcCapacity_bytes ch z Hz) as (cap & Hc & _). congruence.
    + intros Hz. unfold calcCapacity. rewrite (validateBits_err z Hz). reflexivity.
Qed.

(** [calcCapacity(2.5)] and [calcCapacity(NaN)] throw. *)
Lemma calcCapacity_number_fraction (ch : list Z) :
  calcCapacity_number ch (Finite (5 # 2)) = Err BitsOutOfRange
  ∧ calcCapacity_number ch NaN = Err BitsOutOfRange
  ∧ calcCapacity_number ch (Infinity false) = Err BitsOutOfRange.
Proof. repeat split. Qed.

(** X4.  The capacity in bytes grows with the buffer and, on a buffer of
    at least one pixel, with [bitsTaken]: the capacity at 1 bit is the
    least and the capacity at 8 bits the greatest. *)
Theorem calcCapacity_monotone (ch1 ch2 : list Z) (b1 b2 : Z) (cap1 cap2 : Capacity) :
  (4 ≤ length ch1 ≤ length ch2)%nat → b1 ≤ b2 →
  calcCapacity ch1 b1 = Ok cap1 → calcCapacity ch2 b2 = Ok cap2 →
  0 ≤ bytes cap1 ≤ bytes cap2.
Proof.
  intros Hl Hb H1 H2.
  pose proof (calcCapacity_bits _ _ _ H1) as Hb1.
  pose proof (calcCapacity_bits _ _ _ H2) as Hb2.
  destruct (calcCapacity_bytes ch1 b1 Hb1) as (c1 & Hc1 & Hbytes1).
  destruct (calcCapacity_bytes ch2 b2 Hb2) as (c2 & Hc2 & Hbytes2).
  assert (c1 = cap1) as -> by congruence. assert (c2 = cap2) as -> by congruence.
  rewrite Hbytes1, Hbytes2. split.
  - apply Z.div_pos; nia.
  - apply Z.div_le_mono; [lia|]. nia.
Qed.

(** ** The header *)

Lemma revealBitsTaken_value (ch : list Z) :
  revealBitsTaken ch =
  Ok (1 + 4 * (num_of (ch !! 0%nat) mod 2) + 2 * (num_of (ch !! 1%nat) mod 2)
        + num_of (ch !! 2%nat) mod 2).
Proof.
  unfold revealBitsTaken. rewrite !readBit_7.
  destruct (parity_cases (num_of (ch !! 0%nat))) as [-> | ->];
    destruct (parity_cases (num_of (ch !! 1%nat))) as [-> | ->];
    destruct (parity_cases (num_of (ch !! 2%nat))) as [-> | ->];
    reflexivity.
Qed.

Lemma revealBitsTaken_insert (ch : list Z) (i : nat) (v : Z) :
  (3 ≤ i)%nat → revealBitsTaken (<[i := v]> ch) = revealBitsTaken ch.
Proof.
  intros Hi. unfold revealBitsTaken. rewrite !list_lookup_insert_ne by lia. reflexivity.
Qed.

Lemma revealBitsTaken_ext (ch ch' : list Z) :
  (∀ j, (j < 3)%nat → ch' !! j = ch !! j) → revealBitsTaken ch' = revealBitsTaken ch.
Proof.
  intros Hext. unfold revealBitsTaken. rewrite !Hext by lia. reflexivity.
Qed.

Lemma revealBitsTaken_range (ch : list Z) (b : Z) : revealBitsTaken ch = Ok b → 1 ≤ b ≤ 8.
Proof.
  rewrite revealBitsTaken_value. intros [= <-].
  pose proof (parity_cases (num_of (ch !! 0%nat))).
  pose proof (parity_cases (num_of (ch !! 1%nat))).
  pose proof (parity_cases (num_of (ch !! 2%nat))). lia.
Qed.

(** C10.  On every channel buffer, produced by this codec or not,
    [revealBitsTaken] returns a value from 1 to 8 and never throws: the
    value is 1 plus the 3-bit number whose bits are the low bits of
    channels 0, 1 and 2, so its [validateBits] cannot fail. *)
Theorem revealBitsTaken_total (ch : list Z) :
  ∃ v, revealBitsTaken ch = Ok v
       ∧ 1 ≤ v ≤ 8
       ∧ v = 1 + (4 * (num_of (ch !! 0%nat) mod 2)
                  + 2 * (num_of (ch !! 1%nat) mod 2)
                  + num_of (ch !! 2%nat) mod 2)
       ∧ 0 ≤ v - 1 < 2 ^ 3
       ∧ validateBits v = Ok tt.
Proof.
  eexists. split; [apply revealBitsTaken_value|].
  pose proof (parity_cases (num_of (ch !! 0%nat))).
  pose proof (parity_cases (num_of (ch !! 1%nat))).
  pose proof (parity_cases (num_of (ch !! 2%nat))).
  assert (Hr : 1 ≤ 1 + 4 * (num_of (ch !! 0%nat) mod 2)
                   + 2 * (num_of (ch !! 1%nat) mod 2)
                   + num_of (ch !! 2%nat) mod 2 ≤ 8) by lia.
  split; [exact Hr|]. split; [lia|]. split; [lia|].
  apply validateBits_ok, Hr.
Qed.

(** C8.  [revealBitsTaken] depends on channels 0, 1 and 2 only: two
    buffers that agree there give the same result, and a store to a
    channel of index 3 or more does not change it. *)
Theorem revealBitsTaken_header_only (ch1 ch2 : list Z) :
  ch1 !! 0%nat = ch2 !! 0%nat →
  ch1 !! 1%nat = ch2 !! 1%nat →
  ch1 !! 2%nat = ch2 !! 2%nat →
  revealBitsTaken ch1 = revealBitsTaken ch2
  ∧ ∀ (i : nat) (v : Z), (3 ≤ i)%nat →
      revealBitsTaken (<[i := v]> ch1) = revealBitsTaken ch1.
Proof.
  intros H0 H1 H2. split.
  - unfold revealBitsTaken. rewrite H0, H1, H2. reflexivity.
  - intros i v Hi. unfold revealBitsTaken.
    rewrite !list_lookup_insert_ne by lia. reflexivity.
Qed.

(** ** The text codec *)

Lemma scalars_of_units_nonempty (s : list Z) : s ≠ [] → scalars_of_units s ≠ [].
Proof.
  destruct s as [|c s]; [congruence|]. intros _. simpl.
  destruct (is_lead c); [destruct s as [|d s]; [|destruct (is_trail d)]|destruct (is_trail c)];
    discriminate.
Qed.

Lemma utf8_encode_scalar_nonempty (cp : Z) : utf8_encode_scalar cp ≠ [].
Proof.
  unfold utf8_encode_scalar.
  destruct (cp <? 0x80); [|destruct (cp <? 0x800); [|destruct (cp <? 0x10000)]];
    discriminate.
Qed.

Lemma utf8ToBytes_nonempty (s : list Z) : s ≠ [] → utf8ToBytes s ≠ [].
Proof.
  intros Hs. unfold utf8ToBytes.
  pose proof (scalars_of_units_nonempty s Hs) as Hne.
  destruct (scalars_of_units s) as [|cp cps]; [congruence|]. simpl.
  pose proof (utf8_encode_scalar_nonempty cp).
  destruct (utf8_encode_scalar cp); [congruence|discriminate].
Qed.

Lemma utf8ToBytes_ascii (s : list Z) : Forall is_ascii s → utf8ToBytes s = s.
Proof.
  unfold utf8ToBytes. induction 1 as [|c s Hc _ IH]; [reflexivity|].
  unfold is_ascii in Hc. simpl.
  replace (is_lead c) with false
    by (symmetry; unfold is_lead; apply andb_false_iff; left; apply Z.leb_gt; lia).
  replace (is_trail c) with false
    by (symmetry; unfold is_trail; apply andb_false_iff; left; apply Z.leb_gt; lia).
  simpl. unfold utf8_encode_scalar at 1.
  replace (c <? 128) with true by (symmetry; apply Z.ltb_lt; lia).
  simpl. rewrite IH. reflexivity.
Qed.

Lemma scalars_of_units_range (n : nat) :
  ∀ s, (length s ≤ n)%nat → Forall is_u16 s →
       Forall (λ cp, 0 ≤ cp < 0x110000) (scalars_of_units s).
Proof.
  induction n as [|n IH]; intros s Hn Hs.
  - destruct s; [constructor|simpl in Hn; lia].
  - destruct Hs as [|c s Hc Hs]; [constructor|]. simpl in Hn. unfold is_u16 in Hc.
    cbn [scalars_of_units]. destruct (is_lead c) eqn:Hlead.
    + destruct Hs as [|d s Hd Hs]; [repeat constructor; lia|].
      unfold is_lead in Hlead. apply andb_true_iff in Hlead as [H1 H2].
      apply Z.leb_le in H1, H2. destruct (is_trail d) eqn:Htrail.
      * unfold is_trail in Htrail. apply andb_true_iff in Htrail as [H3 H4].
        apply Z.leb_le in H3, H4. constructor; [lia|].
        apply IH; [simpl in Hn; lia|exact Hs].
      * constructor; [lia|]. apply IH; [lia|]. constructor; assumption.
    + destruct (is_trail c); (constructor; [lia|]); apply IH; auto; lia.
Qed.

Lemma lor_continuation (x : Z) : Z.lor 0x80 (Z.land x 0x3F) = 128 + x mod 64.
Proof.
  change 0x3F with (Z.ones 6). rewrite Z.land_ones by lia.
  change 0x80 with (2 * 2 ^ 6). apply lor_disjoint; [lia|]. apply Z.mod_pos_bound. lia.
Qed.

Lemma utf8_encode_scalar_u8 (cp : Z) :
  0 ≤ cp < 0x110000 → Forall is_u8 (utf8_encode_scalar cp).
Proof.
  intros Hcp. unfold utf8_encode_scalar, is_u8.
  destruct (cp <? 0x80) eqn:H1; [apply Z.ltb_lt in H1; repeat constructor; lia|].
  destruct (cp <? 0x800) eqn:H2; [apply Z.ltb_lt in H2|].
  { rewrite !lor_continuation, !Z.shiftr_div_pow2 by lia. repeat constructor; dlia. }
  destruct (cp <? 0x10000) eqn:H3; [apply Z.ltb_lt in H3|];
    rewrite !lor_continuation, !Z.shiftr_div_pow2 by lia; repeat constructor; dlia.
Qed.

Lemma utf8ToBytes_u8 (s : list Z) : Forall is_u16 s → Forall is_u8 (utf8ToBytes s).
Proof.
  intros Hs. unfold utf8ToBytes.
  pose proof (scalars_of_units_range (length s) s (Nat.le_refl _) Hs) as Hcp.
  induction Hcp as [|cp cps Hc _ IH]; [constructor|].
  simpl. apply Forall_app. split; [apply utf8_encode_scalar_u8, Hc|exact IH].
Qed.

Lemma utf16_roundtrip (n : nat) :
  ∀ s, (length s ≤ n)%nat → Forall is_u16 s → well_formed s = true →
       Forall is_scalar (scalars_of_units s)
       ∧ concat (map units_of_scalar (scalars_of_units s)) = s.
Proof.
  induction n as [|n IH]; intros s Hn Hs Hwf.
  - destruct s; [split; [constructor|reflexivity]|simpl in Hn; lia].
  - destruct Hs as [|c s Hc Hs]; [split; [constructor|reflexivity]|].
    simpl in Hn. unfold is_u16 in Hc. cbn [scalars_of_units well_formed] in *.
    destruct (is_lead c) eqn:Hlead.
    + destruct Hs as [|d s Hd Hs]; [discriminate|]. unfold is_u16 in Hd.
      apply andb_true_iff in Hwf as [Htrail Hwf]. rewrite Htrail.
      unfold is_lead in Hlead. apply andb_true_iff in Hlead as [H1 H2].
      unfold is_trail in Htrail. apply andb_true_iff in Htrail as [H3 H4].
      apply Z.leb_le in H1, H2, H3, H4.
      destruct (IH s ltac:(simpl in Hn; lia) Hs Hwf) as [Hsc Hback].
      split; [constructor; [unfold is_scalar; lia|exact Hsc]|].
      cbn [map concat]. rewrite Hback. unfold units_of_scalar.
      replace (_ <? 65536) with false by (symmetry; apply Z.ltb_ge; lia).
      change 0x3FF with (2 ^ 10 - 1). rewrite land_low, Z.shiftr_div_pow2 by lia.
      cbn [app]. f_equal; [dlia|]. f_equal. dlia.
    + apply andb_true_iff in Hwf as [Htrail Hwf]. apply negb_true_iff in Htrail.
      rewrite Htrail.
      destruct (IH s ltac:(lia) Hs Hwf) as [Hsc Hback].
      unfold is_lead in Hlead. unfold is_trail in Htrail.
      assert (Hcs : is_scalar c).
      { unfold is_scalar.
        destruct (Z.leb_spec 0xD800 c), (Z.leb_spec c 0xDBFF),
                 (Z.leb_spec 0xDC00 c), (Z.leb_spec c 0xDFFF);
          simpl in Hlead, Htrail; try discriminate; lia. }
      split; [constructor; assumption|].
      cbn [map concat]. rewrite Hback. unfold units_of_scalar.
      destruct Hcs as [Hcs|Hcs];
        (replace (c <? 65536) with true by (symmetry; apply Z.ltb_lt; lia)); reflexivity.
Qed.

Lemma leb_true (a b : Z) : a ≤ b → (a <=? b) = true.
Proof. apply Z.leb_le. Qed.

Lemma leb_false (a b : Z) : b < a → (a <=? b) = false.
Proof. apply Z.leb_gt. Qed.

Lemma decode_ascii (b : Z) (rest : list Z) :
  0 ≤ b ≤ 0x7F →
  utf8_decode utf8_initial (b :: rest) = b :: utf8_decode utf8_initial rest.
Proof.
  intros Hb. cbn [utf8_decode]. unfold utf8_handler. cbn [bytes_needed utf8_initial Z.eqb].
  unfold utf8_lead. rewrite !leb_true by lia. reflexivity.
Qed.

Lemma decode_lead2 (b : Z) (rest : list Z) :
  0xC2 ≤ b ≤ 0xDF →
  utf8_decode utf8_initial (b :: rest)
  = utf8_decode (mkUtf8Decoder (b mod 32) 0 1 0x80 0xBF) rest.
Proof.
  intros Hb. cbn [utf8_decode]. unfold utf8_handler. cbn [bytes_needed utf8_initial Z.eqb].
  unfold utf8_lead. rewrite (leb_false b 0x7F), andb_false_r by lia.
  rewrite !leb_true by lia. cbn [andb app].
  change 0x1F with (2 ^ 5 - 1). rewrite land_low by lia. reflexivity.
Qed.

Lemma decode_lead3 (b : Z) (rest : list Z) :
  0xE0 ≤ b ≤ 0xEF →
  utf8_decode utf8_initial (b :: rest)
  = utf8_decode (mkUtf8Decoder (b mod 16) 0 2
                   (if b =? 0xE0 then 0xA0 else 0x80)
                   (if b =? 0xED then 0x9F else 0xBF)) rest.
Proof.
  intros Hb. cbn [utf8_decode]. unfold utf8_handler. cbn [bytes_needed utf8_initial Z.eqb].
  unfold utf8_lead. rewrite (leb_false b 0x7F), andb_false_r by lia.
  rewrite (leb_false b 0xDF), andb_false_r by lia.
  rewrite !leb_true by lia. cbn [andb app].
  change 0xF with (2 ^ 4 - 1). rewrite land_low by lia. reflexivity.
Qed.

Lemma decode_lead4 (b : Z) (rest : list Z) :
  0xF0 ≤ b ≤ 0xF4 →
  utf8_decode utf8_initial (b :: rest)
  = utf8_decode (mkUtf8Decoder (b mod 8) 0 3
                   (if b =? 0xF0 then 0x90 else 0x80)
                   (if b =? 0xF4 then 0x8F else 0xBF)) rest.
Proof.
  intros Hb. cbn [utf8_decode]. unfold utf8_handler. cbn [bytes_needed utf8_initial Z.eqb].
  unfold utf8_lead. rewrite (leb_false b 0x7F), andb_false_r by lia.
  rewrite (leb_false b 0xDF), andb_false_r by lia.
  rewrite (leb_false b 0xEF), andb_false_r by lia.
  rewrite !leb_true by lia. cbn [andb app].
  change 0x7 with (2 ^ 3 - 1). rewrite land_low by lia. reflexivity.
Qed.

(** A continuation byte [128 + x] inside an open sequence. *)
Lemma decode_continuation (d : Utf8Decoder) (x : Z) (rest : list Z) :
  0 ≤ x < 64 → bytes_needed d ≠ 0 →
  lower_boundary d ≤ 128 + x ≤ upper_boundary d →
  utf8_decode d ((128 + x) :: rest)
  = if bytes_seen d + 1 =? bytes_needed d
    then (code_point d * 64 + x) :: utf8_decode utf8_initial rest
    else utf8_decode (mkUtf8Decoder (code_point d * 64 + x) (bytes_seen d + 1)
                        (bytes_needed d) 0x80 0xBF) rest.
Proof.
  intros Hx Hn Hb. cbn [utf8_decode]. unfold utf8_handler.
  replace (bytes_needed d =? 0) with false by (symmetry; apply Z.eqb_neq; exact Hn).
  rewrite !leb_true by lia. cbn [andb negb].
  change 0x3F with (2 ^ 6 - 1). rewrite land_low, Z.shiftl_mul_pow2 by lia.
  replace ((128 + x) mod 2 ^ 6) with x by dlia.
  rewrite lor_disjoint by lia. change (2 ^ 6) with 64.
  destruct (bytes_seen d + 1 =? bytes_needed d); reflexivity.
Qed.

Ltac count_bytes :=
  change (0 + 1 =? 1) with true; change (0 + 1 =? 2) with false;
  change (0 + 1 =? 3) with false; change (0 + 1 + 1 =? 2) with true;
  change (0 + 1 + 1 =? 3) with false; change (0 + 1 + 1 + 1 =? 3) with true;
  cbv beta iota.

Ltac continuation :=
  rewrite decode_continuation;
  cbn [bytes_needed bytes_seen code_point lower_boundary upper_boundary];
  [count_bytes|dlia|lia|].

(** The decoder reads back what the encoder wrote for one scalar value. *)
Lemma utf8_decode_encode_scalar (cp : Z) (rest : list Z) :
  is_scalar cp →
  utf8_decode utf8_initial (utf8_encode_scalar cp ++ rest)
  = cp :: utf8_decode utf8_initial rest.
Proof.
  intros Hcp. unfold is_scalar in Hcp. unfold utf8_encode_scalar.
  destruct (Z.ltb_spec cp 0x80) as [H1|H1]; [apply decode_ascii; lia|].
  rewrite ?lor_continuation, ?Z.shiftr_div_pow2 by lia.
  destruct (Z.ltb_spec cp 0x800) as [H2|H2].
  { cbn [app]. rewrite decode_lead2 by dlia.
    continuation; [f_equal; dlia|dlia]. }
  destruct (Z.ltb_spec cp 0x10000) as [H3|H3].
  { cbn [app]. rewrite decode_lead3 by dlia.
    continuation.
    - continuation; [f_equal; dlia|dlia].
    - destruct (Z.eqb_spec (cp / 2 ^ 12 + 224) 224), (Z.eqb_spec (cp / 2 ^ 12 + 224) 237);
        dlia. }
  cbn [app]. rewrite decode_lead4 by dlia.
  continuation.
  - continuation; [|dlia]. continuation; [f_equal; dlia|dlia].
  - destruct (Z.eqb_spec (cp / 2 ^ 18 + 240) 240), (Z.eqb_spec (cp / 2 ^ 18 + 240) 244);
      dlia.
Qed.

Lemma utf8_decode_encode (cps : list Z) :
  Forall is_scalar cps →
  utf8_decode utf8_initial (concat (map utf8_encode_scalar cps)) = cps.
Proof.
  induction 1 as [|cp cps Hcp _ IH]; [reflexivity|].
  cbn [map concat]. rewrite (utf8_decode_encode_scalar cp _ Hcp), IH. reflexivity.
Qed.

Lemma strip_bom_scalars (s : list Z) :
  Forall is_u16 s → well_formed s = true → head s ≠ Some 0xFEFF →
  strip_bom (scalars_of_units s) = scalars_of_units s.
Proof.
  intros Hs Hwf Hhd. destruct Hs as [|c s Hc Hs]; [reflexivity|].
  cbn [scalars_of_units well_formed head] in *.
  destruct (is_lead c) eqn:Hlead.
  - destruct s as [|d s]; [discriminate|].
    apply andb_true_iff in Hwf as [Htrail _]. rewrite Htrail.
    unfold is_lead in Hlead. apply andb_true_iff in Hlead as [H1 H2].
    unfold is_trail in Htrail. apply andb_true_iff in Htrail as [H3 H4].
    apply Z.leb_le in H1, H2, H3, H4. cbn [strip_bom].
    replace (_ =? 0xFEFF) with false by (symmetry; apply Z.eqb_neq; lia).
    reflexivity.
  - apply andb_true_iff in Hwf as [Htrail _]. apply negb_true_iff in Htrail.
    rewrite Htrail. cbn [strip_bom].
    replace (c =? 0xFEFF) with false by (symmetry; apply Z.eqb_neq; congruence).
    reflexivity.
Qed.

(** The text codec gives back every string of 16-bit code units in which
    the surrogates are paired and which does not start with U+FEFF. *)
Lemma well_formed_utf8_stable (s : list Z) :
  Forall is_u16 s → well_formed s = true → head s ≠ Some 0xFEFF → utf8_stable s.
Proof.
  intros Hs Hwf Hhd. unfold utf8_stable, bytesToUtf8, utf8ToBytes.
  destruct (utf16_roundtrip (length s) s (Nat.le_refl _) Hs Hwf) as [Hsc Hback].
  rewrite (utf8_decode_encode _ Hsc), (strip_bom_scalars s Hs Hwf Hhd). exact Hback.
Qed.

Lemma utf8_encode_scalar_length (cp : Z) :
  (1 ≤ length (utf8_encode_scalar cp) ≤ 4)%nat
  ∧ (cp < 0x10000 → (length (utf8_encode_scalar cp) ≤ 3)%nat).
Proof.
  unfold utf8_encode_scalar.
  destruct (Z.ltb_spec cp 0x80); [simpl; lia|].
  destruct (Z.ltb_spec cp 0x800); [simpl; lia|].
  destruct (Z.ltb_spec cp 0x10000); simpl; lia.
Qed.

Lemma utf8_encode_pair_length (c d : Z) :
  is_lead c = true → is_trail d = true →
  length (utf8_encode_scalar (0x10000 + (c - 0xD800) * 0x400 + (d - 0xDC00))) = 4%nat.
Proof.
  unfold is_lead, is_trail. intros Hc Hd.
  apply andb_true_iff in Hc as [H1 H2]. apply andb_true_iff in Hd as [H3 H4].
  apply Z.leb_le in H1, H2, H3, H4. unfold utf8_encode_scalar.
  rewrite !(proj2 (Z.ltb_ge _ _)) by lia. reflexivity.
Qed.

(** A string of [n] code units has between [n] and [3 * n] bytes of
    UTF-8. *)
Lemma utf8ToBytes_length (n : nat) :
  ∀ s, (length s ≤ n)%nat → Forall is_u16 s →
       (length s ≤ length (utf8ToBytes s) ≤ 3 * length s)%nat.
Proof.
  unfold utf8ToBytes.
  induction n as [|n IH]; intros s Hn Hs.
  - destruct s; [simpl; lia|simpl in Hn; lia].
  - destruct Hs as [|c s Hc Hs]; [simpl; lia|]. simpl in Hn. unfold is_u16 in Hc.
    cbn [scalars_of_units]. destruct (is_lead c) eqn:Hlead.
    + destruct Hs as [|d s Hd Hs]; [simpl; lia|].
      destruct (is_trail d) eqn:Htrail.
      * cbn [map concat]. rewrite length_app, (utf8_encode_pair_length c d Hlead Htrail).
        specialize (IH s ltac:(simpl in Hn; lia) Hs). simpl length. lia.
      * cbn [map concat]. rewrite length_app.
        specialize (IH (d :: s) ltac:(lia) ltac:(constructor; assumption)).
        simpl length in *. lia.
    + specialize (IH s ltac:(lia) Hs).
      destruct (is_trail c); cbn [map concat]; rewrite length_app.
      * simpl length. lia.
      * destruct (utf8_encode_scalar_length c) as [H1 H3]. specialize (H3 ltac:(lia)).
        simpl length. lia.
Qed.

Lemma ascii_u16 (s : list Z) : Forall is_ascii s → Forall is_u16 s.
Proof. intros Hs. apply (Forall_impl _ _ _ Hs). unfold is_ascii, is_u16. lia. Qed.

Lemma ascii_well_formed (s : list Z) : Forall is_ascii s → well_formed s = true.
Proof.
  induction 1 as [|c s Hc _ IH]; [reflexivity|]. unfold is_ascii in Hc.
  cbn [well_formed]. unfold is_lead, is_trail.
  rewrite !(leb_false _ c) by lia. exact IH.
Qed.

(** X5.  [bytesToUtf8(utf8ToBytes(s))] is [s] for every string whose
    surrogates are paired, but for a byte order mark at its start: a
    leading U+FEFF is dropped by the decoder, and nothing else is. *)
Theorem utf8_roundtrip (s : list Z) :
  Forall is_u16 s → well_formed s = true →
  bytesToUtf8 (utf8ToBytes s) = strip_bom s
  ∧ (head s ≠ Some 0xFEFF → bytesToUtf8 (utf8ToBytes s) = s)
  ∧ (head s = Some 0xFEFF → bytesToUtf8 (utf8ToBytes s) = tail s).
Proof.
  intros Hs Hwf.
  assert (Hgen : bytesToUtf8 (utf8ToBytes s) = strip_bom s).
  { destruct (utf16_roundtrip (length s) s (Nat.le_refl _) Hs Hwf) as [Hsc Hback].
    unfold bytesToUtf8, utf8ToBytes. rewrite (utf8_decode_encode _ Hsc).
    destruct s as [|c s']; [reflexivity|].
    destruct (Z.eqb_spec c 0xFEFF) as [->|Hne].
    - apply Forall_cons in Hs as [_ Hs']. cbn [well_formed] in Hwf.
      change (is_lead 0xFEFF) with false in Hwf. change (is_trail 0xFEFF) with false in Hwf.
      cbn [negb andb] in Hwf.
      destruct (utf16_roundtrip (length s') s' (Nat.le_refl _) Hs' Hwf) as [_ Hback'].
      cbn [scalars_of_units]. change (is_lead 0xFEFF) with false.
      change (is_trail 0xFEFF) with false. cbv iota. cbn [strip_bom].
      change (0xFEFF =? 0xFEFF) with true. cbv iota. exact Hback'.
    - rewrite (strip_bom_scalars (c :: s') Hs Hwf) by (simpl; congruence).
      rewrite Hback. cbn [strip_bom].
      replace (c =? 0xFEFF) with false by (symmetry; apply Z.eqb_neq; exact Hne).
      reflexivity. }
  split; [exact Hgen|]. rewrite Hgen. split.
  - destruct s as [|c s']; [reflexivity|]. cbn [head strip_bom]. intros Hne.
    replace (c =? 0xFEFF) with false by (symmetry; apply Z.eqb_neq; congruence).
    reflexivity.
  - destruct s as [|c s']; [discriminate|]. cbn [head strip_bom tail].
    intros [= ->]. reflexivity.
Qed.

(** ** FilePacker *)

Lemma be32_length (n : Z) : length (be32 n) = 4%nat.
Proof. reflexivity. Qed.

Lemma be32_u8 (n : Z) : Forall is_u8 (be32 n).
Proof. unfold be32, is_u8. repeat constructor; dlia. Qed.

Lemma getUint32_be32 (pre post : list Z) (n : Z) :
  getUint32 (pre ++ be32 n ++ post) (length pre) = Ok (n mod 2 ^ 32).
Proof.
  unfold getUint32.
  replace (length (pre ++ be32 n ++ post) <? length pre + 4)%nat with false
    by (symmetry; apply Nat.ltb_ge; rewrite !length_app, be32_length; lia).
  rewrite drop_app_length.
  replace (take 4 (be32 n ++ post)) with (be32 n)
    by (symmetry; apply (take_app_length (be32 n) post)).
  unfold be32. f_equal. dlia.
Qed.

Lemma getUint32_short (a : list Z) (offset : nat) :
  (length a < offset + 4)%nat → getUint32 a offset = Err RangeError.
Proof.
  intros Hl. unfold getUint32.
  replace (length a <? offset + 4)%nat with true by (symmetry; apply Nat.ltb_lt; lia).
  reflexivity.
Qed.

Lemma getUint32_long (a : list Z) (offset : nat) :
  (offset + 4 ≤ length a)%nat → ∃ v, getUint32 a offset = Ok v.
Proof.
  intros Hl. unfold getUint32.
  replace (length a <? offset + 4)%nat with false by (symmetry; apply Nat.ltb_ge; lia).
  assert (Hlen : length (take 4 (drop offset a)) = 4%nat)
    by (rewrite length_take, length_drop; lia).
  destruct (take 4 (drop offset a)) as [|b0 [|b1 [|b2 [|b3 [|? ?]]]]];
    simpl in Hlen; try lia.
  eexists. reflexivity.
Qed.

Lemma createHeader_ok (f : RawFile) :
  1 ≤ Z.of_nat (length (utf8ToBytes (name f))) ≤ 255 →
  createHeader f =
  Ok ([Z.of_nat (length (utf8ToBytes (name f)))] ++ utf8ToBytes (name f) ++ be32 (size f)).
Proof.
  intros Hn. unfold createHeader.
  replace (Z.of_nat (length (utf8ToBytes (name f))) <? 1) with false
    by (symmetry; apply Z.ltb_ge; lia).
  replace (255 <? Z.of_nat (length (utf8ToBytes (name f)))) with false
    by (symmetry; apply Z.ltb_ge; lia).
  reflexivity.
Qed.

Lemma pack_ok (f : RawFile) :
  1 ≤ Z.of_nat (length (utf8ToBytes (name f))) ≤ 255 →
  pack f =
  Ok ([Z.of_nat (length (utf8ToBytes (name f)))] ++ utf8ToBytes (name f)
        ++ be32 (size f) ++ data f).
Proof.
  intros Hn. unfold pack. rewrite (createHeader_ok f Hn). simpl.
  rewrite <- !app_assoc. reflexivity.
Qed.

Lemma pack_length (f : RawFile) (p : list Z) :
  pack f = Ok p →
  Z.of_nat (length p) = 1 + Z.of_nat (length (utf8ToBytes (name f))) + 4 + size f
  ∧ 1 ≤ Z.of_nat (length (utf8ToBytes (name f))) ≤ 255.
Proof.
  unfold pack, createHeader, size.
  destruct (Z.of_nat (length (utf8ToBytes (name f))) <? 1) eqn:H1;
    destruct (255 <? Z.of_nat (length (utf8ToBytes (name f)))) eqn:H2;
    simpl; intros Hp; try discriminate.
  injection Hp as <-. apply Z.ltb_ge in H1, H2.
  rewrite ?length_app; simpl; rewrite ?length_app; simpl; lia.
Qed.

Lemma pack_too_long (f : RawFile) :
  255 < Z.of_nat (length (utf8ToBytes (name f))) → pack f = Err InvalidName.
Proof.
  intros Hn. unfold pack, createHeader.
  replace (255 <? Z.of_nat (length (utf8ToBytes (name f)))) with true
    by (symmetry; apply Z.ltb_lt; lia).
  rewrite orb_true_r. reflexivity.
Qed.

Lemma pack_u8 (f : RawFile) (p : list Z) :
  Forall is_u16 (name f) → Forall is_u8 (data f) → pack f = Ok p → Forall is_u8 p.
Proof.
  intros Hn Hd Hp. destruct (pack_length f p Hp) as [_ Hlen].
  rewrite (pack_ok f Hlen) in Hp.
  assert (Hp' : [Z.of_nat (length (utf8ToBytes (name f)))] ++ utf8ToBytes (name f)
                  ++ be32 (size f) ++ data f = p) by congruence.
  rewrite <- Hp'.
  apply Forall_app_2; [constructor; [unfold is_u8; lia|constructor]|].
  apply Forall_app_2; [apply utf8ToBytes_u8, Hn|].
  apply Forall_app_2; [apply be32_u8|exact Hd].
Qed.

Lemma packWithPadding_ok (f : RawFile) (p : list Z) (requiredLength : Z) :
  pack f = Ok p → Z.of_nat (length p) ≤ requiredLength →
  packWithPadding f requiredLength
  = Ok (p ++ replicate (Z.to_nat (requiredLength - Z.of_nat (length p))) 0)
  ∧ Z.of_nat (length (p ++ replicate (Z.to_nat (requiredLength - Z.of_nat (length p))) 0))
    = requiredLength.
Proof.
  intros Hp Hl. unfold packWithPadding. rewrite Hp. simpl.
  replace (requiredLength - Z.of_nat (length p) <? 0) with false
    by (symmetry; apply Z.ltb_ge; lia).
  split; [reflexivity|]. rewrite length_app, length_replicate. lia.
Qed.

Lemma packWithPadding_small (f : RawFile) (p : list Z) (requiredLength : Z) :
  pack f = Ok p → requiredLength < Z.of_nat (length p) →
  packWithPadding f requiredLength = Err LengthTooSmall.
Proof.
  intros Hp Hl. unfold packWithPadding. rewrite Hp. simpl.
  replace (requiredLength - Z.of_nat (length p) <? 0) with true
    by (symmetry; apply Z.ltb_lt; lia).
  reflexivity.
Qed.

(** The layout [fromPacked] reads: length byte, name, big-endian size,
    and as many bytes of what follows as the size says. *)
Lemma fromPacked_layout (n s : Z) (nbytes rest : list Z) :
  1 ≤ n → Z.to_nat n = length nbytes →
  fromPacked (n :: nbytes ++ be32 s ++ rest)
  = Ok (newRawFile (take (Z.to_nat (s mod 2 ^ 32)) rest) (bytesToUtf8 nbytes)).
Proof.
  intros Hn Hnl.
  set (l := n :: nbytes ++ be32 s ++ rest).
  assert (Hname : subarray l (0 + 1) (0 + 1 + Z.to_nat n) = nbytes).
  { unfold subarray, l. simpl drop.
    replace (0 + 1 + Z.to_nat n - (0 + 1))%nat with (length nbytes) by lia.
    apply take_app_length. }
  assert (Hsize : getUint32 l (0 + 1 + Z.to_nat n) = Ok (s mod 2 ^ 32)).
  { replace (0 + 1 + Z.to_nat n)%nat with (length (n :: nbytes)) by (simpl; lia).
    apply (getUint32_be32 (n :: nbytes) rest s). }
  assert (Hdata : subarray l (0 + 1 + Z.to_nat n + 4)
                    (0 + 1 + Z.to_nat n + 4 + Z.to_nat (s mod 2 ^ 32))
                  = take (Z.to_nat (s mod 2 ^ 32)) rest).
  { unfold subarray, l.
    replace (0 + 1 + Z.to_nat n + 4 + Z.to_nat (s mod 2 ^ 32) - (0 + 1 + Z.to_nat n + 4))%nat
      with (Z.to_nat (s mod 2 ^ 32)) by lia.
    replace (0 + 1 + Z.to_nat n + 4)%nat with (length ((n :: nbytes) ++ be32 s))
      by (rewrite length_app, be32_length; simpl; lia).
    change (n :: nbytes ++ be32 s ++ rest) with ((n :: nbytes) ++ be32 s ++ rest).
    rewrite (app_assoc (n :: nbytes)), drop_app_length. reflexivity. }
  unfold fromPacked. cbv zeta.
  change (getUint8 l 0) with (Ok n). cbn [mbind result_bind].
  replace (n <? 1) with false by (symmetry; apply Z.ltb_ge; lia).
  rewrite Hname, Hsize. cbn [mbind result_bind]. rewrite Hdata. reflexivity.
Qed.

(** Unpacking what [pack] produced, whatever follows it: the size is
    stored modulo 2^32, and that many bytes come back; the name comes back
    as the text codec returns it. *)
Lemma fromPacked_pack_any (f : RawFile) (p pad : list Z) :
  pack f = Ok p →
  fromPacked (p ++ pad)
  = Ok (newRawFile (take (Z.to_nat (size f mod 2 ^ 32)) (data f ++ pad))
                   (bytesToUtf8 (utf8ToBytes (name f)))).
Proof.
  intros Hp. destruct (pack_length f p Hp) as [_ Hn].
  rewrite (pack_ok f Hn) in Hp.
  assert (Hp' : [Z.of_nat (length (utf8ToBytes (name f)))] ++ utf8ToBytes (name f)
                  ++ be32 (size f) ++ data f = p) by congruence.
  rewrite <- Hp'. cbn [app]. rewrite <- !app_assoc.
  apply (fromPacked_layout _ (size f) (utf8ToBytes (name f)) (data f ++ pad)); lia.
Qed.

Lemma fromPacked_pack_padded (f : RawFile) (p pad : list Z) :
  pack f = Ok p → size f < 2 ^ 32 →
  fromPacked (p ++ pad) = Ok (newRawFile (data f) (bytesToUtf8 (utf8ToBytes (name f)))).
Proof.
  intros Hp Hs. rewrite (fromPacked_pack_any f p pad Hp).
  unfold size in *. rewrite Z.mod_small, Nat2Z.id by lia.
  rewrite take_app_length. reflexivity.
Qed.

(** The size field is 4 bytes wide ("4GB max"): a content of 2^32 bytes
    is packed with size 0 and unpacked as the empty content. *)
Lemma fromPacked_pack_4GiB (f : RawFile) (p : list Z) :
  pack f = Ok p → size f = 2 ^ 32 →
  fromPacked p = Ok (newRawFile [] (bytesToUtf8 (utf8ToBytes (name f)))).
Proof.
  intros Hp Hs. rewrite <- (app_nil_r p). rewrite (fromPacked_pack_any f p [] Hp).
  rewrite Hs, Z.mod_same by lia. reflexivity.
Qed.

(** *** The default name *)

Lemma units_of_uint_succ (d : Decimal.uint) :
  length (units_of_uint (Decimal.Little.succ d)) = length (units_of_uint d)
  ∨ (length (units_of_uint (Decimal.Little.succ d)) = S (length (units_of_uint d))
     ∧ Unsigned.of_lu (Decimal.Little.succ d) = (10 ^ length (units_of_uint d))%nat).
Proof.
  induction d as [|d IH|d IH|d IH|d IH|d IH|d IH|d IH|d IH|d IH|d IH];
    try (left; reflexivity).
  - right. split; reflexivity.
  - destruct IH as [IH|[IH1 IH2]].
    + left. cbn [Decimal.Little.succ units_of_uint length]. rewrite IH. reflexivity.
    + right. cbn [Decimal.Little.succ units_of_uint length Unsigned.of_lu].
      rewrite IH1, IH2, Nat.pow_succ_r'. split; reflexivity.
Qed.

Lemma digits_to_lu (n : nat) :
  (10 ^ length (units_of_uint (Unsigned.to_lu n)) ≤ 10 * Nat.max 1 n)%nat.
Proof.
  induction n as [|n IH]; [simpl; lia|].
  cbn [Unsigned.to_lu].
  destruct (units_of_uint_succ (Unsigned.to_lu n)) as [Hsame|[Hmore Hval]].
  - rewrite Hsame. lia.
  - rewrite Hmore, Nat.pow_succ_r'. rewrite Unsigned.of_lu_succ, Unsigned.of_to_lu in Hval.
    rewrite <- Hval. lia.
Qed.

Lemma units_of_uint_revapp (d d' : Decimal.uint) :
  length (units_of_uint (Decimal.revapp d d'))
  = (length (units_of_uint d) + length (units_of_uint d'))%nat.
Proof.
  revert d'. induction d; intros d'; cbn [Decimal.revapp units_of_uint length];
    rewrite ?IHd; cbn [units_of_uint length]; lia.
Qed.

(** A size below 2^53 is printed with at most 16 digits. *)
Lemma digits_of_size (n : nat) :
  Z.of_nat n < 2 ^ 53 → (length (units_of_uint (Nat.to_uint n)) ≤ 16)%nat.
Proof.
  intros Hn. rewrite Unsigned.to_uint_alt. unfold Decimal.rev.
  rewrite units_of_uint_revapp. cbn [units_of_uint length]. rewrite Nat.add_0_r.
  pose proof (digits_to_lu n) as Hd.
  set (k := length (units_of_uint (Unsigned.to_lu n))) in *.
  apply Nat2Z.inj_le in Hd. rewrite Nat2Z.inj_pow, Nat2Z.inj_mul, Nat2Z.inj_max in Hd.
  change (Z.of_nat 10) with 10 in Hd. change (Z.of_nat 1) with 1 in Hd.
  destruct (Nat.le_gt_cases k 16) as [|Hk]; [assumption|exfalso].
  assert (10 ^ 17 ≤ 10 ^ Z.of_nat k) by (apply Z.pow_le_mono_r; lia).
  lia.
Qed.

Lemma units_of_uint_ascii (d : Decimal.uint) : Forall is_ascii (units_of_uint d).
Proof. induction d; cbn [units_of_uint]; constructor; auto; unfold is_ascii; lia. Qed.

Lemma default_name_ascii (n : nat) : Forall is_ascii (default_name n).
Proof.
  unfold default_name. repeat apply Forall_app_2; auto using units_of_uint_ascii;
    unfold is_ascii; repeat constructor; lia.
Qed.

Lemma default_name_length (n : nat) :
  Z.of_nat n < 2 ^ 53 → (length (utf8ToBytes (default_name n)) ≤ 26)%nat.
Proof.
  intros Hn. rewrite (utf8ToBytes_ascii _ (default_name_ascii n)).
  unfold default_name. rewrite !length_app. pose proof (digits_of_size n Hn). simpl. lia.
Qed.

(** *** Unpacking *)

(** C3, as the code has it.  [fromPacked] throws the "at least 1
    character" error exactly when the first byte is 0; it throws a
    [RangeError] (from the [DataView]) when the buffer is empty or shorter
    than [name_len + 5]; in every other case it succeeds, whatever
    [content_len] says: the content is what is left of the buffer, at most
    [content_len] bytes of it. *)
Theorem fromPacked_outcome (packed : list Z) :
  Forall is_u8 packed →
  (packed = [] → fromPacked packed = Err RangeError)
  ∧ ∀ (name_len : Z) (rest : list Z), packed = name_len :: rest →
      (name_len = 0 ∨ 1 ≤ name_len)
      ∧ (name_len = 0 → fromPacked packed = Err CorruptHeader)
      ∧ (1 ≤ name_len → Z.of_nat (length packed) < name_len + 5 →
         fromPacked packed = Err RangeError)
      ∧ (1 ≤ name_len → name_len + 5 ≤ Z.of_nat (length packed) →
         ∃ content_len,
           getUint32 packed (Z.to_nat (name_len + 1)) = Ok content_len
           ∧ fromPacked packed
             = Ok (newRawFile
                     (take (Z.to_nat content_len) (drop (Z.to_nat (name_len + 5)) packed))
                     (bytesToUtf8 (take (Z.to_nat name_len) rest)))).
Proof.
  intros Hu8. split; [intros ->; reflexivity|].
  intros n rest ->.
  split; [apply Forall_cons in Hu8 as [Hn _]; unfold is_u8 in Hn; lia|].
  unfold fromPacked. cbv zeta.
  change (getUint8 (n :: rest) 0) with (Ok n). cbn [mbind result_bind].
  split; [intros ->; reflexivity|].
  split; intros Hn Hl; (replace (n <? 1) with false by (symmetry; apply Z.ltb_ge; lia)).
  - rewrite getUint32_short by lia. reflexivity.
  - destruct (getUint32_long (n :: rest) (0 + 1 + Z.to_nat n)) as [v Hv]; [lia|].
    exists v. replace (Z.to_nat (n + 1)) with (0 + 1 + Z.to_nat n)%nat by lia.
    split; [exact Hv|]. rewrite Hv. cbn [mbind result_bind]. unfold subarray.
    replace (0 + 1 + Z.to_nat n + 4 + Z.to_nat v - (0 + 1 + Z.to_nat n + 4))%nat
      with (Z.to_nat v) by lia.
    replace (0 + 1 + Z.to_nat n - (0 + 1))%nat with (Z.to_nat n) by lia.
    replace (0 + 1 + Z.to_nat n + 4)%nat with (Z.to_nat (n + 5)) by lia.
    reflexivity.
Qed.

(** The first claim of C3 fails: [name_len + 5 + content_len = 11] exceeds
    the 6 bytes of the buffer, and [fromPacked] returns a file. *)
Lemma fromPacked_truncated_content :
  let packed := [1; 97; 0; 0; 0; 5] in
  Forall is_u8 packed
  ∧ getUint8 packed 0 = Ok 1
  ∧ getUint32 packed 2 = Ok 5
  ∧ Z.of_nat (length packed) < 1 + 5 + 5
  ∧ fromPacked packed = Ok {| data := []; name := [97] |}
  ∧ fromPacked packed ≠ Err CorruptHeader.
Proof.
  cbv zeta. split; [|repeat split; try reflexivity; discriminate].
  unfold is_u8. repeat constructor; lia.
Qed.

(** *** Packing *)

Lemma newRawFile_name_nonempty (content fname : list Z) :
  name (newRawFile content fname) ≠ [].
Proof. destruct fname; simpl; discriminate. Qed.

(** C5, as the code has it.  The constructor replaces an empty name by
    [file-<size>.file], so [pack] never sees one and packs that name (for
    every content a typed array can hold); [pack] throws the name error
    exactly when the UTF-8 encoding of the name the file holds is longer
    than 255 bytes, and otherwise returns [1 + name_len + 4 + content_len]
    bytes. *)
Theorem pack_outcome (content fname : list Z) :
  let f := newRawFile content fname in
  let name_len := Z.of_nat (length (utf8ToBytes (name f))) in
  (fname ≠ [] → name f = fname)
  ∧ (fname = [] → name f = default_name (length content))
  ∧ 1 ≤ name_len
  ∧ (255 < name_len → pack f = Err InvalidName)
  ∧ (name_len ≤ 255 →
     ∃ p, pack f = Ok p
          ∧ Z.of_nat (length p) = 1 + name_len + 4 + Z.of_nat (length content))
  ∧ (fname = [] → Z.of_nat (length content) < 2 ^ 53 → name_len ≤ 255).
Proof.
  intros f name_len.
  assert (H1 : 1 ≤ name_len).
  { pose proof (utf8ToBytes_nonempty _ (newRawFile_name_nonempty content fname)) as Hne.
    subst name_len f. destruct (utf8ToBytes _); [congruence|simpl; lia]. }
  split; [destruct fname; [congruence|reflexivity]|].
  split; [intros ->; reflexivity|].
  split; [exact H1|].
  split; [apply pack_too_long|].
  split.
  - intros H255. eexists. split; [apply pack_ok; subst name_len; lia|].
    rewrite ?length_app, be32_length. simpl. subst name_len f. simpl. lia.
  - intros -> Hsz. subst name_len f. cbn [newRawFile name].
    pose proof (default_name_length (length content) Hsz). lia.
Qed.

(** The first claim of C5 fails: with the empty name [pack] succeeds. *)
Lemma pack_empty_name :
  pack (newRawFile [1; 2; 3] [])
  = Ok [11; 102; 105; 108; 101; 45; 51; 46; 102; 105; 108; 101; 0; 0; 0; 3; 1; 2; 3]
  ∧ pack (newRawFile [1; 2; 3] []) ≠ Err InvalidName.
Proof. split; [reflexivity|discriminate]. Qed.

(** Away from the byte order mark the round trip holds.  For a name of
    paired surrogates that does not start with U+FEFF and whose UTF-8
    encoding has 1 to 255 bytes, and a content of less than 2^32 bytes,
    [fromPacked] of the packed form is the file, and so is [fromPacked] of
    the form padded to any [requiredLength] at least its length. *)
Theorem fromPacked_pack (fname content : list Z) (requiredLength : Z) :
  Forall is_u16 fname → well_formed fname = true → head fname ≠ Some 0xFEFF →
  1 ≤ Z.of_nat (length (utf8ToBytes fname)) ≤ 255 →
  Z.of_nat (length content) < 2 ^ 32 →
  ∃ p, pack (newRawFile content fname) = Ok p
       ∧ fromPacked p = Ok {| data := content; name := fname |}
       ∧ (Z.of_nat (length p) ≤ requiredLength →
          ∃ padded, packWithPadding (newRawFile content fname) requiredLength = Ok padded
                    ∧ Z.of_nat (length padded) = requiredLength
                    ∧ fromPacked padded = Ok {| data := content; name := fname |}).
Proof.
  intros Hu16 Hwf Hbom Hlen Hsz.
  pose proof (well_formed_utf8_stable fname Hu16 Hwf Hbom) as Hst.
  assert (Hne : fname ≠ []) by (intros ->; simpl in Hlen; lia).
  assert (Hf : newRawFile content fname = {| data := content; name := fname |})
    by (destruct fname; [congruence|reflexivity]).
  rewrite Hf. set (f := {| data := content; name := fname |}).
  assert (Hback : ∀ p pad, pack f = Ok p → fromPacked (p ++ pad) = Ok f).
  { intros p pad Hp. rewrite (fromPacked_pack_padded f p pad Hp Hsz). simpl.
    rewrite Hst. f_equal. exact Hf. }
  destruct (pack f) as [p|e] eqn:Hp; [|rewrite (pack_ok f Hlen) in Hp; discriminate].
  exists p. split; [reflexivity|]. split.
  - rewrite <- (app_nil_r p). apply Hback. reflexivity.
  - intros Hreq. destruct (packWithPadding_ok f p requiredLength Hp Hreq) as [Hpad Hl].
    eexists. split; [exact Hpad|]. split; [exact Hl|]. apply Hback. reflexivity.
Qed.

(** C4.  [fromPacked] of the packed form is not the file when the name
    starts with U+FEFF.  The name U+FEFF 'a' has a UTF-8 encoding of 4
    bytes, which [pack] writes as it is ([utils.utf8ToBytes] keeps the
    mark); [fromPacked] reads the name back through [utils.bytesToUtf8],
    a decoder that drops a leading byte order mark, and returns the name
    'a': the content is the one packed, the name is not. *)
Lemma fromPacked_pack_bom :
  let fname := [0xFEFF; 97] in
  let content := [1; 2; 3] in
  let packed := [4; 239; 187; 191; 97; 0; 0; 0; 3; 1; 2; 3] in
  Forall is_u16 fname
  ∧ well_formed fname = true
  ∧ utf8ToBytes fname = [239; 187; 191; 97]
  ∧ 1 ≤ Z.of_nat (length (utf8ToBytes fname)) ≤ 255
  ∧ pack (newRawFile content fname) = Ok packed
  ∧ fromPacked packed = Ok {| data := content; name := [97] |}
  ∧ fromPacked packed ≠ Ok {| data := content; name := fname |}.
Proof.
  cbv zeta. split; [unfold is_u16; repeat constructor; lia|].
  split; [reflexivity|]. split; [reflexivity|]. split; [simpl; lia|].
  split; [reflexivity|]. split; [reflexivity|discriminate].
Qed.

(** A surrogate without its pair is encoded as U+FFFD, and that is what
    comes back. *)
Lemma fromPacked_pack_lone_surrogate :
  let fname := [0xD800] in
  let content := [1; 2; 3] in
  let packed := [3; 239; 191; 189; 0; 0; 0; 3; 1; 2; 3] in
  pack (newRawFile content fname) = Ok packed
  ∧ fromPacked packed = Ok {| data := content; name := [0xFFFD] |}.
Proof. split; reflexivity. Qed.

(** *** Names, padding and sizes *)

(** X6.  The limit of [createHeader] ("File name must be 1-255 chars") is
    on the bytes of the UTF-8 encoding, which has between one and three
    bytes per UTF-16 code unit: a name of 1 to 85 code units is always
    packed, and a name of more than 255 code units never is. *)
Theorem pack_name_units (content fname : list Z) :
  Forall is_u16 fname →
  (length fname ≤ length (utf8ToBytes fname) ≤ 3 * length fname)%nat
  ∧ ((1 ≤ length fname ≤ 85)%nat → ∃ p, pack (newRawFile content fname) = Ok p)
  ∧ ((255 < length fname)%nat → pack (newRawFile content fname) = Err InvalidName).
Proof.
  intros Hu. pose proof (utf8ToBytes_length (length fname) fname (Nat.le_refl _) Hu) as Hl.
  split; [exact Hl|].
  assert (Hf : fname ≠ [] → newRawFile content fname = {| data := content; name := fname |})
    by (destruct fname; [congruence|reflexivity]).
  split; intros Hn.
  - rewrite Hf by (intros ->; simpl in Hn; lia).
    eexists. apply pack_ok. cbn [name]. lia.
  - rewrite Hf by (intros ->; simpl in Hn; lia).
    apply pack_too_long. cbn [name]. lia.
Qed.


Lemma packWithPadding_u8 (f : RawFile) (requiredLength : Z) (padded : list Z) :
  Forall is_u16 (name f) → Forall is_u8 (data f) →
  packWithPadding f requiredLength = Ok padded → Forall is_u8 padded.
Proof.
  intros Hn Hd. unfold packWithPadding.
  destruct (pack f) as [p|e] eqn:Hp; [|discriminate]. cbn [mbind result_bind].
  destruct (_ <? 0); [discriminate|]. intros [= <-].
  apply Forall_app_2; [exact (pack_u8 f p Hn Hd Hp)|].
  apply Forall_replicate. unfold is_u8. lia.
Qed.

Lemma packWithPadding_error (f : RawFile) (requiredLength : Z) (e : error) :
  packWithPadding f requiredLength = Err e → e = InvalidName ∨ e = LengthTooSmall.
Proof.
  unfold packWithPadding, pack, createHeader.
  destruct (_ || _); simpl; [left; congruence|].
  destruct (_ <? 0); [right|]; congruence.
Qed.

Lemma getUint32_app (a extra : list Z) (offset : nat) (v : Z) :
  getUint32 a offset = Ok v → getUint32 (a ++ extra) offset = Ok v.
Proof.
  unfold getUint32. destruct (Nat.ltb_spec (length a) (offset + 4)) as [|Hl]; [discriminate|].
  replace (length (a ++ extra) <? offset + 4)%nat with false
    by (symmetry; apply Nat.ltb_ge; rewrite length_app; lia).
  rewrite drop_app_le by lia. rewrite take_app_le by (rewrite length_drop; lia).
  trivial.
Qed.

Lemma getUint32_length (a : list Z) (offset : nat) (v : Z) :
  getUint32 a offset = Ok v → (offset + 4 ≤ length a)%nat.
Proof.
  unfold getUint32. destruct (Nat.ltb_spec (length a) (offset + 4)); [discriminate|lia].
Qed.

Lemma getUint32_range (a : list Z) (offset : nat) (v : Z) :
  Forall is_u8 a → getUint32 a offset = Ok v → 0 ≤ v < 2 ^ 32.
Proof.
  intros Ha. unfold getUint32. destruct (length a <? offset + 4)%nat; [discriminate|].
  assert (Hsub : Forall is_u8 (take 4 (drop offset a))) by (apply Forall_take, Forall_drop, Ha).
  destruct (take 4 (drop offset a)) as [|b0 [|b1 [|b2 [|b3 [|? ?]]]]]; try discriminate.
  intros [= <-]. unfold is_u8 in Hsub.
  apply Forall_cons in Hsub as [H0 Hsub]. apply Forall_cons in Hsub as [H1 Hsub].
  apply Forall_cons in Hsub as [H2 Hsub]. apply Forall_cons in Hsub as [H3 _]. lia.
Qed.

(** X8.  [fromPacked] reads one record and ignores what follows it: when
    the buffer holds the whole record ([name_len + 5 + content_len]
    bytes), bytes appended to it, zero or not, do not change the result. *)
Theorem fromPacked_trailing (packed extra : list Z) (name_len content_len : Z) :
  getUint8 packed 0 = Ok name_len → 1 ≤ name_len →
  getUint32 packed (Z.to_nat (name_len + 1)) = Ok content_len →
  name_len + 5 + content_len ≤ Z.of_nat (length packed) →
  fromPacked (packed ++ extra) = fromPacked packed.
Proof.
  intros H8 Hn H32 Hl. unfold fromPacked. cbv zeta.
  assert (H8' : getUint8 (packed ++ extra) 0 = Ok name_len).
  { unfold getUint8 in *. destruct (packed !! 0%nat) as [v|] eqn:Hv; [|discriminate].
    rewrite (lookup_app_l_Some _ _ _ _ Hv). exact H8. }
  rewrite H8, H8'. cbn [mbind result_bind].
  replace (name_len <? 1) with false by (symmetry; apply Z.ltb_ge; lia).
  replace (0 + 1 + Z.to_nat name_len)%nat with (Z.to_nat (name_len + 1)) by lia.
  pose proof (getUint32_length _ _ _ H32) as Hlen.
  rewrite (getUint32_app _ extra _ _ H32), H32. cbn [mbind result_bind].
  unfold subarray. do 2 f_equal.
  - rewrite drop_app_le by lia. apply take_app_le. rewrite length_drop. lia.
  - rewrite drop_app_le by (simpl; lia). f_equal. apply take_app_le.
    rewrite length_drop. lia.
Qed.

(** X9.  A file made with the empty name is given the name
    [file-<size>.file], and that is the file [fromPacked] returns for its
    packed form: packing never fails on it, the default name being ASCII
    of at most 26 bytes. *)
Theorem fromPacked_pack_default_name (content : list Z) :
  Z.of_nat (length content) < 2 ^ 32 →
  ∃ p, pack (newRawFile content []) = Ok p
       ∧ fromPacked p = Ok (newRawFile content [])
       ∧ name (newRawFile content []) = default_name (length content)
       ∧ Z.of_nat (length p) ≤ 1 + 26 + 4 + Z.of_nat (length content).
Proof.
  intros Hsz. set (f := newRawFile content []).
  assert (Hname : name f = default_name (length content)) by reflexivity.
  pose proof (default_name_ascii (length content)) as Hascii.
  pose proof (default_name_length (length content) ltac:(lia)) as Hlen.
  assert (Hne : utf8ToBytes (name f) ≠ [])
    by (apply utf8ToBytes_nonempty, newRawFile_name_nonempty).
  assert (Hn : 1 ≤ Z.of_nat (length (utf8ToBytes (name f))) ≤ 255).
  { rewrite Hname in *. destruct (utf8ToBytes (default_name (length content)));
      [congruence|simpl in *; lia]. }
  assert (Hst : utf8_stable (name f)).
  { rewrite Hname. apply well_formed_utf8_stable;
      [apply ascii_u16, Hascii|apply ascii_well_formed, Hascii|discriminate]. }
  exists ([Z.of_nat (length (utf8ToBytes (name f)))] ++ utf8ToBytes (name f)
            ++ be32 (size f) ++ data f).
  pose proof (pack_ok f Hn) as Hp. split; [exact Hp|]. split; [|split; [exact Hname|]].
  - rewrite <- (app_nil_r (_ ++ _)).
    rewrite (fromPacked_pack_padded f _ [] Hp) by (unfold size, f; simpl; lia).
    rewrite Hst. reflexivity.
  - destruct (pack_length f _ Hp) as [Hpl _]. rewrite Hpl, Hname.
    unfold size, f. cbn [data newRawFile]. lia.
Qed.

(** X10.  Every file [fromPacked] returns from a byte buffer is one that
    the format can hold: its name is not empty (a name that decodes to the
    empty string is replaced by the default one), its content is a run of
    bytes of the buffer behind a header of at least 6 bytes, and its size
    is below 2^32. *)
Theorem fromPacked_invariant (packed : list Z) (f : RawFile) :
  Forall is_u8 packed → fromPacked packed = Ok f →
  name f ≠ []
  ∧ Forall is_u8 (data f)
  ∧ size f < 2 ^ 32
  ∧ size f + 6 ≤ Z.of_nat (length packed).
Proof.
  intros Hu8. unfold fromPacked. cbv zeta.
  destruct (getUint8 packed 0) as [n|] eqn:H8; [|discriminate]. cbn [mbind result_bind].
  destruct (Z.ltb_spec n 1) as [|Hn]; [discriminate|].
  destruct (getUint32 packed (0 + 1 + Z.to_nat n)) as [v|] eqn:H32; [|discriminate].
  cbn [mbind result_bind]. intros [= <-].
  pose proof (getUint32_range _ _ _ Hu8 H32) as Hv.
  pose proof (getUint32_length _ _ _ H32) as Hl.
  split; [apply newRawFile_name_nonempty|].
  unfold size. cbn [data newRawFile]. unfold subarray.
  split; [apply Forall_take, Forall_drop, Hu8|].
  rewrite length_take, length_drop. lia.
Qed.

(** X11.  The size field is 4 bytes wide.  For a name the text codec gives
    back, [fromPacked] of the packed form returns the name and the first
    [size mod 2^32] bytes of the content: all of it below 4 GiB, a
    truncated content from there on. *)
Theorem fromPacked_pack_wraps (fname content : list Z) :
  Forall is_u16 fname → well_formed fname = true → head fname ≠ Some 0xFEFF →
  1 ≤ Z.of_nat (length (utf8ToBytes fname)) ≤ 255 →
  ∃ p, pack (newRawFile content fname) = Ok p
       ∧ fromPacked p
         = Ok {| data := take (Z.to_nat (Z.of_nat (length content) mod 2 ^ 32)) content;
                 name := fname |}
       ∧ (2 ^ 32 ≤ Z.of_nat (length content) →
          fromPacked p ≠ Ok {| data := content; name := fname |}).
Proof.
  intros Hu16 Hwf Hbom Hlen.
  pose proof (well_formed_utf8_stable fname Hu16 Hwf Hbom) as Hst.
  assert (Hne : fname ≠ []) by (intros ->; simpl in Hlen; lia).
  assert (Hf : ∀ d, newRawFile d fname = {| data := d; name := fname |})
    by (intros d; destruct fname; [congruence|reflexivity]).
  rewrite Hf. set (f := {| data := content; name := fname |}).
  pose proof (pack_ok f Hlen) as Hp. eexists. split; [exact Hp|].
  assert (Hback : fromPacked ([Z.of_nat (length (utf8ToBytes (name f)))] ++ utf8ToBytes (name f)
                                ++ be32 (size f) ++ data f)
                  = Ok {| data := take (Z.to_nat (Z.of_nat (length content) mod 2 ^ 32)) content;
                          name := fname |}).
  { rewrite <- (app_nil_r (_ ++ _)). rewrite (fromPacked_pack_any f _ [] Hp).
    cbn [name data f]. rewrite Hst, app_nil_r, Hf. reflexivity. }
  split; [exact Hback|].
  intros Hbig. rewrite Hback. intros [= Heq].
  apply (f_equal length) in Heq. rewrite length_take in Heq.
  assert (0 ≤ Z.of_nat (length content) mod 2 ^ 32 < 2 ^ 32) by (apply Z.mod_pos_bound; lia).
  lia.
Qed.

(** ** Oversize rejection *)

(** C6.  When the packed file is longer than [capacity - 28], [hide]
    throws the length error of [packWithPadding]; the world it leaves is
    the world it found: no call of the AEAD provider has been made and no
    channel has been written. *)
Theorem hide_oversize `{Aead} (w : World) (rawFile : RawFile) (key p : list Z)
    (bitsTaken : Z) (cap : Capacity) :
  1 ≤ bitsTaken ≤ 8 →
  calcCapacity (channels w) bitsTaken = Ok cap →
  pack rawFile = Ok p →
  bytes cap - ENCRYPTED_METADATA_SIZE < Z.of_nat (length p) →
  hide rawFile key bitsTaken w = (Err LengthTooSmall, w)
  ∧ sealed (snd (hide rawFile key bitsTaken w)) = sealed w
  ∧ channels (snd (hide rawFile key bitsTaken w)) = channels w.
Proof.
  intros Hb Hcap Hp Hlen.
  assert (Hh : hide rawFile key bitsTaken w = (Err LengthTooSmall, w)).
  { unfold hide, mbind, M_bind, lift. rewrite Hcap.
    rewrite (packWithPadding_small rawFile p _ Hp Hlen). reflexivity. }
  rewrite Hh. auto.
Qed.

(** ** Bit strings *)

Lemma val_snoc (l : list bool) (x : bool) : val (l ++ [x]) = 2 * val l + Z.b2z x.
Proof. unfold val. rewrite foldl_snoc. reflexivity. Qed.

Lemma val_app (l1 l2 : list bool) :
  val (l1 ++ l2) = val l1 * 2 ^ Z.of_nat (length l2) + val l2.
Proof.
  induction l2 as [|x l2 IH] using rev_ind.
  - rewrite app_nil_r. simpl. unfold val at 3. simpl. lia.
  - rewrite app_assoc, !val_snoc, IH, length_app. simpl.
    rewrite Nat2Z.inj_add, Z.pow_add_r by lia. change (2 ^ Z.of_nat 1) with 2. lia.
Qed.

Lemma val_bound (l : list bool) : 0 ≤ val l < 2 ^ Z.of_nat (length l).
Proof.
  induction l as [|x l IH] using rev_ind; [unfold val; simpl; lia|].
  rewrite val_snoc, length_app. simpl.
  rewrite Nat2Z.inj_add, Z.pow_add_r by lia. change (2 ^ Z.of_nat 1) with 2.
  destruct x; simpl; lia.
Qed.

Lemma bits_of_length (n : nat) (v : Z) : length (bits_of n v) = n.
Proof. induction n; simpl; congruence. Qed.

Lemma bits_of_mod (n : nat) (v : Z) : bits_of n (v mod 2 ^ Z.of_nat n) = bits_of n v.
Proof.
  assert (Hgen : ∀ k, (k ≤ n)%nat → bits_of k (v mod 2 ^ Z.of_nat n) = bits_of k v).
  { induction k as [|k IH]; intros Hk; [reflexivity|]. simpl.
    rewrite Z.mod_pow2_bits_low by lia. rewrite IH by lia. reflexivity. }
  apply Hgen. lia.
Qed.

Lemma val_bits_of (n : nat) (v : Z) : val (bits_of n v) = v mod 2 ^ Z.of_nat n.
Proof.
  induction n as [|n IH].
  - simpl. unfold val. simpl. rewrite Z.mod_1_r. reflexivity.
  - simpl bits_of. change (Z.testbit v (Z.of_nat n) :: bits_of n v)
      with ([Z.testbit v (Z.of_nat n)] ++ bits_of n v).
    rewrite val_app, bits_of_length, IH. unfold val at 1. simpl foldl.
    rewrite Z.testbit_spec' by lia.
    rewrite Nat2Z.inj_succ, Z.pow_succ_r by lia.
    assert (0 < 2 ^ Z.of_nat n) by (apply Z.pow_pos_nonneg; lia).
    replace (2 * 2 ^ Z.of_nat n) with (2 ^ Z.of_nat n * 2) by ring.
    rewrite Z.rem_mul_r by lia. ring.
Qed.

Lemma bits_of_S_double (n : nat) (v : Z) (x : bool) :
  bits_of (S n) (2 * v + Z.b2z x) = bits_of n v ++ [x].
Proof.
  induction n as [|n IH].
  - cbn [bits_of app]. change (Z.of_nat 0) with 0. rewrite Z.testbit_0_r. reflexivity.
  - change (bits_of (S (S n)) (2 * v + Z.b2z x))
      with (Z.testbit (2 * v + Z.b2z x) (Z.of_nat (S n)) :: bits_of (S n) (2 * v + Z.b2z x)).
    rewrite IH, Nat2Z.inj_succ, Z.testbit_succ_r by lia. reflexivity.
Qed.

Lemma bits_of_val (l : list bool) : bits_of (length l) (val l) = l.
Proof.
  induction l as [|x l IH] using rev_ind; [reflexivity|].
  rewrite length_app, Nat.add_comm, val_snoc. simpl length.
  rewrite bits_of_S_double, IH. reflexivity.
Qed.

Lemma val_app_split (l1 l2 : list bool) :
  val (l1 ++ l2) / 2 ^ Z.of_nat (length l2) = val l1
  ∧ val (l1 ++ l2) mod 2 ^ Z.of_nat (length l2) = val l2.
Proof.
  rewrite val_app. pose proof (val_bound l2) as Hb.
  assert (0 < 2 ^ Z.of_nat (length l2)) by (apply Z.pow_pos_nonneg; lia).
  split.
  - rewrite Z.div_add_l, Z.div_small by lia. lia.
  - rewrite Z.add_comm, Z.mod_add by lia. apply Z.mod_small. lia.
Qed.

Lemma stream_snoc (n : nat) (vs : list Z) (v : Z) :
  stream n (vs ++ [v]) = stream n vs ++ bits_of n v.
Proof. unfold stream. rewrite map_app, concat_app. simpl. rewrite app_nil_r. reflexivity. Qed.

Lemma stream_app (n : nat) (vs vs' : list Z) :
  stream n (vs ++ vs') = stream n vs ++ stream n vs'.
Proof. unfold stream. rewrite map_app, concat_app. reflexivity. Qed.

Lemma stream_length (n : nat) (vs : list Z) : length (stream n vs) = (length vs * n)%nat.
Proof.
  induction vs as [|v vs IH]; [reflexivity|].
  unfold stream in *. simpl. rewrite length_app, bits_of_length, IH. reflexivity.
Qed.

Lemma stream8_prefix (l2 : list Z) :
  Forall is_u8 l2 →
  ∀ (l1 : list Z) (r1 r2 : list bool),
    Forall is_u8 l1 → (length l2 ≤ length l1)%nat →
    stream 8 l1 ++ r1 = stream 8 l2 ++ r2 →
    take (length l2) l1 = l2.
Proof.
  induction 1 as [|y l2 Hy _ IH]; intros l1 r1 r2 Hl1 Hlen Heq; [reflexivity|].
  destruct Hl1 as [|x l1 Hx Hl1]; [simpl in Hlen; lia|].
  change (stream 8 (x :: l1)) with (bits_of 8 x ++ stream 8 l1) in Heq.
  change (stream 8 (y :: l2)) with (bits_of 8 y ++ stream 8 l2) in Heq.
  rewrite <- !app_assoc in Heq.
  apply app_inj_1 in Heq as [Hxy Hrest]; [|rewrite !bits_of_length; reflexivity].
  apply (f_equal val) in Hxy. rewrite !val_bits_of in Hxy.
  unfold is_u8 in Hx, Hy. rewrite !Z.mod_small in Hxy by (simpl; lia).
  simpl. f_equal; [exact Hxy|]. apply (IH l1 r1 r2); [exact Hl1|simpl in Hlen; lia|exact Hrest].
Qed.

(** ** The cursor *)

Lemma isAlpha_nat (c : nat) : isAlpha (Z.of_nat c) = true ↔ (c mod 4 = 3)%nat.
Proof. unfold isAlpha. rewrite Z.eqb_eq. dlia. Qed.

Lemma isAlpha_nat_false (c : nat) : isAlpha (Z.of_nat c) = false ↔ (c mod 4 ≠ 3)%nat.
Proof. unfold isAlpha. rewrite Z.eqb_neq. dlia. Qed.

Lemma rgb_index_closed (n : nat) : rgb_index n = (4 + 4 * (n / 3) + n mod 3)%nat.
Proof.
  induction n as [|n IH]; [reflexivity|].
  cbn [rgb_index]. unfold next. destruct (isAlpha (Z.of_nat (S (rgb_index n)))) eqn:Ha.
  - apply isAlpha_nat in Ha. dlia.
  - apply isAlpha_nat_false in Ha. dlia.
Qed.

Lemma rgb_index_not_alpha (n : nat) : (rgb_index n mod 4 ≠ 3)%nat.
Proof. rewrite rgb_index_closed. dlia. Qed.

Lemma rgb_index_mono (k n : nat) : (k < n)%nat → (rgb_index k < rgb_index n)%nat.
Proof. rewrite !rgb_index_closed. dlia. Qed.

Lemma rgb_index_bound (n p : nat) : (n < 3 * p)%nat → (rgb_index n + 2 ≤ 4 * S p)%nat.
Proof. rewrite rgb_index_closed. dlia. Qed.

Lemma rgb_index_end (p : nat) : rgb_index (3 * p) = (4 * S p)%nat.
Proof. rewrite rgb_index_closed. dlia. Qed.

Lemma rgb_index_ge (n : nat) : (4 ≤ rgb_index n)%nat.
Proof. rewrite rgb_index_closed. lia. Qed.

Lemma payload_S (ch : list Z) (n : nat) :
  payload ch (S n) = payload ch n ++ [num_of (ch !! rgb_index n)].
Proof. unfold payload. rewrite seq_S, map_app. reflexivity. Qed.

Lemma payload_length (ch : list Z) (n : nat) : length (payload ch n) = n.
Proof. unfold payload. rewrite length_map, length_seq. reflexivity. Qed.

Lemma payload_ext (ch ch' : list Z) (n : nat) :
  (∀ k, (k < n)%nat → ch' !! rgb_index k = ch !! rgb_index k) →
  payload ch' n = payload ch n.
Proof.
  intros Hext. unfold payload. apply map_ext_in. intros k Hk.
  apply in_seq in Hk. rewrite Hext by lia. reflexivity.
Qed.

Lemma payload_prefix (ch : list Z) (n m : nat) :
  (n ≤ m)%nat → ∃ rest, payload ch m = payload ch n ++ rest.
Proof.
  intros Hnm. unfold payload.
  replace m with (n + (m - n))%nat by lia. rewrite seq_app, map_app. eauto.
Qed.

Lemma payload_shrink (ch ch' : list Z) (n : nat) :
  payload ch' (S n) = payload ch (S n) → payload ch' n = payload ch n.
Proof. rewrite !payload_S. intros Heq. apply app_inj_tail in Heq. tauto. Qed.

Lemma payload_u8 (ch : list Z) (n : nat) : Forall is_u8 ch → Forall is_u8 (payload ch n).
Proof.
  intros Hch. unfold payload. apply Forall_forall. intros v Hv.
  apply list_elem_of_In, in_map_iff in Hv as (k & <- & _).
  destruct (ch !! rgb_index k) as [c|] eqn:Hc; simpl; [|unfold is_u8; lia].
  rewrite Forall_lookup in Hch. exact (Hch _ _ Hc).
Qed.

(** ** Loops *)

Lemma while_stop {S : Type} (fuel : nat) (cond : S → bool) (body : S → S) (s : S) :
  cond s = false → while fuel cond body s = s.
Proof. intros Hc. destruct fuel; simpl; [|rewrite Hc]; reflexivity. Qed.

Lemma while_step {S : Type} (fuel : nat) (cond : S → bool) (body : S → S) (s : S) :
  cond s = true → while (Datatypes.S fuel) cond body s = while fuel cond body (body s).
Proof. intros Hc. simpl. rewrite Hc. reflexivity. Qed.

(** A loop whose body lowers a measure leaves with its condition false
    when the fuel covers the measure. *)
Lemma while_exit {S : Type} (m : S → nat) (cond : S → bool) (body : S → S) :
  (∀ s, cond s = true → (m (body s) < m s)%nat) →
  ∀ (fuel : nat) (s : S), (m s ≤ fuel)%nat → cond (while fuel cond body s) = false.
Proof.
  intros Hdec. induction fuel as [|fuel IH]; intros s Hm.
  - simpl. destruct (cond s) eqn:Hc; [|reflexivity].
    specialize (Hdec s Hc). lia.
  - simpl. destruct (cond s) eqn:Hc; [|exact Hc].
    apply IH. specialize (Hdec s Hc). lia.
Qed.

Lemma while_inv {S : Type} (P : S → Prop) (cond : S → bool) (body : S → S) :
  (∀ s, P s → P (body s)) → ∀ (fuel : nat) (s : S), P s → P (while fuel cond body s).
Proof.
  intros Hstep. induction fuel as [|fuel IH]; intros s Hs; simpl; [exact Hs|].
  destruct (cond s); [apply IH, Hstep, Hs|exact Hs].
Qed.

Lemma foldl_inv {A B : Type} (P : A → Prop) (f : A → B → A) :
  (∀ a x, P a → P (f a x)) → ∀ (l : list B) (a : A), P a → P (foldl f a l).
Proof.
  intros Hstep. induction l as [|x l IH]; intros a Ha; simpl; [exact Ha|].
  apply IH, Hstep, Ha.
Qed.

Lemma writeChannel_advances (data bits : Z) (s : World * nat) :
  (snd s < snd (writeChannel data bits s))%nat.
Proof.
  destruct s as [w c]. unfold writeChannel.
  destruct (isAlpha (Z.of_nat (S c))); simpl; lia.
Qed.

(** The three loops that run on fuel never run out of it: each leaves
    because its condition fails, on every input. *)
Lemma writeHeader_exit (bitsTaken : Z) (s : World * nat) :
  (3 ≤ snd (writeHeader bitsTaken s))%nat.
Proof.
  apply Nat.ltb_ge. unfold writeHeader.
  apply (while_exit (λ s, 3 - snd s)%nat (λ s, (snd s <? 3)%nat)); [|lia].
  intros s' Hc. apply Nat.ltb_lt in Hc.
  pose proof (writeChannel_advances (readBit (bitsTaken - 1) (8 - 3 + Z.of_nat (snd s'))) 1 s').
  lia.
Qed.

Lemma fillTrailing_exit (bitsTaken : Z) (channelsLen : nat) (s : World * nat) :
  (channelsLen ≤ snd (fillTrailing bitsTaken channelsLen s))%nat.
Proof.
  apply Nat.ltb_ge. unfold fillTrailing.
  apply (while_exit (λ s, channelsLen - snd s)%nat (λ s, (snd s <? channelsLen)%nat)); [|lia].
  intros s' Hc. apply Nat.ltb_lt in Hc. unfold fillChannel.
  destruct (getRandomByte (fst s')) as [w r].
  pose proof (writeChannel_advances (js_and r (2 ^ bitsTaken - 1)) bitsTaken (w, snd s')).
  simpl in *. lia.
Qed.

Lemma revealChannel_advances (ch : list Z) (bitsTaken mask : Z) (s : Reader) :
  (rd_channelId s < rd_channelId (revealChannel ch bitsTaken mask s))%nat.
Proof.
  unfold revealChannel.
  destruct (isAlpha (Z.of_nat (rd_channelId s))), (8 <=? rd_bufBits s + bitsTaken);
    simpl; lia.
Qed.

Lemma revealLoop_exit (ch : list Z) (bitsTaken mask : Z) (s : Reader) :
  (length ch ≤ rd_channelId
     (while (length ch) (λ s, (rd_channelId s <? length ch)%nat)
        (revealChannel ch bitsTaken mask) s))%nat.
Proof.
  apply Nat.ltb_ge.
  apply (while_exit (λ s, length ch - rd_channelId s)%nat
           (λ s, (rd_channelId s <? length ch)%nat)); [|lia].
  intros s' Hc. apply Nat.ltb_lt in Hc.
  pose proof (revealChannel_advances ch bitsTaken mask s'). lia.
Qed.

(** ** Writing *)

(** One [writeChannel] at a colour channel [c] of the buffer. *)
Lemma writeChannel_at (k : ArrayKind) (L : nat) (bits v : Z) (w : World) (c : nat) :
  Frame k L w c → (c mod 4 ≠ 3)%nat → (c + 2 ≤ L)%nat →
  1 ≤ bits ≤ 8 → 0 ≤ v < 2 ^ bits →
  ∃ w', writeChannel v bits (w, c) = (w', next c)
        ∧ Frame k L w' (next c)
        ∧ (∀ j, j ≠ c → (j mod 4 ≠ 3)%nat → channels w' !! j = channels w !! j)
        ∧ num_of (channels w' !! c) mod 2 ^ bits = v
        ∧ entropy w' = entropy w ∧ drawn w' = drawn w ∧ sealed w' = sealed w.
Proof.
  intros [Hk Hlen Hu8 Halpha] Hna Hc Hbits Hv.
  destruct (lookup_lt_is_Some_2 (channels w) c) as [curr Hcurr]; [lia|].
  assert (Hcu8 : is_u8 curr) by (rewrite Forall_lookup in Hu8; exact (Hu8 _ _ Hcurr)).
  destruct (store_merge (kind w) curr v bits Hcu8 Hbits Hv) as (Hst & Hmu8 & Hmod).
  set (m := curr / 2 ^ bits * 2 ^ bits + v) in *.
  unfold writeChannel. rewrite Hcurr. cbn [num_of].
  unfold next, set_channel. cbn [channels kind entropy drawn sealed]. rewrite Hst.
  destruct (isAlpha (Z.of_nat (S c))) eqn:Ha.
  - apply isAlpha_nat in Ha. eexists. split; [reflexivity|].
    cbn [channels kind entropy drawn sealed].
    split; [|split; [|split; [|auto]]].
    + constructor; cbn [channels kind].
      * exact Hk.
      * rewrite !length_insert. exact Hlen.
      * apply Forall_insert; [apply Forall_insert; assumption|apply store_256_u8].
      * intros i Hi HiL Hia. destruct (decide (i = S c)) as [->|Hne].
        -- rewrite list_lookup_insert_eq by (rewrite length_insert; lia).
           rewrite Hk. reflexivity.
        -- rewrite !list_lookup_insert_ne by lia. apply Halpha; lia.
    + intros j Hj Hja. rewrite !list_lookup_insert_ne by lia. reflexivity.
    + rewrite list_lookup_insert_ne by lia.
      rewrite list_lookup_insert_eq by lia. exact Hmod.
  - apply isAlpha_nat_false in Ha. eexists. split; [reflexivity|].
    cbn [channels kind entropy drawn sealed].
    split; [|split; [|split; [|auto]]].
    + constructor; cbn [channels kind].
      * exact Hk.
      * rewrite !length_insert. exact Hlen.
      * apply Forall_insert; assumption.
      * intros i Hi HiL Hia.
        rewrite !list_lookup_insert_ne by lia. apply Halpha; lia.
    + intros j Hj Hja. rewrite !list_lookup_insert_ne by lia. reflexivity.
    + rewrite list_lookup_insert_eq by lia. exact Hmod.
Qed.

(** One [writeChannel] at the [n]-th colour channel behind the first
    pixel: the header and the channels written before stay. *)
Lemma writeChannel_payload (k : ArrayKind) (p : nat) (bits v : Z) (w : World) (n : nat) :
  Frame k (4 * S p) w (rgb_index n) → (n < 3 * p)%nat →
  1 ≤ bits ≤ 8 → 0 ≤ v < 2 ^ bits →
  ∃ w', writeChannel v bits (w, rgb_index n) = (w', rgb_index (S n))
        ∧ Frame k (4 * S p) w' (rgb_index (S n))
        ∧ revealBitsTaken (channels w') = revealBitsTaken (channels w)
        ∧ payload (channels w') n = payload (channels w) n
        ∧ num_of (channels w' !! rgb_index n) mod 2 ^ bits = v
        ∧ entropy w' = entropy w ∧ drawn w' = drawn w ∧ sealed w' = sealed w.
Proof.
  intros Hf Hn Hbits Hv.
  pose proof (rgb_index_bound n p Hn) as Hc.
  pose proof (rgb_index_not_alpha n) as Hna.
  pose proof (rgb_index_ge n) as Hge.
  destruct (writeChannel_at k _ bits v w _ Hf Hna Hc Hbits Hv)
    as (w' & Hw & Hf' & Hkeep & Hmod & Hrest).
  exists w'. split; [exact Hw|]. split; [exact Hf'|].
  split; [|split; [|split; [exact Hmod|exact Hrest]]].
  - apply revealBitsTaken_ext. intros j Hj. apply Hkeep; [lia|dlia].
  - apply payload_ext. intros j Hj. pose proof (rgb_index_mono j n Hj).
    apply Hkeep; [lia|apply rgb_index_not_alpha].
Qed.

Lemma readBit_header (b : Z) : 1 ≤ b ≤ 8 →
  (readBit (b - 1) 5 = 0 ∨ readBit (b - 1) 5 = 1)
  ∧ (readBit (b - 1) 6 = 0 ∨ readBit (b - 1) 6 = 1)
  ∧ (readBit (b - 1) 7 = 0 ∨ readBit (b - 1) 7 = 1)
  ∧ 1 + 4 * readBit (b - 1) 5 + 2 * readBit (b - 1) 6 + readBit (b - 1) 7 = b.
Proof.
  intros Hb.
  assert (b = 1 ∨ b = 2 ∨ b = 3 ∨ b = 4 ∨ b = 5 ∨ b = 6 ∨ b = 7 ∨ b = 8) as Hcase by lia.
  destruct Hcase as [-> | [-> | [-> | [-> | [-> | [-> | [-> | ->]]]]]]];
    vm_compute; intuition congruence.
Qed.

(** The header phase: three one-bit writes, the blank in channel 3, and
    the cursor on channel 4. *)
Lemma writeHeader_frame (w : World) (b : Z) (p : nat) :
  Forall is_u8 (channels w) → length (channels w) = (4 * S p)%nat → 1 ≤ b ≤ 8 →
  ∃ w', writeHeader b (w, 0%nat) = (w', 4%nat)
        ∧ Frame (kind w) (4 * S p) w' 4
        ∧ revealBitsTaken (channels w') = Ok b
        ∧ entropy w' = entropy w ∧ drawn w' = drawn w ∧ sealed w' = sealed w.
Proof.
  intros Hu8 Hlen Hb.
  destruct (readBit_header b Hb) as (H5 & H6 & H7 & Hsum).
  assert (Hf0 : Frame (kind w) (4 * S p) w 0) by (constructor; auto; intros; lia).
  destruct (writeChannel_at _ _ 1 (readBit (b - 1) 5) w 0%nat Hf0)
    as (w1 & Hw1 & Hf1 & Hk1 & Hm1 & He1 & Hd1 & Hs1); [dlia|lia|lia|lia|].
  destruct (writeChannel_at _ _ 1 (readBit (b - 1) 6) w1 1%nat Hf1)
    as (w2 & Hw2 & Hf2 & Hk2 & Hm2 & He2 & Hd2 & Hs2); [dlia|lia|lia|lia|].
  destruct (writeChannel_at _ _ 1 (readBit (b - 1) 7) w2 2%nat Hf2)
    as (w3 & Hw3 & Hf3 & Hk3 & Hm3 & He3 & Hd3 & Hs3); [dlia|lia|lia|lia|].
  exists w3. unfold writeHeader. cbn [while snd Nat.ltb Nat.leb].
  change (8 - 3 + Z.of_nat 0) with 5. rewrite Hw1. cbn [snd next isAlpha].
  change (next 0) with 1%nat. cbn [snd Nat.ltb Nat.leb].
  change (8 - 3 + Z.of_nat 1) with 6. rewrite Hw2.
  change (next 1) with 2%nat. cbn [snd Nat.ltb Nat.leb].
  change (8 - 3 + Z.of_nat 2) with 7. rewrite Hw3.
  change (next 2) with 4%nat.
  split; [reflexivity|]. split; [exact Hf3|].
  split; [|rewrite He3, He2, He1, Hd3, Hd2, Hd1, Hs3, Hs2, Hs1; auto].
  rewrite revealBitsTaken_value.
  rewrite (Hk3 0%nat), (Hk2 0%nat), (Hk3 1%nat) by (lia || dlia).
  change (2 ^ 1) with 2 in Hm1, Hm2, Hm3. rewrite Hm1, Hm2, Hm3.
  f_equal. lia.
Qed.

(** Pushing a bit into the accumulator. *)
Lemma push_bit (acc : list bool) (x : bool) :
  (length acc < 8)%nat →
  js_or (js_shl (val acc) 1) (Z.b2z x) = val (acc ++ [x]).
Proof.
  intros Hl. pose proof (val_bound acc) as Hv.
  assert (2 ^ Z.of_nat (length acc) ≤ 2 ^ 8) by (apply Z.pow_le_mono_r; lia).
  assert (0 ≤ Z.b2z x < 2 ^ 1) by (destruct x; simpl; lia).
  rewrite js_shl_small by lia. rewrite js_or_small by (destruct x; simpl; lia).
  rewrite lor_disjoint by lia. rewrite val_snoc. change (2 ^ 1) with 2. lia.
Qed.

Lemma hideBit_inv k p b hdr w0 s bs (byte bit : Z) :
  1 ≤ b ≤ 8 → is_u8 byte → 0 ≤ bit ≤ 7 →
  WInv k p b hdr w0 s bs →
  Z.of_nat (length bs) + 1 ≤ Z.of_nat (3 * p) * b →
  WInv k p b hdr w0 (hideBit b byte s bit) (bs ++ [Z.testbit byte (7 - bit)]).
Proof.
  intros Hb Hbyte Hbit Hinv Hroom.
  destruct Hinv as (n & acc & Hf & Hh & Hc & Hbuf & Hbb & Hlt & Hbs & He & Hd & Hs).
  assert (Hlen : Z.of_nat (length bs) = Z.of_nat n * b + Z.of_nat (length acc)).
  { rewrite <- Hbs, length_app, stream_length, payload_length. nia. }
  unfold hideBit. rewrite (readBit_testbit byte bit Hbyte Hbit), Hbuf, Hbb.
  set (x := Z.testbit byte (7 - bit)).
  rewrite push_bit by lia.
  destruct (Z.of_nat (length acc) + 1 =? b) eqn:Hfull.
  - apply Z.eqb_eq in Hfull.
    assert (Hn : (n < 3 * p)%nat) by nia.
    assert (Hvb : 0 ≤ val (acc ++ [x]) < 2 ^ b).
    { pose proof (val_bound (acc ++ [x])) as Hv. rewrite length_app in Hv. simpl in Hv.
      replace (Z.of_nat (length acc + 1)) with b in Hv by lia. exact Hv. }
    rewrite Hc.
    destruct (writeChannel_payload k p b (val (acc ++ [x])) (wr_world s) n Hf Hn Hb Hvb)
      as (w' & Hw & Hf' & Hh' & Hpay & Hmod & He' & Hd' & Hs').
    rewrite Hw. exists (S n), []. cbn [wr_world channelId buf bufBits].
    split; [exact Hf'|]. split; [congruence|]. split; [reflexivity|].
    split; [reflexivity|]. split; [reflexivity|]. split; [simpl; lia|].
    split; [|split; [congruence|split; congruence]].
    rewrite app_nil_r, payload_S, stream_snoc, Hpay, <- Hbs, <- app_assoc. f_equal.
    rewrite <- bits_of_mod, Z2Nat.id, Hmod by lia.
    replace (Z.to_nat b) with (length (acc ++ [x])) by (rewrite length_app; simpl; lia).
    apply bits_of_val.
  - apply Z.eqb_neq in Hfull. exists n, (acc ++ [x]).
    cbn [wr_world channelId buf bufBits]. rewrite length_app. simpl length.
    split; [exact Hf|]. split; [exact Hh|]. split; [exact Hc|].
    split; [reflexivity|]. split; [lia|]. split; [lia|].
    split; [|auto]. rewrite app_assoc, Hbs. reflexivity.
Qed.

Lemma hideBits_inv k p b hdr w0 (byte : Z) (ps : list Z) :
  1 ≤ b ≤ 8 → is_u8 byte → Forall (λ i, 0 ≤ i ≤ 7) ps →
  ∀ s bs, WInv k p b hdr w0 s bs →
    Z.of_nat (length bs) + Z.of_nat (length ps) ≤ Z.of_nat (3 * p) * b →
    WInv k p b hdr w0 (foldl (hideBit b byte) s ps)
         (bs ++ map (λ i, Z.testbit byte (7 - i)) ps).
Proof.
  intros Hb Hbyte Hps. induction Hps as [|i ps Hi _ IH]; intros s bs Hinv Hroom.
  - simpl. rewrite app_nil_r. exact Hinv.
  - simpl in *. rewrite (cons_middle _ bs), app_assoc. apply IH.
    + apply hideBit_inv; auto. lia.
    + rewrite length_app. simpl. lia.
Qed.

Lemma hideByte_inv k p b hdr w0 s bs (byte : Z) :
  1 ≤ b ≤ 8 → is_u8 byte →
  WInv k p b hdr w0 s bs →
  Z.of_nat (length bs) + 8 ≤ Z.of_nat (3 * p) * b →
  WInv k p b hdr w0 (hideByte b s byte) (bs ++ bits_of 8 byte).
Proof.
  intros Hb Hbyte Hinv Hroom. unfold hideByte.
  change (bits_of 8 byte) with (map (λ i, Z.testbit byte (7 - i)) (seqZ 0 8)).
  apply hideBits_inv; [exact Hb|exact Hbyte| |exact Hinv| ].
  - apply Forall_forall. intros i Hi. apply elem_of_seqZ in Hi. lia.
  - rewrite length_seqZ. lia.
Qed.

Lemma hideBytes_inv k p b hdr w0 (hData : list Z) :
  1 ≤ b ≤ 8 → Forall is_u8 hData →
  ∀ s bs, WInv k p b hdr w0 s bs →
    Z.of_nat (length bs) + 8 * Z.of_nat (length hData) ≤ Z.of_nat (3 * p) * b →
    WInv k p b hdr w0 (hideBytes b hData s) (bs ++ stream 8 hData).
Proof.
  intros Hb Hu8. unfold hideBytes.
  induction Hu8 as [|byte hData Hbyte _ IH]; intros s bs Hinv Hroom.
  - simpl. rewrite app_nil_r. exact Hinv.
  - simpl foldl. change (stream 8 (byte :: hData)) with (bits_of 8 byte ++ stream 8 hData).
    rewrite app_assoc. simpl length in Hroom. apply IH.
    + apply hideByte_inv; auto. lia.
    + rewrite length_app, bits_of_length. lia.
Qed.

Lemma fillLeftover_spec (r : Z) (ps : list Z) :
  is_u8 r → Forall (λ i, 0 ≤ i ≤ 7) ps →
  ∀ acc, (length acc + length ps ≤ 8)%nat →
    fillLeftover r ps (val acc, Z.of_nat (length acc))
    = Ok (val (acc ++ map (λ i, Z.testbit r (7 - i)) ps),
          Z.of_nat (length acc + length ps)).
Proof.
  intros Hr Hps. induction Hps as [|i ps Hi _ IH]; intros acc Hl.
  - simpl. rewrite app_nil_r, Nat.add_0_r. reflexivity.
  - simpl in Hl. cbn [fillLeftover fst snd map].
    replace (7 <? i) with false by (symmetry; apply Z.ltb_ge; lia).
    rewrite (readBit_testbit r i Hr Hi), push_bit by lia.
    replace (Z.of_nat (length acc) + 1) with (Z.of_nat (length (acc ++ [Z.testbit r (7 - i)])))
      by (rewrite length_app; simpl; lia).
    rewrite IH by (rewrite length_app; simpl; lia).
    rewrite <- app_assoc, length_app. simpl. do 2 f_equal. lia.
Qed.

Lemma Frame_drawn (k : ArrayKind) (L : nat) (w : World) (c d : nat) :
  Frame k L w c → Frame k L (mkWorld (channels w) (kind w) (entropy w) d (sealed w)) c.
Proof. intros [H1 H2 H3 H4]. constructor; assumption. Qed.

(** The partial channel: what the accumulator holds is completed with
    random bits and written. *)
Lemma flushLeftover_spec k p b hdr w0 s bs :
  1 ≤ b ≤ 8 → WInv k p b hdr w0 s bs →
  Z.of_nat (length bs) ≤ Z.of_nat (3 * p) * b →
  ∃ w' (n : nat) (filler : list bool),
    flushLeftover b s (wr_world s) = (Ok (rgb_index n), w')
    ∧ Frame k (4 * S p) w' (rgb_index n)
    ∧ revealBitsTaken (channels w') = hdr
    ∧ (n ≤ 3 * p)%nat
    ∧ stream (Z.to_nat b) (payload (channels w') n) = bs ++ filler
    ∧ sealed w' = sealed w0.
Proof.
  intros Hb Hinv Hroom.
  destruct Hinv as (n & acc & Hf & Hh & Hc & Hbuf & Hbb & Hlt & Hbs & He & Hd & Hs).
  assert (Hlen : Z.of_nat (length bs) = Z.of_nat n * b + Z.of_nat (length acc)).
  { rewrite <- Hbs, length_app, stream_length, payload_length. nia. }
  unfold flushLeftover. rewrite Hbb.
  destruct (Z.of_nat (length acc) =? 0) eqn:Hz.
  - apply Z.eqb_eq in Hz. destruct acc; [|simpl in Hz; lia].
    exists (wr_world s), n, []. unfold mret, M_ret. rewrite Hc.
    split; [reflexivity|]. split; [exact Hf|]. split; [exact Hh|].
    split; [nia|]. split; [|exact Hs]. rewrite app_nil_r in *. exact Hbs.
  - apply Z.eqb_neq in Hz.
    assert (Hn : (n < 3 * p)%nat) by nia.
    set (r := entropy (wr_world s) (drawn (wr_world s)) mod 256).
    assert (Hr : is_u8 r) by (unfold is_u8, r; dlia).
    set (ps := seqZ 0 (b - Z.of_nat (length acc))).
    assert (Hps : Forall (λ i, 0 ≤ i ≤ 7) ps)
      by (apply Forall_forall; intros i Hi; apply elem_of_seqZ in Hi; lia).
    assert (Hpl : length ps = Z.to_nat (b - Z.of_nat (length acc)))
      by apply length_seqZ.
    set (rbits := map (λ i, Z.testbit r (7 - i)) ps).
    assert (Hvb : 0 ≤ val (acc ++ rbits) < 2 ^ b).
    { pose proof (val_bound (acc ++ rbits)) as Hv.
      rewrite length_app in Hv. unfold rbits in Hv. rewrite length_map, Hpl in Hv.
      replace (Z.of_nat (length acc + Z.to_nat (b - Z.of_nat (length acc)))) with b in Hv by lia.
      exact Hv. }
    pose proof (Frame_drawn _ _ _ _ (S (drawn (wr_world s))) Hf) as Hf1.
    destruct (writeChannel_payload k p b (val (acc ++ rbits)) _ n Hf1 Hn Hb Hvb)
      as (w' & Hw & Hf' & Hh' & Hpay & Hmod & He' & Hd' & Hs').
    exists w', (S n), rbits.
    unfold mbind, M_bind, step, lift, throw, getRandomByte. fold r. rewrite Hbuf.
    fold ps. rewrite (fillLeftover_spec r ps Hr Hps acc) by lia. fold rbits.
    cbn [fst snd]. rewrite Hpl.
    replace (Z.of_nat (length acc + Z.to_nat (b - Z.of_nat (length acc))) =? b) with true
      by (symmetry; apply Z.eqb_eq; lia).
    cbn [negb]. rewrite Hc, Hw.
    split; [reflexivity|]. split; [exact Hf'|].
    split; [rewrite Hh'; exact Hh|]. split; [lia|].
    split; [|rewrite Hs'; exact Hs].
    rewrite payload_S, stream_snoc, Hpay. cbn [channels].
    rewrite <- Hbs, <- app_assoc. f_equal.
    rewrite <- bits_of_mod, Z2Nat.id, Hmod by lia.
    replace (Z.to_nat b) with (length (acc ++ rbits))
      by (rewrite length_app; unfold rbits; rewrite length_map, Hpl; lia).
    apply bits_of_val.
Qed.

(** The trailing phase: random low bits in every colour channel that is
    left, up to the end of the buffer. *)
Lemma fillTrailing_spec k p b (k' : nat) :
  1 ≤ b ≤ 8 →
  ∀ (n fuel : nat) (w : World),
    (n + k' = 3 * p)%nat → (k' ≤ fuel)%nat →
    Frame k (4 * S p) w (rgb_index n) →
    ∃ w', while fuel (λ s, (snd s <? 4 * S p)%nat) (fillChannel b) (w, rgb_index n)
          = (w', (4 * S p)%nat)
          ∧ Frame k (4 * S p) w' (4 * S p)
          ∧ revealBitsTaken (channels w') = revealBitsTaken (channels w)
          ∧ payload (channels w') n = payload (channels w) n
          ∧ sealed w' = sealed w.
Proof.
  intros Hb. induction k' as [|k' IH]; intros n fuel w Hn Hfuel Hf.
  - replace n with (3 * p)%nat in * by lia. rewrite rgb_index_end in *.
    exists w. rewrite while_stop by (apply Nat.ltb_ge; simpl; lia). auto.
  - destruct fuel as [|fuel]; [lia|].
    assert (Hn' : (n < 3 * p)%nat) by lia.
    pose proof (rgb_index_bound n p Hn') as Hc.
    rewrite while_step by (apply Nat.ltb_lt; simpl; lia).
    set (r := entropy w (drawn w) mod 256).
    assert (Hr : 0 ≤ r < 256) by (unfold r; dlia).
    pose proof (pow2_le_256 b Hb) as Hp.
    assert (Hv : 0 ≤ js_and r (2 ^ b - 1) < 2 ^ b).
    { rewrite js_and_small by lia.
      replace (2 ^ b - 1) with (Z.ones b) by (rewrite Z.ones_equiv; lia).
      rewrite Z.land_ones by lia. apply Z.mod_pos_bound. lia. }
    pose proof (Frame_drawn _ _ _ _ (S (drawn w)) Hf) as Hf1.
    destruct (writeChannel_payload k p b _ _ n Hf1 Hn' Hb Hv)
      as (w1 & Hw & Hf' & Hh' & Hpay & Hmod & He' & Hd' & Hs').
    unfold fillChannel at 2. unfold getRandomByte. cbn [fst snd]. fold r. rewrite Hw.
    destruct (IH (S n) fuel w1) as (w' & Hloop & Hf'' & Hh'' & Hpay' & Hs''); [lia|lia|exact Hf'|].
    exists w'. split; [exact Hloop|]. split; [exact Hf''|].
    split; [rewrite Hh'', Hh'; reflexivity|].
    split; [|rewrite Hs'', Hs'; reflexivity].
    apply payload_shrink in Hpay'. rewrite Hpay', Hpay. reflexivity.
Qed.

(** The write sequence of [hideBlob] on a buffer of [p + 1] pixels: it
    ends on the length of the buffer, the header spells [bitsTaken], and
    the low bits of the colour channels behind the first pixel spell the
    payload, followed by filler. *)
Lemma hideBlob_write_spec (w : World) (hData : list Z) (b : Z) (p : nat) (cap : Capacity) :
  Forall is_u8 (channels w) → length (channels w) = (4 * S p)%nat →
  1 ≤ b ≤ 8 → Forall is_u8 hData →
  calcCapacity (channels w) b = Ok cap →
  Z.of_nat (length hData) ≤ bytes cap →
  ∃ w' (filler : list bool),
    hideBlob_write hData b w = (Ok (4 * S p)%nat, w')
    ∧ Frame (kind w) (4 * S p) w' (4 * S p)
    ∧ revealBitsTaken (channels w') = Ok b
    ∧ stream (Z.to_nat b) (payload (channels w') (3 * p)) = stream 8 hData ++ filler
    ∧ sealed w' = sealed w.
Proof.
  intros Hu8 Hlen Hb Hdata Hcap Hfit.
  destruct (calcCapacity_pixels _ b p Hlen Hb) as (cap' & Hcap' & Hbytes & _).
  rewrite Hcap in Hcap'. injection Hcap' as <-.
  assert (Hroom : 8 * Z.of_nat (length hData) ≤ Z.of_nat (3 * p) * b).
  { rewrite Hbytes in Hfit. dlia. }
  destruct (writeHeader_frame w b p Hu8 Hlen Hb) as (w1 & Hw1 & Hf1 & Hh1 & He1 & Hd1 & Hs1).
  assert (Hinv0 : WInv (kind w) p b (Ok b) w1 (mkWriter w1 4 0 0) []).
  { exists 0%nat, []. cbn [wr_world channelId buf bufBits rgb_index].
    split; [exact Hf1|]. split; [exact Hh1|].
    repeat split; try reflexivity; simpl; lia. }
  pose proof (hideBytes_inv _ _ _ _ _ hData Hb Hdata _ _ Hinv0) as Hinv.
  cbn [app length] in Hinv. specialize (Hinv ltac:(lia)).
  set (s := hideBytes b hData (mkWriter w1 4 0 0)) in *.
  destruct (flushLeftover_spec _ _ _ _ _ s _ Hb Hinv)
    as (w3 & n & filler & Hw3 & Hf3 & Hh3 & Hn & Hstr & Hs3).
  { rewrite stream_length. lia. }
  destruct (fillTrailing_spec (kind w) p b (3 * p - n) Hb n (4 * S p) w3)
    as (w4 & Hw4 & Hf4 & Hh4 & Hpay4 & Hs4); [lia|lia|exact Hf3|].
  destruct (payload_prefix (channels w4) n (3 * p) Hn) as [rest Hrest].
  exists w4, (filler ++ stream (Z.to_nat b) rest).
  split.
  - unfold hideBlob_write, mbind, M_bind, gets, lift, step, mret, M_ret, throw.
    rewrite (validateBits_ok b Hb), Hcap.
    replace (bytes cap <? Z.of_nat (length hData)) with false
      by (symmetry; apply Z.ltb_ge; lia).
    rewrite Hw1. fold s. rewrite Hw3. rewrite Hlen. unfold fillTrailing. rewrite Hw4.
    reflexivity.
  - split; [exact Hf4|]. split; [rewrite Hh4; exact Hh3|].
    split; [|rewrite Hs4, Hs3; exact Hs1].
    rewrite Hrest, stream_app, Hpay4, Hstr, <- app_assoc. reflexivity.
Qed.

(** ** What the writes keep *)

Lemma Keeps_refl (b : Z) (w : World) : Forall is_u8 (channels w) → Keeps b w w.
Proof. intros Hu. constructor; auto. Qed.

Lemma Keeps_trans (b : Z) (w0 w1 w2 : World) : Keeps b w0 w1 → Keeps b w1 w2 → Keeps b w0 w2.
Proof.
  intros [A1 A2 A3 A4 A5 A6] [B1 B2 B3 B4 B5 B6]. constructor; try congruence.
  intros i Hi. rewrite B6, A6 by assumption. reflexivity.
Qed.

Lemma Keeps_weaken (b1 b : Z) (w0 w : World) : 0 ≤ b1 ≤ b → Keeps b1 w0 w → Keeps b w0 w.
Proof.
  intros Hb [A1 A2 A3 A4 A5 A6]. constructor; try assumption.
  intros i Hi. specialize (A6 i Hi).
  replace b with (b1 + (b - b1)) by lia. rewrite Z.pow_add_r by lia.
  assert (0 < 2 ^ b1) by (apply Z.pow_pos_nonneg; lia).
  assert (0 < 2 ^ (b - b1)) by (apply Z.pow_pos_nonneg; lia).
  rewrite <- !Z.div_div by lia. rewrite A6. reflexivity.
Qed.

Lemma Keeps_drawn (b : Z) (w0 w : World) (d : nat) :
  Keeps b w0 w → Keeps b w0 (mkWorld (channels w) (kind w) (entropy w) d (sealed w)).
Proof. intros [A1 A2 A3 A4 A5 A6]. constructor; assumption. Qed.

Lemma num_of_u8 (ch : list Z) (i : nat) : Forall is_u8 ch → is_u8 (num_of (ch !! i)).
Proof.
  intros Hu. destruct (ch !! i) as [v|] eqn:Hv; simpl; [|unfold is_u8; lia].
  rewrite Forall_lookup in Hu. exact (Hu _ _ Hv).
Qed.

Lemma insert_high (b : Z) (ch : list Z) (i : nat) (x : Z) :
  (i mod 4 = 3)%nat ∨ x / 2 ^ b = num_of (ch !! i) / 2 ^ b →
  ∀ j, (j mod 4 ≠ 3)%nat → num_of (<[i := x]> ch !! j) / 2 ^ b = num_of (ch !! j) / 2 ^ b.
Proof.
  intros Hx j Hj. destruct (decide (j = i)) as [->|Hne].
  - destruct Hx as [|Hx]; [lia|].
    destruct (decide (i < length ch)%nat) as [Hl|Hl].
    + rewrite list_lookup_insert_eq by exact Hl. exact Hx.
    + rewrite list_insert_ge by lia. reflexivity.
  - rewrite list_lookup_insert_ne by congruence. reflexivity.
Qed.

(** One [writeChannel], wherever the cursor stands: the colour channel
    keeps the bits above the [bits] it was given, the alpha channel that
    may follow is not a colour channel, and a store outside the buffer is
    ignored. *)
Lemma writeChannel_keeps (b bits v : Z) (w : World) (c : nat) :
  Forall is_u8 (channels w) → 1 ≤ bits ≤ b → b ≤ 8 → 0 ≤ v < 2 ^ bits →
  Keeps b w (fst (writeChannel v bits (w, c)))
  ∧ (c < snd (writeChannel v bits (w, c)))%nat
  ∧ ∀ j, (j < c)%nat → channels (fst (writeChannel v bits (w, c))) !! j = channels w !! j.
Proof.
  intros Hu Hbits Hb Hv.
  pose proof (num_of_u8 (channels w) c Hu) as Hcu.
  set (curr := num_of (channels w !! c)) in *.
  destruct (store_merge (kind w) curr v bits Hcu ltac:(lia) Hv) as (Hst & Hmu8 & _).
  assert (Hp : 0 < 2 ^ bits) by (apply Z.pow_pos_nonneg; lia).
  assert (Hhigh : (curr / 2 ^ bits * 2 ^ bits + v) / 2 ^ bits = curr / 2 ^ bits).
  { rewrite Z.div_add_l, (Z.div_small v) by lia. lia. }
  assert (Hk1 : Keeps b w (set_channel w c (js_or (clearBits curr bits) v))).
  { unfold set_channel. rewrite Hst. constructor; cbn [channels kind entropy sealed]; auto.
    - apply length_insert.
    - apply Forall_insert; assumption.
    - apply insert_high. right.
      replace b with (bits + (b - bits)) by lia. rewrite Z.pow_add_r by lia.
      assert (0 < 2 ^ (b - bits)) by (apply Z.pow_pos_nonneg; lia).
      rewrite <- !Z.div_div by lia. rewrite Hhigh. reflexivity. }
  unfold writeChannel. fold curr.
  set (w1 := set_channel w c (js_or (clearBits curr bits) v)) in *.
  assert (Hlow1 : ∀ j, (j < c)%nat → channels w1 !! j = channels w !! j).
  { intros j Hj. unfold w1, set_channel. cbn [channels].
    apply list_lookup_insert_ne. lia. }
  destruct (isAlpha (Z.of_nat (S c))) eqn:Ha; cbn [fst snd].
  - apply isAlpha_nat in Ha. split; [|split; [lia|]].
    + apply (Keeps_trans b w w1); [exact Hk1|].
      destruct Hk1 as [A1 A2 A3 A4 A5 A6].
      unfold set_channel. constructor; cbn [channels kind entropy sealed]; auto.
      * apply length_insert.
      * apply Forall_insert; [assumption|apply store_256_u8].
      * apply insert_high. left. exact Ha.
    + intros j Hj. unfold set_channel at 1. cbn [channels].
      rewrite list_lookup_insert_ne by lia. apply Hlow1, Hj.
  - split; [exact Hk1|]. split; [lia|exact Hlow1].
Qed.

Lemma CKeeps_write (b v : Z) (w0 : World) (s : World * nat) :
  1 ≤ b ≤ 8 → 0 ≤ v < 2 ^ b → CKeeps b w0 s → CKeeps b w0 (writeChannel v b s).
Proof.
  intros Hb Hv (Hk & Hc & Hh). destruct s as [w c]. cbn [fst snd] in *.
  destruct (writeChannel_keeps b b v w c (keeps_u8 _ _ _ Hk) ltac:(lia) ltac:(lia) Hv)
    as (Hk' & Hc' & Hlow).
  split; [exact (Keeps_trans _ _ _ _ Hk Hk')|]. split; [lia|].
  intros j Hj. rewrite Hlow by lia. apply Hh, Hj.
Qed.

Lemma push_any_bit (buf n r : Z) :
  0 ≤ n < 8 → 0 ≤ buf < 2 ^ n → r = 0 ∨ r = 1 →
  js_or (js_shl buf 1) r = 2 * buf + r ∧ 0 ≤ 2 * buf + r < 2 ^ (n + 1).
Proof.
  intros Hn Hbuf Hr.
  assert (2 ^ n ≤ 2 ^ 7) by (apply Z.pow_le_mono_r; lia).
  rewrite js_shl_small by lia. rewrite js_or_small by lia.
  rewrite lor_disjoint by lia. rewrite Z.pow_add_r by lia. lia.
Qed.

Lemma hideBit_keeps (b : Z) (w0 : World) (byte : Z) (s : Writer) (bit : Z) :
  1 ≤ b ≤ 8 → WKeeps b w0 s → WKeeps b w0 (hideBit b byte s bit).
Proof.
  intros Hb (Hk & Hc & Hh & Hn & Hbuf).
  destruct (push_any_bit (buf s) (bufBits s) (readBit byte bit) ltac:(lia) Hbuf
              (readBit_bit byte bit)) as [Hpush Hrange].
  unfold hideBit. rewrite Hpush.
  destruct (Z.eqb_spec (bufBits s + 1) b) as [Hfull|Hfull].
  - rewrite Hfull in Hrange.
    pose proof (CKeeps_write b (2 * buf s + readBit byte bit) w0 (wr_world s, channelId s)
                  Hb Hrange (conj Hk (conj Hc Hh))) as (Hk' & Hc' & Hh').
    destruct (writeChannel _ b (wr_world s, channelId s)) as [w' c'].
    cbn [fst snd] in *. split; [exact Hk'|]. split; [exact Hc'|]. split; [exact Hh'|].
    cbn [buf bufBits]. simpl. lia.
  - split; [exact Hk|]. split; [exact Hc|]. split; [exact Hh|].
    cbn [buf bufBits]. lia.
Qed.

Lemma hideBytes_keeps (b : Z) (w0 : World) (hData : list Z) (s : Writer) :
  1 ≤ b ≤ 8 → WKeeps b w0 s → WKeeps b w0 (hideBytes b hData s).
Proof.
  intros Hb. unfold hideBytes. revert s. apply foldl_inv.
  intros s byte Hs. unfold hideByte. revert Hs. generalize (seqZ 0 8). intros l Hs.
  revert s Hs. apply foldl_inv. intros s bit Hs. apply hideBit_keeps; assumption.
Qed.

(** The partial channel never throws: between 1 and 7 random bits are
    wanted, and they complete the accumulator. *)
Lemma flushLeftover_keeps (b : Z) (w0 : World) (s : Writer) :
  1 ≤ b ≤ 8 → WKeeps b w0 s →
  ∃ (c : nat) (w' : World),
    flushLeftover b s (wr_world s) = (Ok c, w') ∧ CKeeps b w0 (w', c).
Proof.
  intros Hb (Hk & Hc & Hh & Hn & Hbuf). unfold flushLeftover.
  destruct (Z.eqb_spec (bufBits s) 0) as [Hz|Hz].
  - exists (channelId s), (wr_world s). split; [reflexivity|].
    split; [exact Hk|]. split; [exact Hc|exact Hh].
  - set (r := entropy (wr_world s) (drawn (wr_world s)) mod 256).
    assert (Hr : is_u8 r) by (unfold is_u8, r; dlia).
    set (acc := bits_of (Z.to_nat (bufBits s)) (buf s)).
    assert (Hacc : val acc = buf s).
    { unfold acc. rewrite val_bits_of, Z2Nat.id by lia. apply Z.mod_small. exact Hbuf. }
    assert (Hal : Z.of_nat (length acc) = bufBits s)
      by (unfold acc; rewrite bits_of_length; lia).
    set (ps := seqZ 0 (b - bufBits s)).
    assert (Hps : Forall (λ i, 0 ≤ i ≤ 7) ps)
      by (apply Forall_forall; intros i Hi; apply elem_of_seqZ in Hi; lia).
    assert (Hpl : length ps = Z.to_nat (b - bufBits s)) by apply length_seqZ.
    set (rbits := map (λ i, Z.testbit r (7 - i)) ps).
    assert (Hvb : 0 ≤ val (acc ++ rbits) < 2 ^ b).
    { pose proof (val_bound (acc ++ rbits)) as Hv.
      rewrite length_app in Hv. unfold rbits in Hv. rewrite length_map, Hpl in Hv.
      replace (Z.of_nat (length acc + Z.to_nat (b - bufBits s))) with b in Hv by lia.
      exact Hv. }
    set (w1 := mkWorld (channels (wr_world s)) (kind (wr_world s)) (entropy (wr_world s))
                 (S (drawn (wr_world s))) (sealed (wr_world s))).
    assert (Hk1 : CKeeps b w0 (w1, channelId s)).
    { split; [apply Keeps_drawn, Hk|]. split; [exact Hc|exact Hh]. }
    pose proof (CKeeps_write b (val (acc ++ rbits)) w0 (w1, channelId s) Hb Hvb Hk1) as Hk2.
    destruct (writeChannel (val (acc ++ rbits)) b (w1, channelId s)) as [w' c'] eqn:Hw.
    exists c', w'. split; [|exact Hk2].
    unfold mbind, M_bind, step, lift, throw, getRandomByte. fold r. fold w1.
    rewrite <- Hacc, <- Hal at 1. fold ps.
    rewrite (fillLeftover_spec r ps Hr Hps acc) by lia. fold rbits.
    cbn [fst snd]. rewrite Hpl.
    replace (Z.of_nat (length acc + Z.to_nat (b - bufBits s)) =? b) with true
      by (symmetry; apply Z.eqb_eq; lia).
    cbn [negb]. rewrite Hw. reflexivity.
Qed.

Lemma fillChannel_keeps (b : Z) (w0 : World) (s : World * nat) :
  1 ≤ b ≤ 8 → CKeeps b w0 s → CKeeps b w0 (fillChannel b s).
Proof.
  intros Hb (Hk & Hc & Hh). unfold fillChannel, getRandomByte.
  set (r := entropy (fst s) (drawn (fst s)) mod 256).
  assert (Hr : 0 ≤ r < 256) by (unfold r; dlia).
  pose proof (pow2_le_256 b Hb) as Hp.
  assert (Hv : 0 ≤ js_and r (2 ^ b - 1) < 2 ^ b).
  { rewrite js_and_small by lia. rewrite land_low by lia. apply Z.mod_pos_bound. lia. }
  apply CKeeps_write; [exact Hb|exact Hv|].
  split; [apply Keeps_drawn, Hk|]. split; [exact Hc|exact Hh].
Qed.

(** The header phase on any buffer: three writes of one bit. *)
Lemma writeHeader_keeps (b : Z) (w : World) :
  Forall is_u8 (channels w) →
  Keeps 1 w (fst (writeHeader b (w, 0%nat))).
Proof.
  intros Hu. unfold writeHeader.
  apply (while_inv (λ s : World * nat, Keeps 1 w (fst s))); [|apply Keeps_refl, Hu].
  intros [w1 c] Hk. cbn [fst snd] in *.
  assert (Hv : 0 ≤ readBit (b - 1) (8 - 3 + Z.of_nat c) < 2 ^ 1)
    by (destruct (readBit_bit (b - 1) (8 - 3 + Z.of_nat c)) as [-> | ->]; lia).
  destruct (writeChannel_keeps 1 1 _ w1 c (keeps_u8 _ _ _ Hk) ltac:(lia) ltac:(lia) Hv)
    as (Hk' & _).
  exact (Keeps_trans _ _ _ _ Hk Hk').
Qed.

(** The write sequence of [hideBlob] on any buffer of bytes: it throws
    the capacity error before it writes, or it runs to the end. *)
Lemma hideBlob_write_keeps (w : World) (hData : list Z) (b : Z) (cap : Capacity) :
  Forall is_u8 (channels w) → calcCapacity (channels w) b = Ok cap →
  ∃ (r : result nat) (w' : World),
    hideBlob_write hData b w = (r, w')
    ∧ Keeps b w w'
    ∧ (∀ i, (i < 3)%nat → num_of (channels w' !! i) / 2 = num_of (channels w !! i) / 2)
    ∧ (bytes cap < Z.of_nat (length hData) → r = Err BlobTooLarge ∧ w' = w)
    ∧ (Z.of_nat (length hData) ≤ bytes cap →
       ∃ c, r = Ok c ∧ (length (channels w) ≤ c)%nat).
Proof.
  intros Hu Hcap. pose proof (calcCapacity_bits _ _ _ Hcap) as Hb.
  unfold hideBlob_write, mbind, M_bind, gets, lift, step, mret, M_ret, throw.
  rewrite (validateBits_ok b Hb), Hcap.
  destruct (Z.ltb_spec (bytes cap) (Z.of_nat (length hData))) as [Hbig|Hfit].
  { exists (Err BlobTooLarge), w. split; [reflexivity|].
    split; [apply Keeps_refl, Hu|]. split; [reflexivity|]. split; [auto|lia]. }
  pose proof (writeHeader_keeps b w Hu) as Hk1.
  pose proof (writeHeader_exit b (w, 0%nat)) as Hc1.
  destruct (writeHeader b (w, 0%nat)) as [w1 c1]. cbn [fst snd] in *.
  assert (Hs0 : WKeeps b w1 (mkWriter w1 c1 0 0)).
  { split; [apply Keeps_refl, (keeps_u8 _ _ _ Hk1)|].
    cbn [wr_world channelId buf bufBits]. repeat split; auto; lia. }
  pose proof (hideBytes_keeps b w1 hData _ Hb Hs0) as Hs.
  set (s := hideBytes b hData (mkWriter w1 c1 0 0)) in *.
  destruct (flushLeftover_keeps b w1 s Hb Hs) as (c3 & w3 & Hw3 & Hk3).
  rewrite Hw3.
  pose proof (while_inv (CKeeps b w1) (λ s, (snd s <? length (channels w))%nat)
                (fillChannel b) (λ s, fillChannel_keeps b w1 s Hb)
                (length (channels w)) (w3, c3) Hk3) as Hk4.
  pose proof (fillTrailing_exit b (length (channels w)) (w3, c3)) as Hc4.
  unfold fillTrailing in *.
  destruct (while _ _ _ (w3, c3)) as [w4 c4]. cbn [fst snd] in *.
  destruct Hk4 as (Hk4 & _ & Hh4). cbn [fst snd] in *.
  exists (Ok c4), w4. split; [reflexivity|].
  split; [|split; [|split; [lia|eauto]]].
  - apply (Keeps_trans b w w1 w4); [|exact Hk4]. apply (Keeps_weaken 1); [lia|exact Hk1].
  - intros i Hi. rewrite (Hh4 i Hi).
    change 2 with (2 ^ 1). apply (keeps_high _ _ _ Hk1). dlia.
Qed.

(** X12.  [hideBlob] changes a colour channel in its [bitsTaken] low bits
    only, and channels 0 to 2 in their lowest bit only.  On every buffer
    of bytes, of whatever length, in the image it returns, or in the
    buffer it leaves when it throws, each colour channel has the value it
    had, shifted right by [bitsTaken]; the length is the same and every
    channel is a byte. *)
Theorem hideBlob_keeps_high_bits (w : World) (hData : list Z) (bitsTaken : Z)
    (r : result (list Z)) (w' : World) :
  wf_world w → 1 ≤ bitsTaken ≤ 8 →
  hideBlob hData bitsTaken w = (r, w') →
  let after := match r with Ok image => image | Err _ => channels w' end in
  length after = length (channels w)
  ∧ Forall is_u8 after
  ∧ ∀ i, (i mod 4 ≠ 3)%nat →
      num_of (after !! i) / 2 ^ bitsTaken = num_of (channels w !! i) / 2 ^ bitsTaken
      ∧ ((i < 3)%nat → num_of (after !! i) / 2 = num_of (channels w !! i) / 2).
Proof.
  intros Hwf Hb Hrun.
  destruct (calcCapacity_bytes (channels w) bitsTaken Hb) as (cap & Hcap & _).
  destruct (hideBlob_write_keeps w hData bitsTaken cap Hwf Hcap)
    as (r1 & w1 & Hw & Hk & Hh & _).
  assert (Hafter : match r with Ok image => image | Err _ => channels w' end = channels w1).
  { unfold hideBlob, mbind, M_bind, gets, throw in Hrun. rewrite Hw in Hrun.
    destruct r1 as [c|e]; [destruct (negb (c =? length (channels w))%nat)|];
      injection Hrun as <- <-; reflexivity. }
  cbv zeta. rewrite Hafter. destruct Hk as [A1 A2 A3 A4 A5 A6].
  split; [exact A2|]. split; [exact A3|].
  intros i Hi. split; [apply A6, Hi|]. intros Hi3. apply Hh, Hi3.
Qed.

(** X13.  The write sequence of [hideBlob], on a buffer of bytes of
    whatever length, throws in three ways only: the bits error (when
    [bitsTaken] is outside 1..8) and the capacity error (when the payload
    is longer than [capacity.bytes]), both before the first write, and the
    cursor error.  The two throws marked "Should not happen" ('Need more
    than 7 random bits', 'bufBits !== bitsTaken') are never reached. *)
Theorem hideBlob_throws (w : World) (hData : list Z) (bitsTaken : Z) :
  wf_world w →
  (¬ 1 ≤ bitsTaken ≤ 8 → hideBlob hData bitsTaken w = (Err BitsOutOfRange, w))
  ∧ (∀ cap, calcCapacity (channels w) bitsTaken = Ok cap →
       bytes cap < Z.of_nat (length hData) →
       hideBlob hData bitsTaken w = (Err BlobTooLarge, w))
  ∧ (∀ cap, calcCapacity (channels w) bitsTaken = Ok cap →
       Z.of_nat (length hData) ≤ bytes cap →
       (∃ image w', hideBlob hData bitsTaken w = (Ok image, w'))
       ∨ (∃ w', hideBlob hData bitsTaken w = (Err CursorMismatch, w')))
  ∧ fst (hideBlob hData bitsTaken w) ≠ Err NeedMoreRandomBits
  ∧ fst (hideBlob hData bitsTaken w) ≠ Err BufBitsMismatch.
Proof.
  intros Hwf.
  assert (Hbad : ¬ 1 ≤ bitsTaken ≤ 8 → hideBlob hData bitsTaken w = (Err BitsOutOfRange, w)).
  { intros Hb. unfold hideBlob, hideBlob_write, mbind, M_bind, gets, lift.
    rewrite (validateBits_err _ Hb). reflexivity. }
  assert (Hcases : ∀ cap, calcCapacity (channels w) bitsTaken = Ok cap →
            (bytes cap < Z.of_nat (length hData) →
             hideBlob hData bitsTaken w = (Err BlobTooLarge, w))
            ∧ (Z.of_nat (length hData) ≤ bytes cap →
               (∃ image w', hideBlob hData bitsTaken w = (Ok image, w'))
               ∨ (∃ w', hideBlob hData bitsTaken w = (Err CursorMismatch, w')))).
  { intros cap Hcap.
    destruct (hideBlob_write_keeps w hData bitsTaken cap Hwf Hcap)
      as (r & w' & Hw & _ & _ & Hbig & Hfit).
    unfold hideBlob, mbind, M_bind, gets, throw. rewrite Hw. split.
    - intros Hl. destruct (Hbig Hl) as [-> ->]. reflexivity.
    - intros Hl. destruct (Hfit Hl) as (c & -> & _).
      destruct (negb (c =? length (channels w))%nat); eauto. }
  split; [exact Hbad|]. split; [intros cap Hcap; apply (Hcases cap Hcap)|].
  split; [intros cap Hcap; apply (Hcases cap Hcap)|].
  destruct (decide (1 ≤ bitsTaken ≤ 8)) as [Hb|Hb].
  - destruct (calcCapacity_bytes (channels w) bitsTaken Hb) as (cap & Hcap & _).
    destruct (Hcases cap Hcap) as [Hbig Hfit].
    destruct (Z.lt_ge_cases (bytes cap) (Z.of_nat (length hData))) as [Hl|Hl].
    + rewrite (Hbig Hl). split; discriminate.
    + destruct (Hfit Hl) as [(image & w' & ->)|[w' ->]]; split; discriminate.
  - rewrite (Hbad Hb). split; discriminate.
Qed.

(** ** The random fill *)

Lemma mod_256_low (x b : Z) : 1 ≤ b ≤ 8 → (x mod 256) mod 2 ^ b = x mod 2 ^ b.
Proof.
  intros Hb. apply Z.mod_mod_divide.
  exists (2 ^ (8 - b)). rewrite <- Z.pow_add_r by lia.
  replace (8 - b + b) with 8 by lia. reflexivity.
Qed.

Lemma payload_last (ch ch' : list Z) (n : nat) :
  payload ch' (S n) = payload ch (S n) →
  num_of (ch' !! rgb_index n) = num_of (ch !! rgb_index n).
Proof.
  rewrite !payload_S. intros Heq. apply app_inj_tail in Heq as [_ Heq]. exact Heq.
Qed.

(** The leading bits of a byte, as [readBit] numbers them. *)
Lemma leading_bits (r m : Z) :
  is_u8 r → 0 ≤ m ≤ 8 →
  val (map (λ i, Z.testbit r (7 - i)) (seqZ 0 m)) = r / 2 ^ (8 - m).
Proof.
  intros Hr Hm.
  assert (Hsplit : bits_of 8 r = map (λ i, Z.testbit r (7 - i)) (seqZ 0 m)
                                 ++ map (λ i, Z.testbit r (7 - i)) (seqZ m (8 - m))).
  { change (bits_of 8 r) with (map (λ i, Z.testbit r (7 - i)) (seqZ 0 8)).
    rewrite <- map_app. f_equal. replace 8 with (m + (8 - m)) at 1 by lia.
    apply seqZ_app; lia. }
  destruct (val_app_split (map (λ i, Z.testbit r (7 - i)) (seqZ 0 m))
              (map (λ i, Z.testbit r (7 - i)) (seqZ m (8 - m)))) as [Hdiv _].
  rewrite <- Hsplit, val_bits_of, length_map, length_seqZ in Hdiv.
  rewrite Z2Nat.id in Hdiv by lia. unfold is_u8 in Hr.
  rewrite Z.mod_small in Hdiv by (simpl; lia). symmetry. exact Hdiv.
Qed.

(** The partial channel, with the random byte it draws. *)
Lemma flushLeftover_draws k p b hdr w0 s bs :
  1 ≤ b ≤ 8 → WInv k p b hdr w0 s bs →
  Z.of_nat (length bs) ≤ Z.of_nat (3 * p) * b →
  let used := Z.to_nat (Z.of_nat (length bs) / b) in
  let left := Z.of_nat (length bs) mod b in
  ∃ w' (n : nat),
    flushLeftover b s (wr_world s) = (Ok (rgb_index n), w')
    ∧ Frame k (4 * S p) w' (rgb_index n)
    ∧ entropy w' = entropy w0
    ∧ (used ≤ n ≤ 3 * p)%nat
    ∧ (left = 0 → n = used ∧ drawn w' = drawn w0)
    ∧ (left ≠ 0 →
       n = S used ∧ drawn w' = S (drawn w0)
       ∧ num_of (channels w' !! rgb_index used) mod 2 ^ (b - left)
         = (entropy w0 (drawn w0) mod 256) / 2 ^ (8 - (b - left))).
Proof.
  intros Hb Hinv Hroom used left.
  destruct Hinv as (n & acc & Hf & Hh & Hc & Hbuf & Hbb & Hlt & Hbs & He & Hd & Hs).
  assert (Hlen : Z.of_nat (length bs) = Z.of_nat n * b + Z.of_nat (length acc)).
  { rewrite <- Hbs, length_app, stream_length, payload_length. nia. }
  assert (Hused : used = n).
  { unfold used. rewrite Hlen, Z.div_add_l, Z.div_small by lia. lia. }
  assert (Hleft : left = Z.of_nat (length acc)).
  { unfold left. rewrite Hlen, Z.add_comm, Z.mod_add by lia. apply Z.mod_small. lia. }
  clearbody used left. subst used left.
  unfold flushLeftover. rewrite Hbb.
  destruct (Z.of_nat (length acc) =? 0) eqn:Hz.
  - apply Z.eqb_eq in Hz. exists (wr_world s), n. unfold mret, M_ret. rewrite Hc.
    split; [reflexivity|]. split; [exact Hf|]. split; [exact He|]. split; [nia|].
    split; [auto|]. intros Hne. lia.
  - apply Z.eqb_neq in Hz.
    assert (Hn : (n < 3 * p)%nat) by nia.
    set (r := entropy (wr_world s) (drawn (wr_world s)) mod 256).
    assert (Hr : is_u8 r) by (unfold is_u8, r; dlia).
    set (m := b - Z.of_nat (length acc)).
    set (ps := seqZ 0 m).
    assert (Hps : Forall (λ i, 0 ≤ i ≤ 7) ps)
      by (apply Forall_forall; intros i Hi; apply elem_of_seqZ in Hi; unfold m in Hi; lia).
    assert (Hpl : length ps = Z.to_nat m) by apply length_seqZ.
    set (rbits := map (λ i, Z.testbit r (7 - i)) ps).
    assert (Hrl : Z.of_nat (length rbits) = m)
      by (unfold rbits; rewrite length_map, Hpl; unfold m; lia).
    assert (Hvb : 0 ≤ val (acc ++ rbits) < 2 ^ b).
    { pose proof (val_bound (acc ++ rbits)) as Hv. rewrite length_app in Hv.
      replace (Z.of_nat (length acc + length rbits)) with b in Hv by (unfold m in Hrl; lia).
      exact Hv. }
    pose proof (Frame_drawn _ _ _ _ (S (drawn (wr_world s))) Hf) as Hf1.
    destruct (writeChannel_payload k p b (val (acc ++ rbits)) _ n Hf1 Hn Hb Hvb)
      as (w' & Hw & Hf' & Hh' & Hpay & Hmod & He' & Hd' & Hs').
    exists w', (S n).
    unfold mbind, M_bind, step, lift, throw, getRandomByte. fold r. rewrite Hbuf.
    fold m. fold ps. rewrite (fillLeftover_spec r ps Hr Hps acc) by (unfold m in Hpl; lia).
    fold rbits. cbn [fst snd]. rewrite Hpl.
    replace (Z.of_nat (length acc + Z.to_nat m) =? b) with true
      by (symmetry; apply Z.eqb_eq; unfold m; lia).
    cbn [negb]. rewrite Hc, Hw.
    split; [reflexivity|]. split; [exact Hf'|].
    split; [rewrite He'; exact He|]. split; [lia|].
    split; [intros H0; lia|]. intros _. split; [reflexivity|].
    split; [rewrite Hd'; cbn [drawn]; rewrite Hd; reflexivity|].
    cbn [channels] in Hmod.
    assert (Hlow : num_of (channels w' !! rgb_index n) mod 2 ^ m = val rbits).
    { destruct (val_app_split acc rbits) as [_ Hm']. rewrite Hrl in Hm'.
      rewrite <- Hm', <- Hmod. symmetry. apply Z.mod_mod_divide.
      exists (2 ^ Z.of_nat (length acc)). rewrite <- Z.pow_add_r by (unfold m; lia).
      f_equal. unfold m. lia. }
    rewrite Hlow. unfold rbits, ps. rewrite (leading_bits r m Hr) by (unfold m; lia).
    unfold r. rewrite He, Hd. reflexivity.
Qed.

(** The trailing phase, with the random bytes it draws: one for each
    colour channel that is left. *)
Lemma fillTrailing_draws k p b (j : nat) :
  1 ≤ b ≤ 8 →
  ∀ (n fuel : nat) (w : World),
    (n + j = 3 * p)%nat → (j ≤ fuel)%nat →
    Frame k (4 * S p) w (rgb_index n) →
    ∃ w', while fuel (λ s, (snd s <? 4 * S p)%nat) (fillChannel b) (w, rgb_index n)
          = (w', (4 * S p)%nat)
          ∧ entropy w' = entropy w
          ∧ drawn w' = (drawn w + j)%nat
          ∧ payload (channels w') n = payload (channels w) n
          ∧ ∀ i, (n ≤ i < 3 * p)%nat →
              num_of (channels w' !! rgb_index i) mod 2 ^ b
              = entropy w (drawn w + (i - n))%nat mod 2 ^ b.
Proof.
  intros Hb. induction j as [|j IH]; intros n fuel w Hn Hfuel Hf.
  - replace n with (3 * p)%nat in * by lia. rewrite rgb_index_end in *.
    exists w. rewrite while_stop by (apply Nat.ltb_ge; simpl; lia).
    split; [reflexivity|]. split; [reflexivity|]. split; [lia|]. split; [reflexivity|].
    intros i Hi. lia.
  - destruct fuel as [|fuel]; [lia|].
    assert (Hn' : (n < 3 * p)%nat) by lia.
    pose proof (rgb_index_bound n p Hn') as Hc.
    rewrite while_step by (apply Nat.ltb_lt; simpl; lia).
    set (r := entropy w (drawn w) mod 256).
    assert (Hr : 0 ≤ r < 256) by (unfold r; dlia).
    pose proof (pow2_le_256 b Hb) as Hp.
    assert (Hand : js_and r (2 ^ b - 1) = r mod 2 ^ b).
    { rewrite js_and_small by lia. apply land_low. lia. }
    assert (Hv : 0 ≤ js_and r (2 ^ b - 1) < 2 ^ b).
    { rewrite Hand. apply Z.mod_pos_bound. lia. }
    pose proof (Frame_drawn _ _ _ _ (S (drawn w)) Hf) as Hf1.
    destruct (writeChannel_payload k p b _ _ n Hf1 Hn' Hb Hv)
      as (w1 & Hw & Hf' & Hh' & Hpay & Hmod & He' & Hd' & Hs').
    unfold fillChannel at 2. unfold getRandomByte. cbn [fst snd]. fold r. rewrite Hw.
    destruct (IH (S n) fuel w1) as (w' & Hloop & He'' & Hd'' & Hpay' & Hfill);
      [lia|lia|exact Hf'|].
    cbn [channels entropy drawn] in *.
    exists w'. split; [exact Hloop|]. split; [congruence|]. split; [lia|].
    split; [apply payload_shrink in Hpay'; congruence|].
    intros i Hi. destruct (decide (i = n)) as [->|Hne].
    + rewrite (payload_last _ _ _ Hpay'), Hmod, Hand. unfold r.
      rewrite Nat.sub_diag, Nat.add_0_r. apply mod_256_low, Hb.
    + rewrite Hfill by lia. rewrite He', Hd'. do 2 f_equal. lia.
Qed.

(** X14.  The capacity the payload does not use is filled from the
    random source, one byte drawn for each colour channel the payload
    leaves open: the channel the payload ends in, when it ends inside
    one, takes the leading bits of the first byte drawn for the bits it
    lacks, and each channel behind it takes the [bitsTaken] low bits of
    the next byte drawn. *)
Theorem hideBlob_random_fill (w : World) (hData : list Z) (bitsTaken : Z)
    (cap : Capacity) (p : nat) :
  wf_world w → length (channels w) = (4 * S p)%nat → Forall is_u8 hData →
  calcCapacity (channels w) bitsTaken = Ok cap →
  Z.of_nat (length hData) ≤ bytes cap →
  let used := Z.to_nat (8 * Z.of_nat (length hData) / bitsTaken) in
  let left := (8 * Z.of_nat (length hData)) mod bitsTaken in
  ∃ image w',
    hideBlob hData bitsTaken w = (Ok image, w')
    ∧ (used ≤ 3 * p)%nat
    ∧ drawn w' = (drawn w + (3 * p - used))%nat
    ∧ (∀ i, (used ≤ i < 3 * p)%nat → (i = used → left = 0) →
         num_of (image !! rgb_index i) mod 2 ^ bitsTaken
         = entropy w (drawn w + (i - used))%nat mod 2 ^ bitsTaken)
    ∧ (left ≠ 0 →
         num_of (image !! rgb_index used) mod 2 ^ (bitsTaken - left)
         = (entropy w (drawn w) mod 256) / 2 ^ (8 - (bitsTaken - left))).
Proof.
  intros Hu8 Hlen Hdata Hcap Hfit used left.
  pose proof (calcCapacity_bits _ _ _ Hcap) as Hb.
  destruct (calcCapacity_pixels _ bitsTaken p Hlen Hb) as (cap' & Hcap' & Hbytes & _).
  rewrite Hcap in Hcap'. injection Hcap' as <-.
  assert (Hroom : 8 * Z.of_nat (length hData) ≤ Z.of_nat (3 * p) * bitsTaken).
  { rewrite Hbytes in Hfit. clear - Hfit Hb. dlia. }
  destruct (writeHeader_frame w bitsTaken p Hu8 Hlen Hb)
    as (w1 & Hw1 & Hf1 & Hh1 & He1 & Hd1 & Hs1).
  assert (Hinv0 : WInv (kind w) p bitsTaken (Ok bitsTaken) w1 (mkWriter w1 4 0 0) []).
  { exists 0%nat, []. cbn [wr_world channelId buf bufBits rgb_index].
    split; [exact Hf1|]. split; [exact Hh1|].
    repeat split; try reflexivity; simpl; lia. }
  assert (Hsl : Z.of_nat (length (stream 8 hData)) = 8 * Z.of_nat (length hData))
    by (rewrite stream_length; lia).
  pose proof (hideBytes_inv _ _ _ _ _ hData Hb Hdata _ _ Hinv0) as Hinv.
  cbn [app length] in Hinv. specialize (Hinv ltac:(clear - Hroom; lia)).
  set (s := hideBytes bitsTaken hData (mkWriter w1 4 0 0)) in *.
  destruct (flushLeftover_draws _ _ _ _ _ s _ Hb Hinv ltac:(clear - Hroom Hsl; lia))
    as (w3 & n & Hw3 & Hf3 & He3 & Hn & Hfull & Hpart).
  rewrite Hsl in Hn, Hfull, Hpart.
  change (Z.to_nat (8 * Z.of_nat (length hData) / bitsTaken)) with used in Hn, Hfull, Hpart.
  change ((8 * Z.of_nat (length hData)) mod bitsTaken) with left in Hfull, Hpart.
  clearbody used left.
  destruct (fillTrailing_draws (kind w) p bitsTaken (3 * p - n) Hb n (4 * S p) w3)
    as (w4 & Hw4 & He4 & Hd4 & Hpay4 & Hfill);
    [clear - Hn; lia|clear; lia|exact Hf3|].
  assert (Hrun : hideBlob_write hData bitsTaken w = (Ok (4 * S p)%nat, w4)).
  { unfold hideBlob_write, mbind, M_bind, gets, lift, step, mret, M_ret, throw.
    rewrite (validateBits_ok bitsTaken Hb), Hcap.
    replace (bytes cap <? Z.of_nat (length hData)) with false
      by (symmetry; apply Z.ltb_ge; exact Hfit).
    rewrite Hw1. fold s. rewrite Hw3. rewrite Hlen. unfold fillTrailing. rewrite Hw4.
    reflexivity. }
  exists (channels w4), w4. split; [|split; [clear - Hn; lia|]].
  { unfold hideBlob, mbind, M_bind, gets, throw. rewrite Hlen, Hrun.
    replace (4 * S p =? 4 * S p)%nat with true by (symmetry; apply Nat.eqb_refl).
    reflexivity. }
  destruct (Z.eq_dec left 0) as [Hz|Hnz].
  - destruct (Hfull Hz) as [-> Hd3]. split; [rewrite Hd4, Hd3, Hd1; reflexivity|].
    split; [|intros Hne; contradiction].
    intros i Hi _. rewrite (Hfill i Hi), He3, He1, Hd3, Hd1. reflexivity.
  - destruct (Hpart Hnz) as (-> & Hd3 & Hlow).
    split; [rewrite Hd4, Hd3, Hd1; clear - Hn; lia|]. split.
    + intros i Hi Hiu.
      assert (Hlt : (S used ≤ i)%nat)
        by (destruct (decide (i = used)) as [Heq|Hne]; [tauto|clear - Hi Hne; lia]).
      rewrite (Hfill i ltac:(clear - Hi Hlt; lia)), He3, He1, Hd3, Hd1.
      do 2 f_equal. clear - Hlt. lia.
    + intros _. rewrite (payload_last _ _ _ Hpay4), Hlow, He1, Hd1. reflexivity.
Qed.

(** ** The layout of the payload *)

Lemma bits_of_lookup (n : nat) (v : Z) (i : nat) :
  (i < n)%nat → bits_of n v !! i = Some (Z.testbit v (Z.of_nat (n - 1 - i))).
Proof.
  revert i. induction n as [|n IH]; intros i Hi; [lia|].
  destruct i as [|i]; cbn [bits_of lookup list_lookup].
  - do 2 f_equal. lia.
  - rewrite IH by lia. do 2 f_equal. lia.
Qed.

Lemma stream_lookup (n : nat) (vs : list Z) (j : nat) :
  (0 < n)%nat → (j < length vs * n)%nat →
  stream n vs !! j
  = Some (Z.testbit (num_of (vs !! (j / n)%nat)) (Z.of_nat (n - 1 - j mod n))).
Proof.
  intros Hn. revert j. induction vs as [|v vs IH]; intros j Hj; [simpl in Hj; lia|].
  change (stream n (v :: vs)) with (bits_of n v ++ stream n vs).
  destruct (decide (j < n)%nat) as [Hlt|Hge].
  - rewrite lookup_app_l by (rewrite bits_of_length; exact Hlt).
    rewrite bits_of_lookup by exact Hlt.
    rewrite Nat.div_small, Nat.mod_small by exact Hlt. reflexivity.
  - rewrite lookup_app_r by (rewrite bits_of_length; lia). rewrite bits_of_length.
    rewrite IH by (simpl in Hj; lia).
    replace (j / n)%nat with ((j - n + 1 * n) / n)%nat by (f_equal; lia).
    replace (j mod n)%nat with ((j - n + 1 * n) mod n)%nat by (f_equal; lia).
    rewrite Nat.div_add, Nat.Div0.mod_add, Nat.add_1_r by lia. reflexivity.
Qed.

Lemma payload_lookup (ch : list Z) (n k : nat) :
  (k < n)%nat → num_of (payload ch n !! k) = num_of (ch !! rgb_index k).
Proof.
  intros Hk. unfold payload. rewrite list_lookup_fmap, lookup_seq_lt by exact Hk.
  reflexivity.
Qed.

(** X15.  Where [hideBlob] puts the payload.  Number the bits of the
    payload from the most significant bit of its first byte, and the
    colour channels behind the first pixel from 0, so that colour channel
    [n] is channel [4 + 4 * (n / 3) + n mod 3] of the buffer.  Then bit
    [j] of the payload is in colour channel [j / bitsTaken], at the bit of
    weight [2^(bitsTaken - 1 - j mod bitsTaken)]. *)
Theorem hideBlob_layout (w : World) (hData : list Z) (bitsTaken : Z) (cap : Capacity) :
  wf_world w → Z.of_nat (length (channels w)) mod 4 = 0 → Forall is_u8 hData →
  calcCapacity (channels w) bitsTaken = Ok cap →
  Z.of_nat (length hData) ≤ bytes cap →
  ∃ image,
    fst (hideBlob hData bitsTaken w) = Ok image
    ∧ ∀ j : nat, (j < 8 * length hData)%nat →
        let n := (j / Z.to_nat bitsTaken)%nat in
        rgb_index n = (4 + 4 * (n / 3) + n mod 3)%nat
        ∧ (rgb_index n < length image)%nat
        ∧ Z.testbit (num_of (image !! rgb_index n))
            (bitsTaken - 1 - Z.of_nat (j mod Z.to_nat bitsTaken))
          = Z.testbit (num_of (hData !! (j / 8)%nat)) (7 - Z.of_nat (j mod 8)).
Proof.
  intros Hwf Hmod Hdata Hcap Hfit. pose proof (calcCapacity_bits _ _ _ Hcap) as Hb.
  destruct (pixels_of_length _ bitsTaken cap Hmod Hb Hcap ltac:(lia)) as (p & Hlen & Hbytes).
  destruct (hideBlob_write_spec w hData bitsTaken p cap Hwf Hlen Hb Hdata Hcap Hfit)
    as (w' & filler & Hw & Hf & _ & Hstr & _).
  exists (channels w'). split.
  { unfold hideBlob, mbind, M_bind, gets, throw. rewrite Hlen, Hw.
    replace (4 * S p =? 4 * S p)%nat with true by (symmetry; apply Nat.eqb_refl).
    reflexivity. }
  intros j Hj n.
  set (b := Z.to_nat bitsTaken) in *.
  assert (Hbpos : (0 < b)%nat) by (unfold b; lia).
  assert (Hroom : (8 * length hData ≤ 3 * p * b)%nat).
  { rewrite Hbytes in Hfit. unfold b. apply Nat2Z.inj_le.
    rewrite Nat2Z.inj_mul, (Nat2Z.inj_mul (3 * p)), Z2Nat.id by lia.
    change (Z.of_nat 8) with 8. dlia. }
  assert (Hn : (n < 3 * p)%nat).
  { unfold n. apply Nat.Div0.div_lt_upper_bound. lia. }
  split; [apply rgb_index_closed|].
  split; [destruct Hf as [_ Hl _ _]; rewrite Hl; pose proof (rgb_index_bound n p Hn); lia|].
  assert (Hlhs : stream b (payload (channels w') (3 * p)) !! j
                 = Some (Z.testbit (num_of (channels w' !! rgb_index n))
                           (Z.of_nat (b - 1 - j mod b)))).
  { rewrite stream_lookup by (rewrite ?payload_length; lia).
    fold n. rewrite payload_lookup by exact Hn. reflexivity. }
  assert (Hrhs : (stream 8 hData ++ filler) !! j
                 = Some (Z.testbit (num_of (hData !! (j / 8)%nat))
                           (Z.of_nat (8 - 1 - j mod 8)))).
  { rewrite lookup_app_l by (rewrite stream_length; lia).
    apply stream_lookup; lia. }
  rewrite Hstr, Hrhs in Hlhs. injection Hlhs as Heq.
  replace (bitsTaken - 1 - Z.of_nat (j mod b)) with (Z.of_nat (b - 1 - j mod b)).
  - replace (7 - Z.of_nat (j mod 8)) with (Z.of_nat (8 - 1 - j mod 8)) by dlia.
    symmetry. exact Heq.
  - pose proof (Nat.mod_upper_bound j b ltac:(lia)). unfold b in *. lia.
Qed.

(** ** Reading *)

Lemma loop_head_reads (n : nat) :
  (if isAlpha (Z.of_nat (loop_head n)) then S (loop_head n) else loop_head n) = rgb_index n.
Proof. destruct n as [|n]; reflexivity. Qed.

(** What one turn of the loop does to the accumulator, on the value [v]
    of the channel it reads. *)
Lemma revealChannel_bits (ch : list Z) (b : Z) (s : Reader) (n : nat) (pend : list bool) :
  1 ≤ b ≤ 8 → is_u8 (num_of (ch !! rgb_index n)) →
  rd_channelId s = loop_head n → rd_buf s = val pend →
  rd_bufBits s = Z.of_nat (length pend) → (length pend < 8)%nat →
  let l := pend ++ bits_of (Z.to_nat b) (num_of (ch !! rgb_index n)) in
  revealChannel ch b (2 ^ b - 1) s =
  if (8 <=? length l)%nat
  then mkReader (S (rgb_index n)) (val (drop 8 l)) (Z.of_nat (length (drop 8 l)))
         (<[outPos s := val (take 8 l)]> (out s)) (S (outPos s))
  else mkReader (S (rgb_index n)) (val l) (Z.of_nat (length l)) (out s) (outPos s).
Proof.
  intros Hb Hv Hid Hbuf Hbits Hpend l. unfold is_u8 in Hv.
  set (v := num_of (ch !! rgb_index n)) in *.
  pose proof (pow2_le_256 b Hb) as Hp.
  assert (Hll : length l = (length pend + Z.to_nat b)%nat)
    by (unfold l; rewrite length_app, bits_of_length; reflexivity).
  assert (Hmask : js_and v (2 ^ b - 1) = val (bits_of (Z.to_nat b) v)).
  { rewrite js_and_small by lia.
    replace (2 ^ b - 1) with (Z.ones b) by (rewrite Z.ones_equiv; lia).
    rewrite Z.land_ones, val_bits_of, Z2Nat.id by lia. reflexivity. }
  pose proof (val_bound pend) as Hvp.
  pose proof (val_bound (bits_of (Z.to_nat b) v)) as Hvb.
  rewrite bits_of_length, Z2Nat.id in Hvb by lia.
  assert (Hp8 : 2 ^ Z.of_nat (length pend) ≤ 2 ^ 7) by (apply Z.pow_le_mono_r; lia).
  assert (Hbuf' : js_or (js_shl (val pend) b) (js_and v (2 ^ b - 1)) = val l).
  { rewrite Hmask. rewrite js_shl_small by nia. rewrite js_or_small by nia.
    rewrite lor_disjoint by lia. unfold l.
    rewrite val_app, bits_of_length, Z2Nat.id by lia. reflexivity. }
  unfold revealChannel. rewrite Hid, loop_head_reads. fold v.
  rewrite Hbuf, Hbits, Hbuf'.
  replace (Z.of_nat (length pend) + b) with (Z.of_nat (length l)) by lia.
  destruct (8 <=? length l)%nat eqn:H8.
  - apply Nat.leb_le in H8.
    replace (8 <=? Z.of_nat (length l)) with true by (symmetry; apply Z.leb_le; lia).
    pose proof (val_bound l) as Hvl.
    assert (Hl16 : 2 ^ Z.of_nat (length l) ≤ 2 ^ 15) by (apply Z.pow_le_mono_r; lia).
    assert (Hdl : length (drop 8 l) = (length l - 8)%nat) by apply length_drop.
    destruct (val_app_split (take 8 l) (drop 8 l)) as [Hdiv Hmod].
    rewrite take_drop, Hdl in Hdiv, Hmod.
    replace (Z.of_nat (length l) - 8) with (Z.of_nat (length l - 8)) by lia.
    pose proof (val_bound (take 8 l)) as Hvt. rewrite length_take in Hvt.
    replace (8 `min` length l)%nat with 8%nat in Hvt by lia.
    f_equal.
    + rewrite js_and_small.
      * replace (2 ^ Z.of_nat (length l - 8) - 1) with (Z.ones (Z.of_nat (length l - 8)))
          by (rewrite Z.ones_equiv; lia).
        rewrite Z.land_ones by lia. exact Hmod.
      * lia.
      * assert (0 < 2 ^ Z.of_nat (length l - 8) ≤ 2 ^ 7)
          by (split; [apply Z.pow_pos_nonneg; lia|apply Z.pow_le_mono_r; lia]).
        lia.
    + rewrite Hdl. reflexivity.
    + rewrite js_shr_small by lia. rewrite Hdiv. f_equal. simpl.
      apply Z.mod_small. exact Hvt.
  - apply Nat.leb_gt in H8.
    replace (8 <=? Z.of_nat (length l)) with false by (symmetry; apply Z.leb_gt; lia).
    reflexivity.
Qed.

Lemma revealChannel_inv (ch : list Z) (b : Z) (p : nat) (s : Reader) (n : nat) :
  1 ≤ b ≤ 8 → Forall is_u8 ch → (n < 3 * p)%nat →
  RInv ch b (Z.to_nat (Z.of_nat (3 * p) * b / 8)) s n →
  RInv ch b (Z.to_nat (Z.of_nat (3 * p) * b / 8)) (revealChannel ch b (2 ^ b - 1) s) (S n).
Proof.
  intros Hb Hu8 Hn (ob & pend & Hid & Hbuf & Hbits & Hpend & Hpos & Hout & Hcap & Hob & Hstr).
  set (cap := Z.to_nat (Z.of_nat (3 * p) * b / 8)) in *.
  assert (Hv : is_u8 (num_of (ch !! rgb_index n))).
  { pose proof (payload_u8 ch (S n) Hu8) as Hpu. rewrite payload_S in Hpu.
    apply Forall_app in Hpu as [_ Hpu]. apply Forall_cons in Hpu as [Hpu _]. exact Hpu. }
  rewrite (revealChannel_bits ch b s n pend Hb Hv Hid Hbuf Hbits Hpend).
  set (l := pend ++ bits_of (Z.to_nat b) (num_of (ch !! rgb_index n))).
  assert (Hll : length l = (length pend + Z.to_nat b)%nat)
    by (unfold l; rewrite length_app, bits_of_length; reflexivity).
  assert (Hnext : stream 8 ob ++ l = stream (Z.to_nat b) (payload ch (S n))).
  { unfold l. rewrite app_assoc, Hstr, payload_S, stream_snoc. reflexivity. }
  assert (Hcount : (8 * length ob + length l = S n * Z.to_nat b)%nat).
  { apply (f_equal length) in Hnext.
    rewrite length_app, !stream_length, payload_length in Hnext. lia. }
  destruct (8 <=? length l)%nat eqn:H8.
  - apply Nat.leb_le in H8.
    assert (Hroom : (length ob < cap)%nat).
    { unfold cap. apply Nat2Z.inj_lt. rewrite Z2Nat.id by (apply Z.div_pos; nia).
      assert (8 * (Z.of_nat (length ob) + 1) ≤ Z.of_nat (3 * p) * b) by nia.
      dlia. }
    exists (ob ++ [val (take 8 l)]), (drop 8 l).
    cbn [rd_channelId rd_buf rd_bufBits out outPos loop_head].
    rewrite length_app, length_drop. simpl length.
    split; [reflexivity|]. split; [reflexivity|]. split; [reflexivity|].
    split; [lia|]. split; [lia|]. split; [|split; [lia|split]].
    + rewrite Hout, Hpos, insert_app_r_alt, Nat.sub_diag by lia.
      replace (cap - length ob)%nat with (S (cap - (length ob + 1)))%nat by lia.
      simpl. rewrite <- app_assoc. reflexivity.
    + apply Forall_app. split; [exact Hob|]. constructor; [|constructor].
      pose proof (val_bound (take 8 l)) as Hvt. rewrite length_take in Hvt.
      replace (8 `min` length l)%nat with 8%nat in Hvt by lia. exact Hvt.
    + rewrite stream_snoc, <- app_assoc, <- Hnext. f_equal.
      replace 8%nat with (length (take 8 l)) at 1 by (rewrite length_take; lia).
      rewrite bits_of_val. apply take_drop.
  - apply Nat.leb_gt in H8. exists ob, l.
    cbn [rd_channelId rd_buf rd_bufBits out outPos loop_head].
    repeat split; auto; lia.
Qed.

Lemma loop_head_lt (n p : nat) : (n < 3 * p)%nat → (loop_head n < 4 * S p)%nat.
Proof.
  intros Hn. destruct n as [|n]; simpl loop_head.
  - lia.
  - pose proof (rgb_index_bound n p). lia.
Qed.

(** The last turn of the loop, on a buffer of two pixels or more: the
    alpha channel of the last pixel is skipped and the read falls behind
    the buffer; the byte it may complete falls behind [out]. *)
Lemma revealChannel_past_end (ch : list Z) (b : Z) (p : nat) (s : Reader) :
  1 ≤ b ≤ 8 → length ch = (4 * S p)%nat → (0 < p)%nat →
  RInv ch b (Z.to_nat (Z.of_nat (3 * p) * b / 8)) s (3 * p) →
  (rd_channelId s < 4 * S p)%nat
  ∧ rd_channelId (revealChannel ch b (2 ^ b - 1) s) = S (4 * S p)
  ∧ out (revealChannel ch b (2 ^ b - 1) s) = out s.
Proof.
  intros Hb Hlen Hp (ob & pend & Hid & Hbuf & Hbits & Hpend & Hpos & Hout & Hcap & Hob & Hstr).
  set (cap := Z.to_nat (Z.of_nat (3 * p) * b / 8)) in *.
  assert (Hend : rgb_index (3 * p) = (4 * S p)%nat) by apply rgb_index_end.
  assert (Hv : num_of (ch !! rgb_index (3 * p)) = 0).
  { rewrite Hend, lookup_ge_None_2 by lia. reflexivity. }
  assert (Hfull : length ob = cap).
  { apply (f_equal length) in Hstr.
    rewrite length_app, !stream_length, payload_length in Hstr.
    unfold cap. apply Nat2Z.inj. rewrite Z2Nat.id by (apply Z.div_pos; nia).
    assert (8 * Z.of_nat (length ob) + Z.of_nat (length pend) = Z.of_nat (3 * p) * b) by nia.
    dlia. }
  split.
  - rewrite Hid. destruct (3 * p)%nat as [|m] eqn:Hm; [lia|]. simpl loop_head.
    pose proof (rgb_index_bound m p). lia.
  - rewrite (revealChannel_bits ch b s (3 * p) pend Hb) by (rewrite ?Hv; unfold is_u8; auto; lia).
    rewrite Hend. destruct (8 <=? _)%nat; cbn [rd_channelId out]; split; try reflexivity.
    apply list_insert_ge. rewrite Hout, Hpos, length_app, length_replicate. lia.
Qed.

Lemma revealLoop_spec (ch : list Z) (b : Z) (p : nat) (k : nat) :
  1 ≤ b ≤ 8 → Forall is_u8 ch → length ch = (4 * S p)%nat →
  ∀ (n fuel : nat) (s : Reader),
    (n + k = 3 * p)%nat → (k < fuel)%nat →
    RInv ch b (Z.to_nat (Z.of_nat (3 * p) * b / 8)) s n →
    ∃ (pend : list bool),
      let ob := out (while fuel (λ s, (rd_channelId s <? length ch)%nat)
                       (revealChannel ch b (2 ^ b - 1)) s) in
      Z.of_nat (length ob) = Z.of_nat (3 * p) * b / 8
      ∧ Forall is_u8 ob
      ∧ stream 8 ob ++ pend = stream (Z.to_nat b) (payload ch (3 * p)).
Proof.
  intros Hb Hu8 Hlen. set (cap := Z.to_nat (Z.of_nat (3 * p) * b / 8)).
  induction k as [|k IH]; intros n fuel s Hn Hfuel Hinv.
  - replace n with (3 * p)%nat in * by lia.
    assert (Hdone : ∃ ob pend, out s = ob ∧ length ob = cap ∧ Forall is_u8 ob
                     ∧ stream 8 ob ++ pend = stream (Z.to_nat b) (payload ch (3 * p))).
    { destruct Hinv as (ob & pend & _ & _ & _ & Hpend & _ & Hout & Hcap & Hob & Hstr).
      exists ob, pend. split; [|split; [|auto]].
      - assert (Hfull : length ob = cap).
        { pose proof Hstr as Hl. apply (f_equal length) in Hl.
          rewrite length_app, !stream_length, payload_length in Hl.
          unfold cap. apply Nat2Z.inj. rewrite Z2Nat.id by (apply Z.div_pos; nia).
          assert (8 * Z.of_nat (length ob) + Z.of_nat (length pend) = Z.of_nat (3 * p) * b) by nia.
          dlia. }
        rewrite Hout, Hfull, Nat.sub_diag. simpl. apply app_nil_r.
      - apply (f_equal length) in Hstr.
        rewrite length_app, !stream_length, payload_length in Hstr.
        unfold cap. apply Nat2Z.inj. rewrite Z2Nat.id by (apply Z.div_pos; nia).
        assert (8 * Z.of_nat (length ob) + Z.of_nat (length pend) = Z.of_nat (3 * p) * b) by nia.
        dlia. }
    destruct Hdone as (ob & pend & Hout & Hfull & Hob & Hstr).
    assert (Hfin : out (while fuel (λ s, (rd_channelId s <? length ch)%nat)
                          (revealChannel ch b (2 ^ b - 1)) s) = ob).
    { destruct p as [|p].
      - rewrite while_stop; [exact Hout|].
        destruct Hinv as (? & ? & Hid & _). rewrite Hid, Hlen. reflexivity.
      - destruct (revealChannel_past_end ch b (S p) s Hb Hlen ltac:(lia) Hinv)
          as (Hlt & Hid' & Hout').
        destruct fuel as [|fuel]; [lia|].
        rewrite while_step by (apply Nat.ltb_lt; lia).
        rewrite while_stop by (apply Nat.ltb_ge; lia).
        rewrite Hout'. exact Hout. }
    exists pend. cbv zeta. rewrite Hfin.
    split; [|auto]. rewrite Hfull. unfold cap. apply Z2Nat.id, Z.div_pos; nia.
  - destruct fuel as [|fuel]; [lia|].
    assert (Hn' : (n < 3 * p)%nat) by lia.
    rewrite while_step.
    + apply (IH (S n) fuel); [lia|lia|]. apply revealChannel_inv; auto.
    + destruct Hinv as (? & ? & Hid & _). rewrite Hid.
      apply Nat.ltb_lt. rewrite Hlen. apply loop_head_lt, Hn'.
Qed.

(** [revealBlob] on a buffer of [p + 1] pixels whose header spells [b]:
    as many bytes as the capacity has, spelling the low bits of the
    colour channels behind the first pixel. *)
Lemma revealBlob_spec (ch : list Z) (b : Z) (p : nat) :
  Forall is_u8 ch → length ch = (4 * S p)%nat → revealBitsTaken ch = Ok b →
  ∃ (ob : list Z) (pend : list bool),
    revealBlob ch = Ok ob
    ∧ Z.of_nat (length ob) = Z.of_nat (3 * p) * b / 8
    ∧ Forall is_u8 ob
    ∧ stream 8 ob ++ pend = stream (Z.to_nat b) (payload ch (3 * p)).
Proof.
  intros Hu8 Hlen Hhdr.
  assert (Hb : 1 ≤ b ≤ 8).
  { rewrite revealBitsTaken_value in Hhdr. injection Hhdr as <-.
    pose proof (parity_cases (num_of (ch !! 0%nat))).
    pose proof (parity_cases (num_of (ch !! 1%nat))).
    pose proof (parity_cases (num_of (ch !! 2%nat))). lia. }
  destruct (calcCapacity_pixels ch b p Hlen Hb) as (cap & Hcap & Hbytes & Hpos).
  unfold revealBlob. rewrite Hhdr. cbn [mbind result_bind]. rewrite Hcap.
  cbn [mbind result_bind].
  replace (bytes cap <? 0) with false by (symmetry; apply Z.ltb_ge; lia).
  rewrite Hbytes.
  destruct (revealLoop_spec ch b p (3 * p) Hb Hu8 Hlen 0 (length ch)
              (mkReader 4 0 0 (replicate (Z.to_nat (Z.of_nat (3 * p) * b / 8)) 0) 0))
    as (pend & Hl & Hob & Hstr); [lia|lia| |].
  - exists [], []. cbn [rd_channelId rd_buf rd_bufBits out outPos loop_head length].
    rewrite Nat.sub_0_r. repeat split; auto; lia.
  - eexists _, pend. split; [reflexivity|]. auto.
Qed.

(** *** Every buffer, and what is read of it *)

Lemma revealChannel_out (ch : list Z) (bitsTaken mask : Z) (s : Reader) :
  length (out (revealChannel ch bitsTaken mask s)) = length (out s)
  ∧ (Forall is_u8 (out s) → Forall is_u8 (out (revealChannel ch bitsTaken mask s))).
Proof.
  unfold revealChannel. destruct (8 <=? rd_bufBits s + bitsTaken); cbn [out].
  - split; [apply length_insert|]. intros Hu. apply Forall_insert; [exact Hu|].
    unfold is_u8. simpl. apply Z.mod_pos_bound. lia.
  - auto.
Qed.

(** X16.  [revealBlob] throws on a buffer of fewer than 4 channels (the
    capacity is negative there, and so is the length asked of the output
    array) and on no other buffer: from 4 channels on, whatever the buffer
    holds and whatever its length, it returns [capacity.bytes] bytes for
    the [bitsTaken] its header spells. *)
Theorem revealBlob_outcome (ch : list Z) :
  ((length ch < 4)%nat → revealBlob ch = Err RangeError)
  ∧ ((4 ≤ length ch)%nat →
     ∃ b cap ob,
       revealBitsTaken ch = Ok b
       ∧ calcCapacity ch b = Ok cap
       ∧ revealBlob ch = Ok ob
       ∧ Z.of_nat (length ob) = bytes cap
       ∧ Forall is_u8 ob).
Proof.
  pose proof (revealBitsTaken_value ch) as Hhdr.
  set (b := 1 + 4 * (num_of (ch !! 0%nat) mod 2) + 2 * (num_of (ch !! 1%nat) mod 2)
            + num_of (ch !! 2%nat) mod 2) in *.
  assert (Hb : 1 ≤ b ≤ 8).
  { pose proof (parity_cases (num_of (ch !! 0%nat))).
    pose proof (parity_cases (num_of (ch !! 1%nat))).
    pose proof (parity_cases (num_of (ch !! 2%nat))). unfold b. lia. }
  destruct (calcCapacity_bytes ch b Hb) as (cap & Hcap & Hbytes).
  assert (Hrun : revealBlob ch =
            if bytes cap <? 0 then Err RangeError
            else Ok (out (while (length ch) (λ s, (rd_channelId s <? length ch)%nat)
                            (revealChannel ch b (2 ^ b - 1))
                            (mkReader 4 0 0 (replicate (Z.to_nat (bytes cap)) 0) 0)))).
  { unfold revealBlob. rewrite Hhdr. cbn [mbind result_bind]. rewrite Hcap. reflexivity. }
  split; intros Hl.
  - rewrite Hrun. replace (bytes cap <? 0) with true; [reflexivity|].
    symmetry. apply Z.ltb_lt. rewrite Hbytes. apply Z.div_lt_upper_bound; nia.
  - assert (Hpos : 0 ≤ bytes cap) by (rewrite Hbytes; apply Z.div_pos; nia).
    replace (bytes cap <? 0) with false in Hrun by (symmetry; apply Z.ltb_ge; exact Hpos).
    exists b, cap. eexists. split; [exact Hhdr|]. split; [exact Hcap|].
    split; [exact Hrun|].
    set (P := λ s : Reader, length (out s) = Z.to_nat (bytes cap) ∧ Forall is_u8 (out s)).
    assert (HP : P (while (length ch) (λ s, (rd_channelId s <? length ch)%nat)
                      (revealChannel ch b (2 ^ b - 1))
                      (mkReader 4 0 0 (replicate (Z.to_nat (bytes cap)) 0) 0))).
    { apply while_inv.
      - intros s [H1 H2]. destruct (revealChannel_out ch b (2 ^ b - 1) s) as [H3 H4].
        split; [congruence|auto].
      - split; cbn [out]; [apply length_replicate|].
        apply Forall_replicate. unfold is_u8. lia. }
    destruct HP as [H1 H2]. split; [rewrite H1; lia|exact H2].
Qed.

Lemma bits_of_low (n : nat) (v v' : Z) :
  v' mod 2 ^ Z.of_nat n = v mod 2 ^ Z.of_nat n → bits_of n v' = bits_of n v.
Proof. intros Heq. rewrite <- (bits_of_mod n v'), <- (bits_of_mod n v), Heq. reflexivity. Qed.

Lemma stream_payload_low (ch ch' : list Z) (b : Z) (n : nat) :
  0 ≤ b →
  (∀ k, (k < n)%nat →
     num_of (ch' !! rgb_index k) mod 2 ^ b = num_of (ch !! rgb_index k) mod 2 ^ b) →
  stream (Z.to_nat b) (payload ch' n) = stream (Z.to_nat b) (payload ch n).
Proof.
  intros Hb. induction n as [|n IH]; intros Hlow; [reflexivity|].
  rewrite !payload_S, !stream_snoc. rewrite IH by (intros k Hk; apply Hlow; lia).
  f_equal. apply bits_of_low. rewrite Z2Nat.id by lia. apply Hlow. lia.
Qed.

(** X17.  [revealBlob] reads the three header bits and, of each colour
    channel behind the first pixel, the [bitsTaken] low bits, and nothing
    else: two images of the same size that agree there reveal the same
    bytes, whatever their alpha channels, the high bits of their colour
    channels and the rest of their first pixel hold. *)
Theorem revealBlob_low_bits (ch ch' : list Z) (b : Z) :
  Forall is_u8 ch → Forall is_u8 ch' →
  length ch' = length ch → Z.of_nat (length ch) mod 4 = 0 →
  revealBitsTaken ch = Ok b → revealBitsTaken ch' = Ok b →
  (∀ i, (4 ≤ i)%nat → (i mod 4 ≠ 3)%nat →
     num_of (ch' !! i) mod 2 ^ b = num_of (ch !! i) mod 2 ^ b) →
  revealBlob ch' = revealBlob ch.
Proof.
  intros Hu Hu' Hlen Hmod Hh Hh' Hlow.
  destruct (decide (length ch = 0)%nat) as [Hz|Hnz].
  { destruct ch; [|discriminate]. destruct ch'; [reflexivity|discriminate]. }
  assert (Hl : length ch = (4 * S (length ch / 4 - 1))%nat) by dlia.
  set (p := (length ch / 4 - 1)%nat) in *.
  destruct (revealBlob_spec ch b p Hu Hl Hh) as (ob & pend & Hr & Hol & Hou & Hstr).
  destruct (revealBlob_spec ch' b p Hu' ltac:(congruence) Hh')
    as (ob' & pend' & Hr' & Hol' & Hou' & Hstr').
  rewrite Hr, Hr'. f_equal.
  pose proof (revealBitsTaken_range ch b Hh) as Hb.
  rewrite (stream_payload_low ch ch' b (3 * p)) in Hstr'.
  - rewrite <- Hstr in Hstr'.
    pose proof (stream8_prefix ob Hou ob' pend' pend Hou' ltac:(lia) Hstr') as Ht.
    rewrite take_ge in Ht by lia. exact Ht.
  - lia.
  - intros k Hk. apply Hlow; [apply rgb_index_ge|apply rgb_index_not_alpha].
Qed.

(** ** hideBlob and revealBlob *)

(** What [hideBlob] hides, [revealBlob] finds: the payload comes first in
    the bytes revealed. *)
Lemma hideBlob_revealBlob (w : World) (hData : list Z) (b : Z) (cap : Capacity) :
  wf_world w → Z.of_nat (length (channels w)) mod 4 = 0 →
  1 ≤ b ≤ 8 → Forall is_u8 hData →
  calcCapacity (channels w) b = Ok cap →
  Z.of_nat (length hData) ≤ bytes cap →
  ∃ w',
    hideBlob_write hData b w = (Ok (length (channels w)), w')
    ∧ hideBlob hData b w = (Ok (channels w'), w')
    ∧ Frame (kind w) (length (channels w)) w' (length (channels w))
    ∧ sealed w' = sealed w
    ∧ ∃ ob, revealBlob (channels w') = Ok ob
            ∧ Z.of_nat (length ob) = bytes cap
            ∧ take (length hData) ob = hData.
Proof.
  intros Hwf Hmod Hb Hdata Hcap Hfit.
  destruct (pixels_of_length _ b cap Hmod Hb Hcap ltac:(lia)) as (p & Hlen & Hbytes).
  destruct (hideBlob_write_spec w hData b p cap Hwf Hlen Hb Hdata Hcap Hfit)
    as (w' & filler & Hw & Hf & Hhdr & Hstr & Hs).
  rewrite Hlen. exists w'. split; [exact Hw|].
  split; [|split; [exact Hf|split; [exact Hs|]]].
  - unfold hideBlob, mbind, M_bind, gets, throw. rewrite Hlen, Hw.
    replace (4 * S p =? 4 * S p)%nat with true by (symmetry; apply Nat.eqb_refl).
    reflexivity.
  - destruct Hf as [_ Hlen' Hu8' _].
    destruct (revealBlob_spec (channels w') b p Hu8' Hlen' Hhdr)
      as (ob & pend & Hr & Hl & Hob & Hstr').
    exists ob. split; [exact Hr|]. split; [lia|].
    apply (stream8_prefix hData Hdata ob pend filler Hob); [lia|].
    rewrite Hstr', Hstr. reflexivity.
Qed.

(** C7.  On a channel buffer whose length is a multiple of 4, with
    [bitsTaken] from 1 to 8 and a payload of at most [capacity.bytes]
    bytes, the write sequence of [hideBlob] (header, payload with its
    partial channel, trailing fill) ends with the cursor on the length of
    the buffer, so [hideBlob] does not throw the cursor error. *)
Theorem hideBlob_cursor (w : World) (hData : list Z) (bitsTaken : Z) (cap : Capacity) :
  wf_world w → Z.of_nat (length (channels w)) mod 4 = 0 →
  1 ≤ bitsTaken ≤ 8 → Forall is_u8 hData →
  calcCapacity (channels w) bitsTaken = Ok cap →
  Z.of_nat (length hData) ≤ bytes cap →
  fst (hideBlob_write hData bitsTaken w) = Ok (length (channels w))
  ∧ fst (hideBlob hData bitsTaken w) ≠ Err CursorMismatch
  ∧ ∃ image, fst (hideBlob hData bitsTaken w) = Ok image.
Proof.
  intros Hwf Hmod Hb Hdata Hcap Hfit.
  destruct (hideBlob_revealBlob w hData bitsTaken cap Hwf Hmod Hb Hdata Hcap Hfit)
    as (w' & Hw & Hh & _).
  rewrite Hw, Hh. simpl. split; [reflexivity|]. split; [discriminate|eauto].
Qed.

(** C9.  After [hideBlob] on a channel buffer whose length is a multiple
    of 4 (with [bitsTaken] from 1 to 8 and a payload that fits), every
    alpha channel of the buffer, the one of the first pixel included,
    holds the blank: what the store of 256 leaves, which is 0 in a
    [Uint8Array].  The image [hideBlob] returns is that buffer. *)
Theorem hideBlob_alpha (w : World) (hData : list Z) (bitsTaken : Z) (cap : Capacity) :
  wf_world w → Z.of_nat (length (channels w)) mod 4 = 0 →
  1 ≤ bitsTaken ≤ 8 → Forall is_u8 hData →
  calcCapacity (channels w) bitsTaken = Ok cap →
  Z.of_nat (length hData) ≤ bytes cap →
  ∃ image w',
    hideBlob hData bitsTaken w = (Ok image, w')
    ∧ image = channels w'
    ∧ kind w' = kind w
    ∧ length (channels w') = length (channels w)
    ∧ ∀ i, (i < length (channels w))%nat → (i mod 4 = 3)%nat →
        channels w' !! i = Some (store (kind w) 256)
        ∧ (kind w = Uint8 → channels w' !! i = Some 0).
Proof.
  intros Hwf Hmod Hb Hdata Hcap Hfit.
  destruct (hideBlob_revealBlob w hData bitsTaken cap Hwf Hmod Hb Hdata Hcap Hfit)
    as (w' & _ & Hh & [Hkind Hlen _ Halpha] & _).
  exists (channels w'), w'. split; [exact Hh|]. split; [reflexivity|].
  split; [exact Hkind|]. split; [exact Hlen|].
  intros i Hi Hia.
  split; [apply Halpha; assumption|].
  intros Hk. rewrite (Halpha i Hi Hi Hia), Hk. reflexivity.
Qed.

(** X18.  What [hideBlob] hides, [revealBlob] finds, whatever the random
    source delivers: on an image of whole pixels, for a payload of at most
    [capacity.bytes] bytes, [revealBlob] on the image [hideBlob] made
    returns [capacity.bytes] bytes that begin with the payload, and the
    payload itself when it fills the capacity. *)
Theorem hideBlob_then_revealBlob (w : World) (hData : list Z) (bitsTaken : Z)
    (cap : Capacity) :
  wf_world w → Z.of_nat (length (channels w)) mod 4 = 0 →
  Forall is_u8 hData →
  calcCapacity (channels w) bitsTaken = Ok cap →
  Z.of_nat (length hData) ≤ bytes cap →
  ∃ image w' ob,
    hideBlob hData bitsTaken w = (Ok image, w')
    ∧ revealBlob image = Ok ob
    ∧ Z.of_nat (length ob) = bytes cap
    ∧ take (length hData) ob = hData
    ∧ (Z.of_nat (length hData) = bytes cap → ob = hData).
Proof.
  intros Hwf Hmod Hdata Hcap Hfit. pose proof (calcCapacity_bits _ _ _ Hcap) as Hb.
  destruct (hideBlob_revealBlob w hData bitsTaken cap Hwf Hmod Hb Hdata Hcap Hfit)
    as (w' & _ & Hh & _ & _ & ob & Hr & Hl & Ht).
  exists (channels w'), w', ob. split; [exact Hh|].
  split; [exact Hr|]. split; [exact Hl|]. split; [exact Ht|].
  intros Hfull. rewrite <- Ht. symmetry. apply take_ge. lia.
Qed.

(** X19.  The header [hideBlob] writes is the one [revealBitsTaken]
    reads: on the image made with [bitsTaken], [revealBitsTaken] returns
    [bitsTaken], for each of the eight values.  The lowest bits of
    channels 0, 1 and 2 spell [bitsTaken - 1], most significant bit
    first. *)
Theorem hideBlob_header (w : World) (hData : list Z) (bitsTaken : Z) (cap : Capacity) :
  wf_world w → Z.of_nat (length (channels w)) mod 4 = 0 →
  Forall is_u8 hData →
  calcCapacity (channels w) bitsTaken = Ok cap →
  Z.of_nat (length hData) ≤ bytes cap →
  ∃ image, fst (hideBlob hData bitsTaken w) = Ok image
           ∧ revealBitsTaken image = Ok bitsTaken
           ∧ num_of (image !! 0%nat) mod 2 = (bitsTaken - 1) / 4
           ∧ num_of (image !! 1%nat) mod 2 = ((bitsTaken - 1) / 2) mod 2
           ∧ num_of (image !! 2%nat) mod 2 = (bitsTaken - 1) mod 2.
Proof.
  intros Hwf Hmod Hdata Hcap Hfit. pose proof (calcCapacity_bits _ _ _ Hcap) as Hb.
  destruct (pixels_of_length _ bitsTaken cap Hmod Hb Hcap ltac:(lia)) as (p & Hlen & _).
  destruct (hideBlob_write_spec w hData bitsTaken p cap Hwf Hlen Hb Hdata Hcap Hfit)
    as (w' & filler & Hw & _ & Hhdr & _).
  exists (channels w'). split; [|split; [exact Hhdr|]].
  - unfold hideBlob, mbind, M_bind, gets, throw. rewrite Hlen, Hw.
    replace (4 * S p =? 4 * S p)%nat with true by (symmetry; apply Nat.eqb_refl).
    reflexivity.
  - rewrite revealBitsTaken_value in Hhdr. injection Hhdr as Hsum.
    pose proof (parity_cases (num_of (channels w' !! 0%nat))) as H0.
    pose proof (parity_cases (num_of (channels w' !! 1%nat))) as H1.
    pose proof (parity_cases (num_of (channels w' !! 2%nat))) as H2.
    clear - Hsum H0 H1 H2 Hb.
    set (a := num_of (channels w' !! 0%nat) mod 2) in *.
    set (c := num_of (channels w' !! 1%nat) mod 2) in *.
    set (d := num_of (channels w' !! 2%nat) mod 2) in *.
    clearbody a c d. dlia.
Qed.

(** ** hide and reveal *)

Lemma framing_aead_contract : @AeadContract framing_aead.
Proof.
  constructor. intros n key p Hkl Hku8 Hpu8. cbn [aes_encrypt aes_decrypt framing_aead].
  rewrite Hkl. cbn [Nat.eqb].
  eexists. split; [reflexivity|].
  assert (Hlen : length (replicate 12 (Z.of_nat n mod 256) ++ p ++ replicate 16 0)
                 = (12 + length p + 16)%nat)
    by (rewrite !length_app, !length_replicate; lia).
  split; [exact Hlen|]. split.
  - apply Forall_app_2; [apply Forall_replicate; unfold is_u8; dlia|].
    apply Forall_app_2; [exact Hpu8|apply Forall_replicate; unfold is_u8; lia].
  - rewrite Hlen.
    replace (28 <=? 12 + length p + 16)%nat with true by (symmetry; apply Nat.leb_le; lia).
    cbn [andb]. f_equal.
    replace (12 + length p + 16 - 28)%nat with (length p) by lia.
    replace 12%nat with (length (replicate 12 (Z.of_nat n mod 256))) at 1
      by apply length_replicate.
    rewrite drop_app_length. apply take_app_length.
Qed.

(** Away from the byte order mark [reveal] undoes [hide].  On a channel
    buffer whose length is a multiple of 4, with [bitsTaken] from 1 to 8,
    a 32-byte key and an AEAD provider that meets its contract, for a file
    whose name has paired surrogates, does not start with U+FEFF and has 1
    to 255 UTF-8 bytes, whose content has less than 2^32 bytes, and whose
    packed form fits [capacity - 28]: [hide] succeeds, and [reveal] on the
    image it made returns the file, the same name and the same content. *)
Theorem hide_reveal `{AeadContract} (w : World) (fname content key p : list Z)
    (bitsTaken : Z) (cap : Capacity) :
  wf_world w → Z.of_nat (length (channels w)) mod 4 = 0 →
  1 ≤ bitsTaken ≤ 8 →
  length key = 32%nat → Forall is_u8 key →
  Forall is_u16 fname → well_formed fname = true → head fname ≠ Some 0xFEFF →
  1 ≤ Z.of_nat (length (utf8ToBytes fname)) ≤ 255 →
  Forall is_u8 content → Z.of_nat (length content) < 2 ^ 32 →
  calcCapacity (channels w) bitsTaken = Ok cap →
  pack (newRawFile content fname) = Ok p →
  Z.of_nat (length p) ≤ bytes cap - ENCRYPTED_METADATA_SIZE →
  ∃ image w',
    hide (newRawFile content fname) key bitsTaken w = (Ok image, w')
    ∧ channels w' = image
    ∧ ∀ w2, channels w2 = image →
        reveal key w2 = (Ok {| data := content; name := fname |}, w2).
Proof.
  intros Hwf Hmod Hb Hkl Hku8 Hn16 Hnwf Hbom Hnlen Hcu8 Hsize Hcap Hp Hfit.
  pose proof (well_formed_utf8_stable fname Hn16 Hnwf Hbom) as Hstable.
  assert (Hne : fname ≠ []) by (intros ->; simpl in Hnlen; lia).
  assert (Hf : newRawFile content fname = {| data := content; name := fname |})
    by (destruct fname; [congruence|reflexivity]).
  rewrite Hf in *. set (f := {| data := content; name := fname |}) in *.
  destruct (packWithPadding_ok f p _ Hp Hfit) as [Hpad Hpadlen].
  set (padded := p ++ replicate (Z.to_nat (bytes cap - ENCRYPTED_METADATA_SIZE
                                             - Z.of_nat (length p))) 0) in *.
  assert (Hpu8 : Forall is_u8 padded).
  { apply Forall_app_2; [apply (pack_u8 f); auto|].
    apply Forall_replicate. unfold is_u8. lia. }
  destruct (aead_seal (sealed w) key padded Hkl Hku8 Hpu8) as (c & Henc & Hcl & Hcu & Hdec).
  set (w1 := mkWorld (channels w) (kind w) (entropy w) (drawn w) (S (sealed w))).
  assert (Hclen : Z.of_nat (length c) = bytes cap)
    by (unfold ENCRYPTED_METADATA_SIZE in *; lia).
  destruct (hideBlob_revealBlob w1 c bitsTaken cap Hwf Hmod Hb Hcu Hcap ltac:(lia))
    as (w' & _ & Hh & _ & _ & ob & Hrev & Hobl & Htake).
  exists (channels w'), w'. split; [|split; [reflexivity|]].
  - unfold hide, mbind, M_bind, lift, encrypt, throw. rewrite Hcap, Hpad, Henc.
    replace (Z.of_nat (length c) =? bytes cap) with true by (symmetry; apply Z.eqb_eq; lia).
    exact Hh.
  - intros w2 Hw2. unfold reveal, mbind, M_bind, lift. rewrite Hw2, Hrev.
    assert (Hob : ob = c).
    { rewrite <- Htake. symmetry. apply take_ge. lia. }
    rewrite Hob, Hdec. unfold padded.
    rewrite (fromPacked_pack_padded f p _ Hp Hsize). cbn [name data f].
    rewrite Hstable. rewrite Hf. reflexivity.
Qed.

(** C1.  [reveal] after [hide] does not return the file when its name
    starts with U+FEFF.  On a buffer of 14 pixels, at 8 bits, with a
    32-byte key and a provider that meets its contract, the file named
    U+FEFF 'a' (4 bytes of UTF-8) with content [1; 2] fits; [hide]
    succeeds, and [reveal] on the image returns the content under the
    name 'a': [utils.utf8ToBytes] has kept the mark and
    [utils.bytesToUtf8] dropped it. *)
Lemma hide_reveal_bom :
  let w := mkWorld (replicate 56 0) Uint8 (λ _, 0) 0 0 in
  let key := replicate 32 1 in
  let fname := [0xFEFF; 97] in
  let content := [1; 2] in
  @AeadContract framing_aead
  ∧ wf_world w
  ∧ Z.of_nat (length (channels w)) mod 4 = 0
  ∧ length key = 32%nat ∧ Forall is_u8 key
  ∧ Forall is_u16 fname ∧ well_formed fname = true
  ∧ 1 ≤ Z.of_nat (length (utf8ToBytes fname)) ≤ 255
  ∧ Forall is_u8 content
  ∧ (∃ cap p, calcCapacity (channels w) 8 = Ok cap
              ∧ pack (newRawFile content fname) = Ok p
              ∧ Z.of_nat (length p) ≤ bytes cap - ENCRYPTED_METADATA_SIZE)
  ∧ ∃ image,
      fst (hide (H := framing_aead) (newRawFile content fname) key 8 w) = Ok image
      ∧ ∀ w2, channels w2 = image →
          fst (reveal (H := framing_aead) key w2) = Ok {| data := content; name := [97] |}
          ∧ fst (reveal (H := framing_aead) key w2)
            ≠ Ok {| data := content; name := fname |}.
Proof.
  cbv zeta. split; [exact framing_aead_contract|].
  split; [apply Forall_replicate; unfold is_u8; lia|].
  split; [reflexivity|]. split; [reflexivity|].
  split; [apply Forall_replicate; unfold is_u8; lia|].
  split; [unfold is_u16; repeat constructor; lia|].
  split; [reflexivity|]. split; [simpl; lia|].
  split; [unfold is_u8; repeat constructor; lia|].
  split; [eexists _, _; split; [reflexivity|split; [reflexivity|vm_compute; discriminate]]|].
  eexists. split; [vm_compute; reflexivity|].
  intros w2 Hw2. unfold reveal, mbind, M_bind, lift. rewrite Hw2.
  split; [vm_compute; reflexivity|vm_compute; discriminate].
Qed.

Lemma hide_run `{Aead} (w : World) (rawFile : RawFile) (key : list Z) (bitsTaken : Z) :
  hide rawFile key bitsTaken w =
  match calcCapacity (channels w) bitsTaken with
  | Err e => (Err e, w)
  | Ok cap =>
      match packWithPadding rawFile (bytes cap - ENCRYPTED_METADATA_SIZE) with
      | Err e => (Err e, w)
      | Ok padded =>
          let w1 := mkWorld (channels w) (kind w) (entropy w) (drawn w) (S (sealed w)) in
          match aes_encrypt (sealed w) key padded with
          | Err e => (Err e, w1)
          | Ok c =>
              if Z.of_nat (length c) =? bytes cap then hideBlob c bitsTaken w1
              else (Err EncryptionSizeMismatch, w1)
          end
      end
  end.
Proof.
  unfold hide, mbind, M_bind, lift, encrypt, throw.
  destruct (calcCapacity (channels w) bitsTaken) as [cap|e]; [|reflexivity].
  destruct (packWithPadding rawFile _) as [padded|e]; [|reflexivity].
  destruct (aes_encrypt (sealed w) key padded) as [c|e]; [|reflexivity].
  destruct (Z.of_nat (length c) =? bytes cap); reflexivity.
Qed.

(** X20.  What [hide] puts in the image is the output of the AEAD
    provider and nothing of the file besides: when the provider returns
    [capacity.bytes] bytes for the padded file, [hide] succeeds after
    that one call, and [revealBlob] on the image returns those bytes
    exactly. *)
Theorem hide_stores_ciphertext `{Aead} (w : World) (rawFile : RawFile)
    (key padded c : list Z) (bitsTaken : Z) (cap : Capacity) :
  wf_world w → Z.of_nat (length (channels w)) mod 4 = 0 →
  calcCapacity (channels w) bitsTaken = Ok cap →
  packWithPadding rawFile (bytes cap - ENCRYPTED_METADATA_SIZE) = Ok padded →
  aes_encrypt (sealed w) key padded = Ok c →
  Forall is_u8 c → Z.of_nat (length c) = bytes cap →
  ∃ image w',
    hide rawFile key bitsTaken w = (Ok image, w')
    ∧ sealed w' = S (sealed w)
    ∧ revealBitsTaken image = Ok bitsTaken
    ∧ revealBlob image = Ok c.
Proof.
  intros Hwf Hmod Hcap Hpad Henc Hcu Hcl.
  pose proof (calcCapacity_bits _ _ _ Hcap) as Hb.
  set (w1 := mkWorld (channels w) (kind w) (entropy w) (drawn w) (S (sealed w))).
  destruct (hideBlob_revealBlob w1 c bitsTaken cap Hwf Hmod Hb Hcu Hcap ltac:(lia))
    as (w' & _ & Hh & _ & Hs & ob & Hrev & Hobl & Htake).
  destruct (pixels_of_length _ bitsTaken cap Hmod Hb Hcap ltac:(lia)) as (p & Hlen & _).
  destruct (hideBlob_write_spec w1 c bitsTaken p cap Hwf Hlen Hb Hcu Hcap ltac:(lia))
    as (w'' & filler & Hw & _ & Hhdr & _).
  assert (Hsame : w'' = w').
  { unfold hideBlob, mbind, M_bind, gets, throw in Hh. cbn [channels w1] in Hh, Hw.
    rewrite Hlen, Hw in Hh.
    replace (4 * S p =? 4 * S p)%nat with true in Hh by (symmetry; apply Nat.eqb_refl).
    cbn [negb] in Hh. congruence. }
  subst w''.
  exists (channels w'), w'. split; [|split; [exact Hs|split; [exact Hhdr|]]].
  - unfold hide, mbind, M_bind, lift, encrypt, throw. rewrite Hcap, Hpad, Henc.
    replace (Z.of_nat (length c) =? bytes cap) with true by (symmetry; apply Z.eqb_eq; lia).
    exact Hh.
  - rewrite Hrev. f_equal. rewrite <- Htake. symmetry. apply take_ge. lia.
Qed.

(** X21.  [hide] touches the image only after all its checks have passed.
    On an image of whole pixels: when [bitsTaken] is refused, when the
    file does not pack into [capacity.bytes - 28] bytes (the name error,
    the length error), when the provider throws, and when it returns
    other than [capacity.bytes] bytes (the size error), [hide] throws
    that error with the channel buffer as it was and no random byte
    drawn; the first three come before the provider is called.  When none
    of these happens and the provider has returned bytes, the write
    sequence of [hideBlob] runs to its end without a throw.  The throws
    of the canvas export, which follow the write sequence, are not part
    of [hide] here. *)
Theorem hide_atomic `{Aead} (w : World) (rawFile : RawFile) (key : list Z) (bitsTaken : Z) :
  wf_world w → Z.of_nat (length (channels w)) mod 4 = 0 →
  let called := mkWorld (channels w) (kind w) (entropy w) (drawn w) (S (sealed w)) in
  (∀ e, calcCapacity (channels w) bitsTaken = Err e →
     e = BitsOutOfRange ∧ hide rawFile key bitsTaken w = (Err e, w))
  ∧ ∀ cap, calcCapacity (channels w) bitsTaken = Ok cap →
      (∀ e, packWithPadding rawFile (bytes cap - ENCRYPTED_METADATA_SIZE) = Err e →
         (e = InvalidName ∨ e = LengthTooSmall)
         ∧ hide rawFile key bitsTaken w = (Err e, w))
      ∧ ∀ padded,
          packWithPadding rawFile (bytes cap - ENCRYPTED_METADATA_SIZE) = Ok padded →
          (∀ e, aes_encrypt (sealed w) key padded = Err e →
             hide rawFile key bitsTaken w = (Err e, called))
          ∧ ∀ c, aes_encrypt (sealed w) key padded = Ok c →
              (Z.of_nat (length c) ≠ bytes cap →
                 hide rawFile key bitsTaken w = (Err EncryptionSizeMismatch, called))
              ∧ (Z.of_nat (length c) = bytes cap → Forall is_u8 c →
                 ∃ image w', hide rawFile key bitsTaken w = (Ok image, w')
                             ∧ sealed w' = S (sealed w)).
Proof.
  intros Hwf Hmod called. split.
  { intros e Hcap. split; [exact (calcCapacity_error _ _ _ Hcap)|].
    rewrite hide_run, Hcap. reflexivity. }
  intros cap Hcap. split.
  { intros e Hpad. split; [exact (packWithPadding_error _ _ _ Hpad)|].
    rewrite hide_run, Hcap, Hpad. reflexivity. }
  intros padded Hpad. split.
  { intros e Henc. rewrite hide_run, Hcap, Hpad, Henc. reflexivity. }
  intros c Henc. split.
  - intros Hne. rewrite hide_run, Hcap, Hpad, Henc. cbv zeta.
    replace (Z.of_nat (length c) =? bytes cap) with false by (symmetry; apply Z.eqb_neq; exact Hne).
    reflexivity.
  - intros Hcl Hcu. pose proof (calcCapacity_bits _ _ _ Hcap) as Hb.
    destruct (hideBlob_revealBlob called c bitsTaken cap Hwf Hmod Hb Hcu Hcap ltac:(lia))
      as (w2 & _ & Hh & _ & Hs & _).
    exists (channels w2), w2. split; [|exact Hs].
    rewrite hide_run, Hcap, Hpad, Henc. cbv zeta.
    replace (Z.of_nat (length c) =? bytes cap) with true by (symmetry; apply Z.eqb_eq; exact Hcl).
    exact Hh.
Qed.

(** X22.  [hide] and [reveal] on any file that fits: the content comes
    back byte for byte, and the name comes back as the text codec returns
    it (a surrogate without its pair as U+FFFD, a leading byte order mark
    dropped, and the default name when nothing is left of it). *)
Theorem hide_reveal_any `{AeadContract} (w : World) (f : RawFile) (key p : list Z)
    (bitsTaken : Z) (cap : Capacity) :
  wf_world w → Z.of_nat (length (channels w)) mod 4 = 0 →
  length key = 32%nat → Forall is_u8 key →
  Forall is_u16 (name f) → Forall is_u8 (data f) → size f < 2 ^ 32 →
  calcCapacity (channels w) bitsTaken = Ok cap →
  pack f = Ok p →
  Z.of_nat (length p) ≤ bytes cap - ENCRYPTED_METADATA_SIZE →
  ∃ image w' revealed,
    hide f key bitsTaken w = (Ok image, w')
    ∧ (∀ w2, channels w2 = image → reveal key w2 = (Ok revealed, w2))
    ∧ data revealed = data f
    ∧ revealed = newRawFile (data f) (bytesToUtf8 (utf8ToBytes (name f))).
Proof.
  intros Hwf Hmod Hkl Hku8 Hn16 Hdu8 Hsize Hcap Hp Hfit.
  pose proof (calcCapacity_bits _ _ _ Hcap) as Hb.
  destruct (packWithPadding_ok f p _ Hp Hfit) as [Hpad Hpadlen].
  set (padded := p ++ replicate (Z.to_nat (bytes cap - ENCRYPTED_METADATA_SIZE
                                             - Z.of_nat (length p))) 0) in *.
  pose proof (packWithPadding_u8 f _ padded Hn16 Hdu8 Hpad) as Hpu8.
  destruct (aead_seal (sealed w) key padded Hkl Hku8 Hpu8) as (c & Henc & Hcl & Hcu & Hdec).
  set (w1 := mkWorld (channels w) (kind w) (entropy w) (drawn w) (S (sealed w))).
  assert (Hclen : Z.of_nat (length c) = bytes cap)
    by (unfold ENCRYPTED_METADATA_SIZE in *; lia).
  destruct (hideBlob_revealBlob w1 c bitsTaken cap Hwf Hmod Hb Hcu Hcap ltac:(lia))
    as (w' & _ & Hh & _ & _ & ob & Hrev & Hobl & Htake).
  exists (channels w'), w', (newRawFile (data f) (bytesToUtf8 (utf8ToBytes (name f)))).
  split; [|split; [|split; reflexivity]].
  - rewrite hide_run, Hcap, Hpad, Henc. cbv zeta.
    replace (Z.of_nat (length c) =? bytes cap) with true by (symmetry; apply Z.eqb_eq; lia).
    exact Hh.
  - intros w2 Hw2. unfold reveal, mbind, M_bind, lift. rewrite Hw2, Hrev.
    assert (Hob : ob = c) by (rewrite <- Htake; symmetry; apply take_ge; lia).
    rewrite Hob, Hdec. unfold padded.
    rewrite (fromPacked_pack_padded f p _ Hp Hsize). reflexivity.
Qed.

(** ** The page of the demo *)

(** X23.  The guard of the demo page is weaker than the one of [hide]:
    [reformat] enables the submit button when the file is no longer than
    [capacity.bytes], while [hide] needs room for the header of the
    packed file and the 28 bytes of the AEAD besides.  For every file in
    between, the button is enabled and the [hide] that the submit handler
    calls throws the length error. *)
Theorem reformat_gap `{Aead} (w : World) (hf : RawFile) (key p : list Z)
    (bitsTaken : Z) (cap : Capacity) (page : Page) :
  calcCapacity (channels w) bitsTaken = Ok cap →
  pack hf = Ok p →
  size hf ≤ bytes cap →
  bytes cap - ENCRYPTED_METADATA_SIZE < Z.of_nat (length p) →
  (∃ page', reformat (Some w) (Some hf) (Some key) bitsTaken page = Ok page'
            ∧ submit_disabled page' = false)
  ∧ hide hf key bitsTaken w = (Err LengthTooSmall, w)
  ∧ bytes cap - 33 - Z.of_nat (length (utf8ToBytes (name hf))) < size hf.
Proof.
  intros Hcap Hp Hsize Hbig. split; [|split].
  - unfold reformat. cbv zeta. rewrite Hcap. cbn [mbind result_bind].
    replace (bytes cap <? size hf) with false by (symmetry; apply Z.ltb_ge; exact Hsize).
    eexists. split; reflexivity.
  - rewrite hide_run, Hcap, (packWithPadding_small hf p _ Hp Hbig). reflexivity.
  - destruct (pack_length hf p Hp) as [Hl _]. unfold ENCRYPTED_METADATA_SIZE in Hbig. lia.
Qed.

(** ** The cases of [test/index.js] *)

(** 'calcCapacity': a 4 pixel image. *)
Lemma test_calcCapacity :
  map (λ b, bytes <$> (match calcCapacity (replicate 16 0) b with
                       | Ok cap => Some cap
                       | Err _ => None
                       end)) [1; 2; 3; 4; 5; 6; 7; 8]
  = map Some [1; 2; 3; 4; 5; 6; 7; 9].
Proof. reflexivity. Qed.

(** 'basic hideBlob/revealBlob': the first 14 channels after hiding
    [0b1010_1010] at one bit per channel, and the blob read back. *)
Lemma test_basic_hideBlob (e : nat → Z) :
  let w := mkWorld (replicate 16 0) Uint8 e 0 0 in
  (take 14 <$> (match fst (hideBlob [170] 1 w) with
                | Ok image => Some image
                | Err _ => None
                end))
  = Some [0; 0; 0; 0; 1; 0; 1; 0; 0; 1; 0; 0; 1; 0]
  ∧ (match fst (hideBlob [170] 1 w) with
     | Ok image => revealBlob image
     | Err err => Err err
     end) = Ok [170].
Proof. split; reflexivity. Qed.

(** ** The theorems at concrete inputs *)

Lemma calcCapacity_spec_witness :
  Z.of_nat (length (replicate 16 0)) mod 4 = 0 ∧ 1 ≤ 1 ≤ 8
  ∧ ∃ cap, calcCapacity (replicate 16 0) 1 = Ok cap ∧ (bits cap == 9)%Q ∧ bytes cap = 1.
Proof.
  assert (H4 : Z.of_nat (length (replicate 16 0)) mod 4 = 0) by reflexivity.
  assert (Hb : 1 ≤ 1 ≤ 8) by lia.
  split; [exact H4|]. split; [exact Hb|].
  destruct (calcCapacity_spec (replicate 16 0) 1 H4 Hb) as (_ & H16 & _).
  apply H16; reflexivity.
Defined.

Lemma revealBitsTaken_header_only_witness :
  [1; 2; 3; 4] !! 0%nat = [1; 2; 3; 9; 9] !! 0%nat
  ∧ [1; 2; 3; 4] !! 1%nat = [1; 2; 3; 9; 9] !! 1%nat
  ∧ [1; 2; 3; 4] !! 2%nat = [1; 2; 3; 9; 9] !! 2%nat
  ∧ revealBitsTaken [1; 2; 3; 4] = revealBitsTaken [1; 2; 3; 9; 9].
Proof.
  repeat (split; [reflexivity|]).
  destruct (revealBitsTaken_header_only [1; 2; 3; 4] [1; 2; 3; 9; 9] eq_refl eq_refl eq_refl)
    as [Hsame _].
  exact Hsame.
Defined.

Lemma fromPacked_outcome_witness :
  Forall is_u8 [1; 97; 0; 0; 0; 2; 7; 8; 9]
  ∧ ∃ content_len,
      getUint32 [1; 97; 0; 0; 0; 2; 7; 8; 9] 2 = Ok content_len
      ∧ fromPacked [1; 97; 0; 0; 0; 2; 7; 8; 9]
        = Ok (newRawFile (take (Z.to_nat content_len) [7; 8; 9]) (bytesToUtf8 [97])).
Proof.
  assert (Hu8 : Forall is_u8 [1; 97; 0; 0; 0; 2; 7; 8; 9])
    by (unfold is_u8; repeat constructor; lia).
  split; [exact Hu8|].
  destruct (fromPacked_outcome [1; 97; 0; 0; 0; 2; 7; 8; 9] Hu8) as [_ Hcases].
  destruct (Hcases 1 [97; 0; 0; 0; 2; 7; 8; 9] eq_refl) as (_ & _ & _ & Hok).
  apply Hok; simpl; lia.
Defined.

Lemma fromPacked_pack_witness :
  Forall is_u16 [97; 46; 116; 120; 116]
  ∧ well_formed [97; 46; 116; 120; 116] = true
  ∧ head [97; 46; 116; 120; 116] ≠ Some 0xFEFF
  ∧ 1 ≤ Z.of_nat (length (utf8ToBytes [97; 46; 116; 120; 116])) ≤ 255
  ∧ Z.of_nat (length [1; 2; 3]) < 2 ^ 32
  ∧ ∃ p, pack (newRawFile [1; 2; 3] [97; 46; 116; 120; 116]) = Ok p
         ∧ fromPacked p = Ok {| data := [1; 2; 3]; name := [97; 46; 116; 120; 116] |}.
Proof.
  assert (H1 : 1 ≤ Z.of_nat (length (utf8ToBytes [97; 46; 116; 120; 116])) ≤ 255)
    by (simpl; lia).
  assert (Hu : Forall is_u16 [97; 46; 116; 120; 116])
    by (unfold is_u16; repeat constructor; lia).
  assert (Hb : head [97; 46; 116; 120; 116] ≠ Some 0xFEFF) by discriminate.
  assert (H3 : Z.of_nat (length [1; 2; 3]) < 2 ^ 32) by (simpl; lia).
  split; [exact Hu|]. split; [reflexivity|]. split; [exact Hb|].
  split; [exact H1|]. split; [exact H3|].
  destruct (fromPacked_pack [97; 46; 116; 120; 116] [1; 2; 3] 20 Hu eq_refl Hb H1 H3)
    as (p & Hp & Hback & _).
  exists p. split; assumption.
Defined.

Lemma pack_outcome_witness :
  Z.of_nat (length (utf8ToBytes (name (newRawFile [1; 2; 3] [97])))) ≤ 255
  ∧ ∃ p, pack (newRawFile [1; 2; 3] [97]) = Ok p
         ∧ Z.of_nat (length p)
           = 1 + Z.of_nat (length (utf8ToBytes (name (newRawFile [1; 2; 3] [97])))) + 4
             + Z.of_nat (length [1; 2; 3]).
Proof.
  assert (H1 : Z.of_nat (length (utf8ToBytes (name (newRawFile [1; 2; 3] [97])))) ≤ 255)
    by (simpl; lia).
  split; [exact H1|].
  destruct (pack_outcome [1; 2; 3] [97]) as (_ & _ & _ & _ & Hok & _).
  exact (Hok H1).
Defined.

Lemma hide_oversize_witness :
  let w := mkWorld (replicate 16 0) Uint8 (λ _, 0) 0 0 in
  let f := newRawFile [1; 2; 3] [97] in
  1 ≤ 1 ≤ 8
  ∧ calcCapacity (channels w) 1 = Ok {| bits := (36 # 4)%Q; bytes := 1 |}
  ∧ pack f = Ok [1; 97; 0; 0; 0; 3; 1; 2; 3]
  ∧ 1 - ENCRYPTED_METADATA_SIZE < Z.of_nat (length [1; 97; 0; 0; 0; 3; 1; 2; 3])
  ∧ hide (H := framing_aead) f (replicate 32 1) 1 w = (Err LengthTooSmall, w).
Proof.
  cbv zeta.
  assert (Hb : 1 ≤ 1 ≤ 8) by lia.
  assert (Hlen : 1 - ENCRYPTED_METADATA_SIZE < Z.of_nat (length [1; 97; 0; 0; 0; 3; 1; 2; 3]))
    by (unfold ENCRYPTED_METADATA_SIZE; simpl; lia).
  split; [exact Hb|]. split; [reflexivity|]. split; [reflexivity|]. split; [exact Hlen|].
  apply (hide_oversize (H := framing_aead) (mkWorld (replicate 16 0) Uint8 (λ _, 0) 0 0)
           (newRawFile [1; 2; 3] [97]) (replicate 32 1) [1; 97; 0; 0; 0; 3; 1; 2; 3] 1
           {| bits := (36 # 4)%Q; bytes := 1 |} Hb eq_refl eq_refl Hlen).
Defined.

Lemma hideBlob_cursor_witness :
  let w := mkWorld (replicate 16 0) Uint8 (λ _, 0) 0 0 in
  wf_world w
  ∧ Z.of_nat (length (channels w)) mod 4 = 0
  ∧ 1 ≤ 1 ≤ 8
  ∧ Forall is_u8 [170]
  ∧ calcCapacity (channels w) 1 = Ok {| bits := (36 # 4)%Q; bytes := 1 |}
  ∧ Z.of_nat (length [170]) ≤ 1
  ∧ fst (hideBlob_write [170] 1 w) = Ok 16%nat
  ∧ fst (hideBlob [170] 1 w) ≠ Err CursorMismatch.
Proof.
  cbv zeta.
  assert (Hwf : wf_world (mkWorld (replicate 16 0) Uint8 (λ _, 0) 0 0))
    by (apply Forall_replicate; unfold is_u8; lia).
  assert (Hb : 1 ≤ 1 ≤ 8) by lia.
  assert (Hd : Forall is_u8 [170]) by (unfold is_u8; repeat constructor; lia).
  assert (Hfit : Z.of_nat (length [170]) ≤ 1) by (simpl; lia).
  split; [exact Hwf|]. split; [reflexivity|]. split; [exact Hb|]. split; [exact Hd|].
  split; [reflexivity|]. split; [exact Hfit|].
  destruct (hideBlob_cursor (mkWorld (replicate 16 0) Uint8 (λ _, 0) 0 0) [170] 1
              {| bits := (36 # 4)%Q; bytes := 1 |} Hwf eq_refl Hb Hd eq_refl Hfit)
    as (Hc & Hne & _).
  split; [exact Hc|exact Hne].
Defined.

Lemma hideBlob_alpha_witness :
  let w := mkWorld (replicate 16 255) Uint8 (λ _, 255) 0 0 in
  wf_world w
  ∧ Z.of_nat (length (channels w)) mod 4 = 0
  ∧ 1 ≤ 3 ≤ 8
  ∧ Forall is_u8 [170; 3]
  ∧ calcCapacity (channels w) 3 = Ok {| bits := (108 # 4)%Q; bytes := 3 |}
  ∧ Z.of_nat (length [170; 3]) ≤ 3
  ∧ ∃ image w', hideBlob [170; 3] 3 w = (Ok image, w')
                ∧ image = channels w'
                ∧ channels w' !! 3%nat = Some 0 ∧ channels w' !! 15%nat = Some 0.
Proof.
  cbv zeta.
  assert (Hwf : wf_world (mkWorld (replicate 16 255) Uint8 (λ _, 255) 0 0))
    by (apply Forall_replicate; unfold is_u8; lia).
  assert (Hb : 1 ≤ 3 ≤ 8) by lia.
  assert (Hd : Forall is_u8 [170; 3]) by (unfold is_u8; repeat constructor; lia).
  assert (Hfit : Z.of_nat (length [170; 3]) ≤ 3) by (simpl; lia).
  split; [exact Hwf|]. split; [reflexivity|]. split; [exact Hb|]. split; [exact Hd|].
  split; [reflexivity|]. split; [exact Hfit|].
  destruct (hideBlob_alpha (mkWorld (replicate 16 255) Uint8 (λ _, 255) 0 0) [170; 3] 3
              {| bits := (108 # 4)%Q; bytes := 3 |} Hwf eq_refl Hb Hd eq_refl Hfit)
    as (image & w' & Him & Heq & _ & Hlen & Halpha).
  exists image, w'. split; [exact Him|]. split; [exact Heq|]. cbn [channels] in Halpha.
  split; apply Halpha; try reflexivity; simpl; lia.
Defined.

Lemma hide_reveal_witness :
  let w := mkWorld (replicate 60 0) Uint8 (λ _, 0) 0 0 in
  let key := replicate 32 1 in
  let fname := [97; 46; 116; 120; 116] in
  let content := [1; 2] in
  @AeadContract framing_aead
  ∧ wf_world w
  ∧ Z.of_nat (length (channels w)) mod 4 = 0
  ∧ 1 ≤ 8 ≤ 8
  ∧ length key = 32%nat ∧ Forall is_u8 key
  ∧ Forall is_u16 fname
  ∧ well_formed fname = true
  ∧ head fname ≠ Some 0xFEFF
  ∧ 1 ≤ Z.of_nat (length (utf8ToBytes fname)) ≤ 255
  ∧ Forall is_u8 content ∧ Z.of_nat (length content) < 2 ^ 32
  ∧ calcCapacity (channels w) 8 = Ok {| bits := (1344 # 4)%Q; bytes := 42 |}
  ∧ pack (newRawFile content fname) = Ok [5; 97; 46; 116; 120; 116; 0; 0; 0; 2; 1; 2]
  ∧ Z.of_nat (length [5; 97; 46; 116; 120; 116; 0; 0; 0; 2; 1; 2])
    ≤ 42 - ENCRYPTED_METADATA_SIZE
  ∧ ∃ image w',
      hide (H := framing_aead) (newRawFile content fname) key 8 w = (Ok image, w')
      ∧ channels w' = image
      ∧ ∀ w2, channels w2 = image →
          reveal (H := framing_aead) key w2
          = (Ok {| data := content; name := fname |}, w2).
Proof.
  cbv zeta.
  assert (Hwf : wf_world (mkWorld (replicate 60 0) Uint8 (λ _, 0) 0 0))
    by (apply Forall_replicate; unfold is_u8; lia).
  assert (Hb : 1 ≤ 8 ≤ 8) by lia.
  assert (Hku : Forall is_u8 (replicate 32 1)) by (apply Forall_replicate; unfold is_u8; lia).
  assert (Hn16 : Forall is_u16 [97; 46; 116; 120; 116])
    by (unfold is_u16; repeat constructor; lia).
  assert (Hnl : 1 ≤ Z.of_nat (length (utf8ToBytes [97; 46; 116; 120; 116])) ≤ 255)
    by (simpl; lia).
  assert (Hbom : head [97; 46; 116; 120; 116] ≠ Some 0xFEFF) by discriminate.
  assert (Hcu : Forall is_u8 [1; 2]) by (unfold is_u8; repeat constructor; lia).
  assert (Hsz : Z.of_nat (length [1; 2]) < 2 ^ 32) by (simpl; lia).
  assert (Hfit : Z.of_nat (length [5; 97; 46; 116; 120; 116; 0; 0; 0; 2; 1; 2])
                 ≤ 42 - ENCRYPTED_METADATA_SIZE)
    by (unfold ENCRYPTED_METADATA_SIZE; simpl; lia).
  split; [exact framing_aead_contract|]. split; [exact Hwf|]. split; [reflexivity|].
  split; [exact Hb|]. split; [reflexivity|]. split; [exact Hku|]. split; [exact Hn16|].
  split; [reflexivity|]. split; [exact Hbom|].
  split; [exact Hnl|]. split; [exact Hcu|]. split; [exact Hsz|].
  split; [reflexivity|]. split; [reflexivity|]. split; [exact Hfit|].
  exact (hide_reveal (H := framing_aead) (H0 := framing_aead_contract)
           (mkWorld (replicate 60 0) Uint8 (λ _, 0) 0 0)
           [97; 46; 116; 120; 116] [1; 2] (replicate 32 1)
           [5; 97; 46; 116; 120; 116; 0; 0; 0; 2; 1; 2] 8
           {| bits := (1344 # 4)%Q; bytes := 42 |}
           Hwf eq_refl Hb eq_refl Hku Hn16 eq_refl Hbom Hnl Hcu Hsz eq_refl eq_refl Hfit).
Defined.

(** [clearBits(0b101010, 4) => 0b100000] *)
Lemma clearBits_spec_witness :
  - 2 ^ 31 ≤ 42 < 2 ^ 31 ∧ 0 ≤ 4 < 32 ∧ clearBits 42 4 = 42 - 42 mod 2 ^ 4.
Proof.
  assert (H1 : - 2 ^ 31 ≤ 42 < 2 ^ 31) by lia.
  assert (H2 : 0 ≤ 4 < 32) by lia.
  split; [exact H1|]. split; [exact H2|].
  destruct (clearBits_spec 42 4 H1 H2) as [Hc _]. exact Hc.
Defined.

Lemma readBit_msb_first_witness :
  is_u8 170 ∧ foldl (λ acc pos, 2 * acc + readBit 170 pos) 0 (seqZ 0 8) = 170.
Proof.
  assert (H1 : is_u8 170) by (unfold is_u8; lia).
  split; [exact H1|]. destruct (readBit_msb_first 170 H1) as [_ Hs]. exact Hs.
Defined.

Lemma calcCapacity_monotone_witness :
  (4 ≤ length (replicate 16 0) ≤ length (replicate 16 0))%nat ∧ 1 ≤ 8
  ∧ calcCapacity (replicate 16 0) 1 = Ok {| bits := (36 # 4)%Q; bytes := 1 |}
  ∧ calcCapacity (replicate 16 0) 8 = Ok {| bits := (288 # 4)%Q; bytes := 9 |}
  ∧ 0 ≤ 1 ≤ 9.
Proof.
  assert (H1 : (4 ≤ length (replicate 16 0) ≤ length (replicate 16 0))%nat) by (simpl; lia).
  assert (H2 : 1 ≤ 8) by lia.
  split; [exact H1|]. split; [exact H2|]. split; [reflexivity|]. split; [reflexivity|].
  exact (calcCapacity_monotone (replicate 16 0) (replicate 16 0) 1 8
           {| bits := (36 # 4)%Q; bytes := 1 |} {| bits := (288 # 4)%Q; bytes := 9 |}
           H1 H2 eq_refl eq_refl).
Defined.

Lemma pack_name_units_witness :
  let fname : list Z := [8364; 97] in
  Forall is_u16 fname
  ∧ (length fname ≤ length (utf8ToBytes fname) ≤ 3 * length fname)%nat
  ∧ ∃ p, pack (newRawFile [1; 2; 3] fname) = Ok p.
Proof.
  cbv zeta.
  assert (H1 : Forall is_u16 [8364; 97]) by (unfold is_u16; repeat constructor; lia).
  split; [exact H1|].
  destruct (pack_name_units [1; 2; 3] [8364; 97] H1) as (Hl & Hok & _).
  split; [exact Hl|]. apply Hok. simpl. lia.
Defined.

Lemma utf8_roundtrip_witness :
  Forall is_u16 [0xFEFF; 97] ∧ well_formed [0xFEFF; 97] = true
  ∧ bytesToUtf8 (utf8ToBytes [0xFEFF; 97]) = [97].
Proof.
  assert (H1 : Forall is_u16 [0xFEFF; 97]) by (unfold is_u16; repeat constructor; lia).
  split; [exact H1|]. split; [reflexivity|].
  destruct (utf8_roundtrip [0xFEFF; 97] H1 eq_refl) as (_ & _ & Hbom).
  exact (Hbom eq_refl).
Defined.


Lemma fromPacked_trailing_witness :
  getUint8 [1; 97; 0; 0; 0; 2; 7; 8] 0 = Ok 1 ∧ 1 ≤ 1
  ∧ getUint32 [1; 97; 0; 0; 0; 2; 7; 8] (Z.to_nat (1 + 1)) = Ok 2
  ∧ 1 + 5 + 2 ≤ Z.of_nat (length [1; 97; 0; 0; 0; 2; 7; 8])
  ∧ fromPacked ([1; 97; 0; 0; 0; 2; 7; 8] ++ [9; 9]) = fromPacked [1; 97; 0; 0; 0; 2; 7; 8].
Proof.
  assert (H1 : 1 ≤ 1) by lia.
  assert (H2 : 1 + 5 + 2 ≤ Z.of_nat (length [1; 97; 0; 0; 0; 2; 7; 8])) by (simpl; lia).
  split; [reflexivity|]. split; [exact H1|]. split; [reflexivity|]. split; [exact H2|].
  exact (fromPacked_trailing [1; 97; 0; 0; 0; 2; 7; 8] [9; 9] 1 2 eq_refl H1 eq_refl H2).
Defined.

Lemma fromPacked_pack_default_name_witness :
  Z.of_nat (length [1; 2; 3]) < 2 ^ 32
  ∧ ∃ p, pack (newRawFile [1; 2; 3] []) = Ok p
         ∧ fromPacked p = Ok (newRawFile [1; 2; 3] [])
         ∧ name (newRawFile [1; 2; 3] []) = default_name (length [1; 2; 3])
         ∧ Z.of_nat (length p) ≤ 1 + 26 + 4 + Z.of_nat (length [1; 2; 3]).
Proof.
  assert (H1 : Z.of_nat (length [1; 2; 3]) < 2 ^ 32) by (simpl; lia).
  split; [exact H1|]. exact (fromPacked_pack_default_name [1; 2; 3] H1).
Defined.

Lemma fromPacked_invariant_witness :
  Forall is_u8 [1; 97; 0; 0; 0; 2; 7; 8; 9]
  ∧ fromPacked [1; 97; 0; 0; 0; 2; 7; 8; 9] = Ok {| data := [7; 8]; name := [97] |}
  ∧ name {| data := [7; 8]; name := [97] |} ≠ []
  ∧ Forall is_u8 (data {| data := [7; 8]; name := [97] |})
  ∧ size {| data := [7; 8]; name := [97] |} < 2 ^ 32
  ∧ size {| data := [7; 8]; name := [97] |} + 6
    ≤ Z.of_nat (length [1; 97; 0; 0; 0; 2; 7; 8; 9]).
Proof.
  assert (H1 : Forall is_u8 [1; 97; 0; 0; 0; 2; 7; 8; 9])
    by (unfold is_u8; repeat constructor; lia).
  split; [exact H1|]. split; [reflexivity|].
  exact (fromPacked_invariant [1; 97; 0; 0; 0; 2; 7; 8; 9] {| data := [7; 8]; name := [97] |}
           H1 eq_refl).
Defined.

Lemma fromPacked_pack_wraps_witness :
  Forall is_u16 [97] ∧ well_formed [97] = true ∧ head [97] ≠ Some 0xFEFF
  ∧ 1 ≤ Z.of_nat (length (utf8ToBytes [97])) ≤ 255
  ∧ ∃ p, pack (newRawFile [1; 2; 3] [97]) = Ok p
         ∧ fromPacked p
           = Ok {| data := take (Z.to_nat (Z.of_nat (length [1; 2; 3]) mod 2 ^ 32)) [1; 2; 3];
                   name := [97] |}.
Proof.
  assert (H1 : Forall is_u16 [97]) by (unfold is_u16; repeat constructor; lia).
  assert (H2 : head [97] ≠ Some 0xFEFF) by discriminate.
  assert (H3 : 1 ≤ Z.of_nat (length (utf8ToBytes [97])) ≤ 255) by (simpl; lia).
  split; [exact H1|]. split; [reflexivity|]. split; [exact H2|]. split; [exact H3|].
  destruct (fromPacked_pack_wraps [97] [1; 2; 3] H1 eq_refl H2 H3) as (p & Hp & Hback & _).
  exists p. split; assumption.
Defined.

Lemma hideBlob_keeps_high_bits_witness :
  let w := mkWorld (replicate 16 255) Uint8 (λ _, 0) 0 0 in
  wf_world w ∧ 1 ≤ 3 ≤ 8
  ∧ ∃ image w',
      hideBlob [170] 3 w = (Ok image, w')
      ∧ length image = length (channels w)
      ∧ ∀ i, (i mod 4 ≠ 3)%nat →
          num_of (image !! i) / 2 ^ 3 = num_of (channels w !! i) / 2 ^ 3.
Proof.
  cbv zeta.
  assert (H1 : wf_world (mkWorld (replicate 16 255) Uint8 (λ _, 0) 0 0))
    by (apply Forall_replicate; unfold is_u8; lia).
  assert (H2 : 1 ≤ 3 ≤ 8) by lia.
  split; [exact H1|]. split; [exact H2|].
  destruct (hideBlob [170] 3 (mkWorld (replicate 16 255) Uint8 (λ _, 0) 0 0))
    as [[image|e] w'] eqn:Hrun; [|vm_compute in Hrun; discriminate].
  destruct (hideBlob_keeps_high_bits (mkWorld (replicate 16 255) Uint8 (λ _, 0) 0 0)
              [170] 3 (Ok image) w' H1 H2 Hrun) as (Hl & _ & Hhigh).
  exists image, w'. split; [reflexivity|]. split; [exact Hl|].
  intros i Hi. destruct (Hhigh i Hi) as [Hb _]. exact Hb.
Defined.

Lemma hideBlob_throws_witness :
  let w := mkWorld (replicate 16 0) Uint8 (λ _, 0) 0 0 in
  wf_world w
  ∧ hideBlob [1; 2] 1 w = (Err BlobTooLarge, w)
  ∧ fst (hideBlob [170] 1 w) ≠ Err NeedMoreRandomBits
  ∧ fst (hideBlob [170] 1 w) ≠ Err BufBitsMismatch.
Proof.
  cbv zeta.
  assert (H1 : wf_world (mkWorld (replicate 16 0) Uint8 (λ _, 0) 0 0))
    by (apply Forall_replicate; unfold is_u8; lia).
  split; [exact H1|].
  destruct (hideBlob_throws (mkWorld (replicate 16 0) Uint8 (λ _, 0) 0 0) [1; 2] 1 H1)
    as (_ & Hbig & _).
  destruct (hideBlob_throws (mkWorld (replicate 16 0) Uint8 (λ _, 0) 0 0) [170] 1 H1)
    as (_ & _ & _ & Hdead).
  split; [|exact Hdead].
  apply (Hbig {| bits := (36 # 4)%Q; bytes := 1 |}); [reflexivity|simpl; lia].
Defined.

Lemma revealBlob_low_bits_witness :
  let ch := [0; 0; 0; 0; 1; 0; 1; 0] in
  let ch' := [2; 4; 6; 255; 3; 8; 9; 77] in
  Forall is_u8 ch ∧ Forall is_u8 ch'
  ∧ length ch' = length ch ∧ Z.of_nat (length ch) mod 4 = 0
  ∧ revealBitsTaken ch = Ok 1 ∧ revealBitsTaken ch' = Ok 1
  ∧ revealBlob ch' = revealBlob ch.
Proof.
  cbv zeta.
  assert (H1 : Forall is_u8 [0; 0; 0; 0; 1; 0; 1; 0]) by (unfold is_u8; repeat constructor; lia).
  assert (H2 : Forall is_u8 [2; 4; 6; 255; 3; 8; 9; 77])
    by (unfold is_u8; repeat constructor; lia).
  split; [exact H1|]. split; [exact H2|]. split; [reflexivity|]. split; [reflexivity|].
  split; [reflexivity|]. split; [reflexivity|].
  apply (revealBlob_low_bits [0; 0; 0; 0; 1; 0; 1; 0] [2; 4; 6; 255; 3; 8; 9; 77] 1
           H1 H2 eq_refl eq_refl eq_refl eq_refl).
  intros i Hi Hm. do 8 (destruct i as [|i]; [try lia; reflexivity|]). reflexivity.
Defined.

Lemma hideBlob_then_revealBlob_witness :
  let w := mkWorld (replicate 16 0) Uint8 (λ _, 0) 0 0 in
  wf_world w ∧ Z.of_nat (length (channels w)) mod 4 = 0 ∧ Forall is_u8 [170]
  ∧ calcCapacity (channels w) 1 = Ok {| bits := (36 # 4)%Q; bytes := 1 |}
  ∧ Z.of_nat (length [170]) ≤ 1
  ∧ ∃ image w' ob,
      hideBlob [170] 1 w = (Ok image, w')
      ∧ revealBlob image = Ok ob
      ∧ ob = [170].
Proof.
  cbv zeta.
  assert (H1 : wf_world (mkWorld (replicate 16 0) Uint8 (λ _, 0) 0 0))
    by (apply Forall_replicate; unfold is_u8; lia).
  assert (H2 : Forall is_u8 [170]) by (unfold is_u8; repeat constructor; lia).
  assert (H3 : Z.of_nat (length [170]) ≤ 1) by (simpl; lia).
  split; [exact H1|]. split; [reflexivity|]. split; [exact H2|]. split; [reflexivity|].
  split; [exact H3|].
  destruct (hideBlob_then_revealBlob (mkWorld (replicate 16 0) Uint8 (λ _, 0) 0 0) [170] 1
              {| bits := (36 # 4)%Q; bytes := 1 |} H1 eq_refl H2 eq_refl H3)
    as (image & w' & ob & Hh & Hr & _ & _ & Hfull).
  exists image, w', ob. split; [exact Hh|]. split; [exact Hr|]. apply Hfull. reflexivity.
Defined.

Lemma hideBlob_header_witness :
  let w := mkWorld (replicate 16 255) Uint8 (λ _, 255) 0 0 in
  wf_world w ∧ Z.of_nat (length (channels w)) mod 4 = 0 ∧ Forall is_u8 [170; 3]
  ∧ calcCapacity (channels w) 3 = Ok {| bits := (108 # 4)%Q; bytes := 3 |}
  ∧ Z.of_nat (length [170; 3]) ≤ 3
  ∧ ∃ image, fst (hideBlob [170; 3] 3 w) = Ok image ∧ revealBitsTaken image = Ok 3.
Proof.
  cbv zeta.
  assert (H1 : wf_world (mkWorld (replicate 16 255) Uint8 (λ _, 255) 0 0))
    by (apply Forall_replicate; unfold is_u8; lia).
  assert (H2 : Forall is_u8 [170; 3]) by (unfold is_u8; repeat constructor; lia).
  assert (H3 : Z.of_nat (length [170; 3]) ≤ 3) by (simpl; lia).
  split; [exact H1|]. split; [reflexivity|]. split; [exact H2|]. split; [reflexivity|].
  split; [exact H3|].
  destruct (hideBlob_header (mkWorld (replicate 16 255) Uint8 (λ _, 255) 0 0) [170; 3] 3
              {| bits := (108 # 4)%Q; bytes := 3 |} H1 eq_refl H2 eq_refl H3)
    as (image & Hh & Hr & _).
  exists image. split; assumption.
Defined.

Lemma hide_stores_ciphertext_witness :
  let w := mkWorld (replicate 52 0) Uint8 (λ _, 0) 0 0 in
  let f := newRawFile [7] [97] in
  let key := replicate 32 1 in
  let padded := [1; 97; 0; 0; 0; 1; 7; 0] in
  let c := replicate 12 0 ++ padded ++ replicate 16 0 in
  wf_world w ∧ Z.of_nat (length (channels w)) mod 4 = 0
  ∧ calcCapacity (channels w) 8 = Ok {| bits := (1152 # 4)%Q; bytes := 36 |}
  ∧ packWithPadding f (36 - ENCRYPTED_METADATA_SIZE) = Ok padded
  ∧ @aes_encrypt framing_aead (sealed w) key padded = Ok c
  ∧ Forall is_u8 c ∧ Z.of_nat (length c) = 36
  ∧ ∃ image w',
      hide (H := framing_aead) f key 8 w = (Ok image, w')
      ∧ sealed w' = S (sealed w)
      ∧ revealBlob image = Ok c.
Proof.
  cbv zeta.
  assert (H1 : wf_world (mkWorld (replicate 52 0) Uint8 (λ _, 0) 0 0))
    by (apply Forall_replicate; unfold is_u8; lia).
  assert (H2 : Forall is_u8 (replicate 12 0 ++ [1; 97; 0; 0; 0; 1; 7; 0] ++ replicate 16 0)).
  { apply Forall_app_2; [apply Forall_replicate; unfold is_u8; lia|].
    apply Forall_app_2; [unfold is_u8; repeat constructor; lia|].
    apply Forall_replicate; unfold is_u8; lia. }
  split; [exact H1|]. split; [reflexivity|]. split; [reflexivity|]. split; [reflexivity|].
  split; [reflexivity|]. split; [exact H2|]. split; [reflexivity|].
  destruct (hide_stores_ciphertext (H := framing_aead)
              (mkWorld (replicate 52 0) Uint8 (λ _, 0) 0 0) (newRawFile [7] [97])
              (replicate 32 1) [1; 97; 0; 0; 0; 1; 7; 0]
              (replicate 12 0 ++ [1; 97; 0; 0; 0; 1; 7; 0] ++ replicate 16 0) 8
              {| bits := (1152 # 4)%Q; bytes := 36 |}
              H1 eq_refl eq_refl eq_refl eq_refl H2 eq_refl)
    as (image & w' & Hh & Hs & _ & Hr).
  exists image, w'. split; [exact Hh|]. split; [exact Hs|exact Hr].
Defined.

Lemma hide_atomic_witness :
  let w := mkWorld (replicate 52 0) Uint8 (λ _, 0) 0 0 in
  let called := mkWorld (replicate 52 0) Uint8 (λ _, 0) 0 1 in
  let f := newRawFile [7] [97] in
  wf_world w ∧ Z.of_nat (length (channels w)) mod 4 = 0
  ∧ hide (H := framing_aead) f (replicate 31 1) 8 w = (Err AeadFailure, called)
  ∧ hide (H := framing_aead) f (replicate 32 1) 9 w = (Err BitsOutOfRange, w)
  ∧ hide (H := framing_aead) (newRawFile (replicate 7 7) [97]) (replicate 32 1) 8 w
    = (Err LengthTooSmall, w).
Proof.
  cbv zeta.
  assert (H1 : wf_world (mkWorld (replicate 52 0) Uint8 (λ _, 0) 0 0))
    by (apply Forall_replicate; unfold is_u8; lia).
  split; [exact H1|]. split; [reflexivity|].
  split; [|split].
  - destruct (hide_atomic (H := framing_aead) (mkWorld (replicate 52 0) Uint8 (λ _, 0) 0 0)
                (newRawFile [7] [97]) (replicate 31 1) 8 H1 eq_refl) as [_ Hok].
    destruct (Hok {| bits := (1152 # 4)%Q; bytes := 36 |} eq_refl) as [_ Hpad].
    destruct (Hpad [1; 97; 0; 0; 0; 1; 7; 0] eq_refl) as [Henc _].
    exact (Henc AeadFailure eq_refl).
  - destruct (hide_atomic (H := framing_aead) (mkWorld (replicate 52 0) Uint8 (λ _, 0) 0 0)
                (newRawFile [7] [97]) (replicate 32 1) 9 H1 eq_refl) as [Herr _].
    destruct (Herr BitsOutOfRange eq_refl) as [_ Hh]. exact Hh.
  - destruct (hide_atomic (H := framing_aead) (mkWorld (replicate 52 0) Uint8 (λ _, 0) 0 0)
                (newRawFile (replicate 7 7) [97]) (replicate 32 1) 8 H1 eq_refl) as [_ Hok].
    destruct (Hok {| bits := (1152 # 4)%Q; bytes := 36 |} eq_refl) as [Hpad _].
    destruct (Hpad LengthTooSmall eq_refl) as [_ Hh]. exact Hh.
Defined.

Lemma hide_reveal_any_witness :
  let w := mkWorld (replicate 60 0) Uint8 (λ _, 0) 0 0 in
  let key := replicate 32 1 in
  let f := newRawFile [1; 2] [0xD800] in
  @AeadContract framing_aead
  ∧ wf_world w ∧ Z.of_nat (length (channels w)) mod 4 = 0
  ∧ length key = 32%nat ∧ Forall is_u8 key
  ∧ Forall is_u16 (name f) ∧ Forall is_u8 (data f) ∧ size f < 2 ^ 32
  ∧ calcCapacity (channels w) 8 = Ok {| bits := (1344 # 4)%Q; bytes := 42 |}
  ∧ pack f = Ok [3; 239; 191; 189; 0; 0; 0; 2; 1; 2]
  ∧ Z.of_nat (length [3; 239; 191; 189; 0; 0; 0; 2; 1; 2]) ≤ 42 - ENCRYPTED_METADATA_SIZE
  ∧ ∃ image w',
      hide (H := framing_aead) f key 8 w = (Ok image, w')
      ∧ ∀ w2, channels w2 = image →
          reveal (H := framing_aead) key w2 = (Ok {| data := [1; 2]; name := [0xFFFD] |}, w2).
Proof.
  cbv zeta.
  assert (Hwf : wf_world (mkWorld (replicate 60 0) Uint8 (λ _, 0) 0 0))
    by (apply Forall_replicate; unfold is_u8; lia).
  assert (Hku : Forall is_u8 (replicate 32 1)) by (apply Forall_replicate; unfold is_u8; lia).
  assert (Hn16 : Forall is_u16 (name (newRawFile [1; 2] [0xD800])))
    by (unfold is_u16; repeat constructor; lia).
  assert (Hdu : Forall is_u8 (data (newRawFile [1; 2] [0xD800])))
    by (unfold is_u8; repeat constructor; lia).
  assert (Hsz : size (newRawFile [1; 2] [0xD800]) < 2 ^ 32) by (unfold size; simpl; lia).
  assert (Hfit : Z.of_nat (length [3; 239; 191; 189; 0; 0; 0; 2; 1; 2])
                 ≤ 42 - ENCRYPTED_METADATA_SIZE)
    by (unfold ENCRYPTED_METADATA_SIZE; simpl; lia).
  split; [exact framing_aead_contract|]. split; [exact Hwf|]. split; [reflexivity|].
  split; [reflexivity|]. split; [exact Hku|]. split; [exact Hn16|]. split; [exact Hdu|].
  split; [exact Hsz|]. split; [reflexivity|]. split; [reflexivity|]. split; [exact Hfit|].
  destruct (hide_reveal_any (H := framing_aead) (H0 := framing_aead_contract)
              (mkWorld (replicate 60 0) Uint8 (λ _, 0) 0 0) (newRawFile [1; 2] [0xD800])
              (replicate 32 1) [3; 239; 191; 189; 0; 0; 0; 2; 1; 2] 8
              {| bits := (1344 # 4)%Q; bytes := 42 |}
              Hwf eq_refl eq_refl Hku Hn16 Hdu Hsz eq_refl eq_refl Hfit)
    as (image & w' & revealed & Hh & Hr & _ & ->).
  exists image, w'. split; [exact Hh|exact Hr].
Defined.

Lemma hideBlob_random_fill_witness :
  let w := mkWorld (replicate 16 0) Uint8 (λ n, Z.of_nat n + 1) 0 0 in
  wf_world w ∧ length (channels w) = (4 * 4)%nat ∧ Forall is_u8 [170]
  ∧ calcCapacity (channels w) 1 = Ok {| bits := (36 # 4)%Q; bytes := 1 |}
  ∧ Z.of_nat (length [170]) ≤ 1
  ∧ ∃ image w',
      hideBlob [170] 1 w = (Ok image, w')
      ∧ drawn w' = 1%nat
      ∧ num_of (image !! 14%nat) mod 2 ^ 1 = 1.
Proof.
  cbv zeta.
  assert (H1 : wf_world (mkWorld (replicate 16 0) Uint8 (λ n, Z.of_nat n + 1) 0 0))
    by (apply Forall_replicate; unfold is_u8; lia).
  assert (H2 : Forall is_u8 [170]) by (unfold is_u8; repeat constructor; lia).
  assert (H3 : Z.of_nat (length [170]) ≤ 1) by (simpl; lia).
  split; [exact H1|]. split; [reflexivity|]. split; [exact H2|]. split; [reflexivity|].
  split; [exact H3|].
  destruct (hideBlob_random_fill (mkWorld (replicate 16 0) Uint8 (λ n, Z.of_nat n + 1) 0 0)
              [170] 1 {| bits := (36 # 4)%Q; bytes := 1 |} 3 H1 eq_refl H2 eq_refl H3)
    as (image & w' & Hh & _ & Hd & Hfill & _).
  exists image, w'. split; [exact Hh|]. split; [exact Hd|].
  apply (Hfill 8%nat); [simpl; lia|reflexivity].
Defined.

Lemma hideBlob_layout_witness :
  let w := mkWorld (replicate 16 0) Uint8 (λ _, 0) 0 0 in
  wf_world w ∧ Z.of_nat (length (channels w)) mod 4 = 0 ∧ Forall is_u8 [170]
  ∧ calcCapacity (channels w) 1 = Ok {| bits := (36 # 4)%Q; bytes := 1 |}
  ∧ Z.of_nat (length [170]) ≤ 1
  ∧ ∃ image,
      fst (hideBlob [170] 1 w) = Ok image
      ∧ Z.testbit (num_of (image !! 6%nat)) 0 = Z.testbit 170 5.
Proof.
  cbv zeta.
  assert (H1 : wf_world (mkWorld (replicate 16 0) Uint8 (λ _, 0) 0 0))
    by (apply Forall_replicate; unfold is_u8; lia).
  assert (H2 : Forall is_u8 [170]) by (unfold is_u8; repeat constructor; lia).
  assert (H3 : Z.of_nat (length [170]) ≤ 1) by (simpl; lia).
  split; [exact H1|]. split; [reflexivity|]. split; [exact H2|]. split; [reflexivity|].
  split; [exact H3|].
  destruct (hideBlob_layout (mkWorld (replicate 16 0) Uint8 (λ _, 0) 0 0) [170] 1
              {| bits := (36 # 4)%Q; bytes := 1 |} H1 eq_refl H2 eq_refl H3)
    as (image & Hh & Hbits).
  exists image. split; [exact Hh|].
  destruct (Hbits 2%nat ltac:(simpl; lia)) as (_ & _ & Hb). exact Hb.
Defined.

Lemma reformat_gap_witness :
  let w := mkWorld (replicate 16 0) Uint8 (λ _, 0) 0 0 in
  let hf := newRawFile [7] [97] in
  calcCapacity (channels w) 1 = Ok {| bits := (36 # 4)%Q; bytes := 1 |}
  ∧ pack hf = Ok [1; 97; 0; 0; 0; 1; 7]
  ∧ size hf ≤ 1
  ∧ 1 - ENCRYPTED_METADATA_SIZE < Z.of_nat (length [1; 97; 0; 0; 0; 1; 7])
  ∧ (∃ page', reformat (Some w) (Some hf) (Some (replicate 32 1)) 1 (mkPage true true)
              = Ok page' ∧ submit_disabled page' = false)
  ∧ hide (H := framing_aead) hf (replicate 32 1) 1 w = (Err LengthTooSmall, w).
Proof.
  cbv zeta.
  assert (H1 : size (newRawFile [7] [97]) ≤ 1) by (unfold size; simpl; lia).
  assert (H2 : 1 - ENCRYPTED_METADATA_SIZE < Z.of_nat (length [1; 97; 0; 0; 0; 1; 7]))
    by (unfold ENCRYPTED_METADATA_SIZE; simpl; lia).
  split; [reflexivity|]. split; [reflexivity|]. split; [exact H1|]. split; [exact H2|].
  destruct (reformat_gap (H := framing_aead) (mkWorld (replicate 16 0) Uint8 (λ _, 0) 0 0)
              (newRawFile [7] [97]) (replicate 32 1) [1; 97; 0; 0; 0; 1; 7] 1
              {| bits := (36 # 4)%Q; bytes := 1 |} (mkPage true true)
              eq_refl eq_refl H1 H2) as (Hen & Hh & _).
  split; [exact Hen|exact Hh].
Defined.
